(** * Oracle Database Simulator: the SQL engine of [oracleParser.ts]

    A shallow embedding of [src/utils/oracleParser.ts] (class [OracleParser])
    and of the record types of [src/types/oracle.ts], with the properties of
    the engine stated and proved over it.

    - Strings are Rocq strings of 8-bit code units, read as ASCII text:
      [toUpperCase], [trim] and the character classes [\s], [\w], [\d]
      act on the ASCII range and leave every other code unit alone.
    - Regular expressions are syntax trees run by a backtracking matcher
      (module [Re]); [match], [replace], [split] and [test] follow
      ECMA-262.
    - Numbers are kept abstract (class [JsRuntime]); counts such as
      [rowCount] or [data.length] are exact integers.
    - A row is a plain JavaScript object used as a map from column name
      to value: a finite map of its own properties, over the members it
      inherits from [Object.prototype].  A read that finds no own
      property falls back on them, and an assignment to [__proto__]
      stores nothing.
    - The catalog is the [tables] map of the parser.  An executor takes the
      catalog and gives it back as the call leaves it, with the result of
      the call or the exception it raised. *)

From Stdlib Require Import Ascii ZArith Bool Lia DecimalString.
From Stdlib Require String.
From stdpp Require Import gmap strings list fin_maps.

Local Open Scope bool_scope.

(** ** Strings: the methods of [String.prototype] the engine calls *)

Module Js.

Definition code (c : ascii) : nat := nat_of_ascii c.

Definition between (lo hi : nat) (c : ascii) : bool :=
  (lo <=? code c) && (code c <=? hi).

Definition isDigit (c : ascii) : bool := between 48 57 c.
Definition isLower (c : ascii) : bool := between 97 122 c.
Definition isUpper (c : ascii) : bool := between 65 90 c.

(** [\w] is [[A-Za-z0-9_]]. *)
Definition isWord (c : ascii) : bool :=
  isLower c || isUpper c || isDigit c || (code c =? 95).

(** [\s] and the white space of [trim]: TAB, LF, VT, FF, CR, SPACE. *)
Definition isSpace (c : ascii) : bool :=
  between 9 13 c || (code c =? 32).

(** [.] matches everything but a line terminator. *)
Definition isLineTerminator (c : ascii) : bool :=
  (code c =? 10) || (code c =? 13).

Definition upperChar (c : ascii) : ascii :=
  if isLower c then ascii_of_nat (code c - 32) else c.

Fixpoint toUpperCase (s : string) : string :=
  match s with
  | EmptyString => EmptyString
  | String c s' => String (upperChar c) (toUpperCase s')
  end.

Fixpoint startsWith (s p : string) : bool :=
  match p, s with
  | EmptyString, _ => true
  | String _ _, EmptyString => false
  | String a p', String b s' => Ascii.eqb a b && startsWith s' p'
  end.

Fixpoint includes (s p : string) : bool :=
  startsWith s p ||
  match s with
  | EmptyString => false
  | String _ s' => includes s' p
  end.

Definition rev (s : string) : string :=
  String.string_of_list_ascii (List.rev (String.list_ascii_of_string s)).

Definition endsWith (s p : string) : bool := startsWith (rev s) (rev p).

Fixpoint trimStart (s : string) : string :=
  match s with
  | String c s' => if isSpace c then trimStart s' else s
  | EmptyString => EmptyString
  end.

Definition trimEnd (s : string) : string := rev (trimStart (rev s)).

Definition trim (s : string) : string := trimEnd (trimStart s).

(** [s.split(c)] for a separator of one character. *)
Fixpoint splitOn (sep : ascii) (s : string) : list string :=
  match s with
  | EmptyString => [EmptyString]
  | String c s' =>
      if Ascii.eqb c sep then EmptyString :: splitOn sep s'
      else match splitOn sep s' with
           | piece :: rest => String c piece :: rest
           | [] => [String c EmptyString]
           end
  end.

(** [s.slice(1, -1)]. *)
Definition slice_1_m1 (s : string) : string :=
  String.substring 1 (String.length s - 2) s.

(** The decimal text of a count, as a template literal prints it. *)
Definition ofNat (n : nat) : string :=
  DecimalString.NilZero.string_of_uint (Nat.to_uint n).

(** [xs.join(sep)]. *)
Fixpoint join (sep : string) (xs : list string) : string :=
  match xs with
  | [] => EmptyString
  | [x] => x
  | x :: rest => x +:+ sep +:+ join sep rest
  end.

End Js.

(** ** Regular expressions

    The engine recognises statements with regular expressions.  They are
    transcribed as syntax trees and run by a backtracking matcher written in
    continuation-passing style, the way ECMA-262 specifies pattern
    semantics: a quantifier tries its alternatives in order of preference
    and keeps the first one under which the rest of the pattern succeeds.
    Every quantified atom of the source is a single character class, so the
    star recurses on the input. *)

Module Re.

Inductive cclass :=
| Lit (c : ascii)          (* a literal character *)
| Digit                    (* \d *)
| Word                     (* \w *)
| Space                    (* \s *)
| Dot                      (* . *)
| OneOf (cs : list ascii). (* [...] *)

Inductive regex :=
| Eps
| Chr (cl : cclass)
| Star (greedy : bool) (cl : cclass)   (* cl* and cl*? *)
| Seq (r1 r2 : regex)
| Alt (r1 r2 : regex)
| Opt (r : regex)                      (* (?:r)? *)
| Group (n : nat) (r : regex)          (* the n-th capturing group *)
| Bol                                  (* ^ *)
| Eol.                                 (* $ *)

(** [cl+]. *)
Definition Plus (cl : cclass) : regex := Seq (Chr cl) (Star true cl).

(** A literal word, character by character. *)
Fixpoint Str (s : string) : regex :=
  match s with
  | EmptyString => Eps
  | String c EmptyString => Chr (Lit c)
  | String c s' => Seq (Chr (Lit c)) (Str s')
  end.

(** A sequence of patterns. *)
Fixpoint Cat (rs : list regex) : regex :=
  match rs with
  | [] => Eps
  | [r] => r
  | r :: rest => Seq r (Cat rest)
  end.

Record RegExp := {
  source : regex;
  ignoreCase : bool;   (* flag i *)
  global : bool;       (* flag g *)
  groups : nat         (* number of capturing groups *)
}.

Definition captures := list (option string).

Definition accepts (ci : bool) (cl : cclass) (c : ascii) : bool :=
  match cl with
  | Lit l => if ci then Ascii.eqb (Js.upperChar l) (Js.upperChar c)
             else Ascii.eqb l c
  | Digit => Js.isDigit c
  | Word => Js.isWord c
  | Space => Js.isSpace c
  | Dot => negb (Js.isLineTerminator c)
  | OneOf cs => existsb (Ascii.eqb c) cs
  end.

Section Matcher.
Context {R : Type}.

(** The state of a match: the index reached, the input left, the
    captures so far. *)
Definition cont := nat -> string -> captures -> option R.

Fixpoint star (ci greedy : bool) (cl : cclass) (k : cont)
    (i : nat) (s : string) (c : captures) {struct s} : option R :=
  if greedy then
    match s with
    | String a s' =>
        if accepts ci cl a then
          match star ci greedy cl k (S i) s' c with
          | Some r => Some r
          | None => k i s c
          end
        else k i s c
    | EmptyString => k i s c
    end
  else
    match k i s c with
    | Some r => Some r
    | None =>
        match s with
        | String a s' =>
            if accepts ci cl a then star ci greedy cl k (S i) s' c
            else None
        | EmptyString => None
        end
    end.

Fixpoint run (ci : bool) (r : regex) (k : cont)
    (i : nat) (s : string) (c : captures) {struct r} : option R :=
  match r with
  | Eps => k i s c
  | Chr cl =>
      match s with
      | String a s' => if accepts ci cl a then k (S i) s' c else None
      | EmptyString => None
      end
  | Star greedy cl => star ci greedy cl k i s c
  | Seq r1 r2 => run ci r1 (fun i' s' c' => run ci r2 k i' s' c') i s c
  | Alt r1 r2 =>
      match run ci r1 k i s c with
      | Some x => Some x
      | None => run ci r2 k i s c
      end
  | Opt r1 =>
      match run ci r1 k i s c with
      | Some x => Some x
      | None => k i s c
      end
  | Group n r1 =>
      run ci r1
        (fun i' s' c' => k i' s' (<[n := Some (String.substring 0 (i' - i) s)]> c'))
        i s c
  | Bol => if i =? 0 then k i s c else None
  | Eol => match s with EmptyString => k i s c | String _ _ => None end
  end.
End Matcher.

(** A match attempted at index [i] only, where [s] is the input from [i]
    on: the end index and the captures. *)
Definition matchHere (re : RegExp) (i : nat) (s : string)
    : option (nat * captures) :=
  run (ignoreCase re) (source re) (fun e _ c => Some (e, c))
      i s (replicate (S (groups re)) None).

(** The leftmost match at or after index [i]. *)
Fixpoint search (re : RegExp) (i : nat) (s : string)
    : option (nat * nat * captures) :=
  match matchHere re i s with
  | Some (e, c) => Some (i, e, c)
  | None =>
      match s with
      | String _ s' => search re (S i) s'
      | EmptyString => None
      end
  end.

(** [str.match(re)] for a regular expression without the g flag: the
    matched text, then the captured groups ([None] is [undefined]). *)
Definition match_ (str : string) (re : RegExp) : option (list (option string)) :=
  match search re 0 str with
  | Some (b, e, c) => Some (Some (String.substring b (e - b) str) :: tail c)
  | None => None
  end.

(** [re.test(str)]. *)
Definition test (re : RegExp) (str : string) : bool :=
  match search re 0 str with Some _ => true | None => false end.

(** Replacement patterns: literal text and [$n]. *)
Inductive titem := TText (s : string) | TGroup (n : nat).

Fixpoint expand (tpl : list titem) (c : captures) : string :=
  match tpl with
  | [] => EmptyString
  | TText s :: rest => s +:+ expand rest c
  | TGroup n :: rest => default EmptyString (mjoin (c !! n)) +:+ expand rest c
  end.

(** The scan of [str.replace(re, tpl)]: [skip] characters of a match
    still have to be passed over; [done_] is set once the only match to
    replace (no g flag) has been replaced. *)
Fixpoint replaceFrom (re : RegExp) (tpl : list titem) (done_ : bool)
    (skip i : nat) (s : string) : string :=
  match skip with
  | S skip' =>
      match s with
      | String _ s' => replaceFrom re tpl done_ skip' (S i) s'
      | EmptyString => EmptyString
      end
  | O =>
      let keep :=
        match s with
        | String a s' => fun d => String a (replaceFrom re tpl d 0 (S i) s')
        | EmptyString => fun _ => EmptyString
        end in
      if done_ then keep true
      else
        match matchHere re i s with
        | None => keep false
        | Some (e, c) =>
            let d := negb (global re) in
            expand tpl c +:+
            (if e =? i then keep d
             else match s with
                  | String _ s' => replaceFrom re tpl d (e - i - 1) (S i) s'
                  | EmptyString => EmptyString
                  end)
        end
  end.

Definition replace (str : string) (re : RegExp) (tpl : list titem) : string :=
  replaceFrom re tpl false 0 0 str.

(** The scan of [str.split(re)]: [piece] holds, reversed, the characters
    since the end of the last separator; the pieces and the captures of
    each separator are pushed in order. *)
Fixpoint splitFrom (re : RegExp) (piece : list ascii) (skip i : nat)
    (s : string) : list (option string) :=
  let flush := Some (String.string_of_list_ascii (List.rev piece)) in
  match skip with
  | S skip' =>
      match s with
      | String _ s' => splitFrom re piece skip' (S i) s'
      | EmptyString => [flush]
      end
  | O =>
      match s with
      | EmptyString => [flush]
      | String a s' =>
          match matchHere re i s with
          | None => splitFrom re (a :: piece) 0 (S i) s'
          | Some (e, c) =>
              if (e =? i) && (match piece with [] => true | _ => false end)
              then splitFrom re (a :: piece) 0 (S i) s'
              else if e =? i
              then flush :: tail c ++ splitFrom re [a] 0 (S i) s'
              else flush :: tail c ++ splitFrom re [] (e - i - 1) (S i) s'
          end
      end
  end.

Definition split (str : string) (re : RegExp) : list (option string) :=
  match str with
  | EmptyString =>
      match matchHere re 0 str with Some _ => [] | None => [Some str] end
  | String _ _ => splitFrom re [] 0 0 str
  end.

End Re.

(** ** What the engine takes from the JavaScript runtime

    Numbers are IEEE doubles in JavaScript.  The engine only converts text
    to a number, compares numbers and evaluates one arithmetic expression,
    so these operations are the interface; every theorem below holds for
    any implementation of it. *)

Class JsRuntime := {
  number : Type;
  (** [Number(text)] *)
  Number : string -> number;
  isNaN : number -> bool;
  (** a count as a number *)
  ofInt : Z -> number;
  (** [x == y] on two numbers *)
  numberEq : number -> number -> bool;
  (** [x < y] on two numbers; [None] when one of them is NaN *)
  numberLt : number -> number -> option bool;
  (** [eval] of the text [<digits> op <digits>] *)
  eval : string -> number;
  (** a number in a condition: false for 0 and NaN *)
  numberTruthy : number -> bool;
  (** a number in a template literal *)
  numberToString : number -> string;
  (** the message of the TypeError raised by [undefined.method(...)] *)
  cannotRead : string -> string;
  (** [String(Object.prototype[name])]: the text of a built-in function
      is the implementation's choice *)
  memberText : string -> string
}.

(** ** Data model ([src/types/oracle.ts]) *)

Section Engine.
Context `{JsRuntime}.

(** A value read from a row: [unknown] in the source.  The engine stores
    strings, numbers and [undefined]; a read also gives what the row
    inherits from [Object.prototype] under the name: a function, or
    under [__proto__] the prototype itself. *)
Inductive value :=
| VUndefined
| VString (s : string)
| VNumber (n : number)
| VMember (name : string).

(** [Record<string, unknown>]: the own properties of the object. *)
Definition Row := gmap string value.

(** The names under which [Object.prototype] has a member. *)
Definition objectPrototype : list string :=
  ["constructor"; "hasOwnProperty"; "isPrototypeOf"; "propertyIsEnumerable";
   "toLocaleString"; "toString"; "valueOf"; "__proto__";
   "__defineGetter__"; "__defineSetter__"; "__lookupGetter__";
   "__lookupSetter__"].

Definition inherited (key : string) : bool :=
  existsb (String.eqb key) objectPrototype.

(** [row[key]]: the own property, else the inherited member, else
    [undefined]. *)
Definition rowGet (row : gmap string value) (key : string) : value :=
  match row !! key with
  | Some v => v
  | None => if inherited key then VMember key else VUndefined
  end.

(** [row[key] = v]: an own property is written, but under [__proto__].
    There the setter of [Object.prototype] takes the assignment and no
    property is stored.  The setter ignores a string, a number and
    [undefined], which is all [executeInsert] assigns; given the
    prototype, which is what [executeSelect] reads from a stored row
    under [__proto__] and assigns, it leaves the prototype what it is.
    (No assignment storing a property of that name, no stored row has a
    function there for the setter to take as a new prototype.) *)
Definition rowSet (row : gmap string value) (key : string) (v : value)
    : gmap string value :=
  if String.eqb key "__proto__" then row else <[key := v]> row.

Record OracleColumn := {
  col_name : string;
  col_dataType : string;
  col_nullable : bool;
  col_length : option number
}.

Inductive IndexType := BTREE | HASH | BITMAP.

Record OracleIndex := {
  idx_name : string;
  idx_columns : list string;
  idx_unique : bool;
  idx_type : IndexType
}.

Inductive ConstraintType := PRIMARY_KEY | FOREIGN_KEY | UNIQUE | CHECK | NOT_NULL.

Record OracleConstraint := {
  con_name : string;
  con_type : ConstraintType;
  con_columns : list string
}.

Record OracleTable := {
  tbl_name : string;
  tbl_columns : list OracleColumn;
  tbl_data : list (gmap string value);
  tbl_indexes : list OracleIndex;
  tbl_constraints : list OracleConstraint;
  tbl_created : string
}.

Record ExecutionPlan := {
  operation : string;
  object : string;
  cost : Z;
  cardinality : Z;
  bytes : Z;
  time : string
}.

Record QueryResult := {
  success : bool;
  data : option (list (gmap string value));
  columns : option (list string);
  rowCount : option nat;
  executionTime : option number;
  executionPlan : option ExecutionPlan;
  message : option string;
  error : option string
}.

(** The [tables] map of the parser, keyed by upper-cased table name. *)
Definition Catalog := gmap string OracleTable.

(** What a method call ends with: a result, or an exception with its
    message. *)
Inductive outcome :=
| Returned (r : QueryResult)
| Thrown (msg : string).

(** What one call reads from its environment: [new Date().toISOString()]
    and the time measured between the two [performance.now()]. *)
Record Env := {
  nowISO : string;
  elapsed : number
}.

Definition failed (err : string) : QueryResult :=
  {| success := false; data := None; columns := None; rowCount := None;
     executionTime := None; executionPlan := None; message := None;
     error := Some err |}.

Definition done_with (msg : string) (n : nat) : QueryResult :=
  {| success := true; data := None; columns := None; rowCount := Some n;
     executionTime := None; executionPlan := None; message := Some msg;
     error := None |}.

Definition withExecutionTime (r : QueryResult) (t : number) : QueryResult :=
  {| success := success r; data := data r; columns := columns r;
     rowCount := rowCount r; executionTime := Some t;
     executionPlan := executionPlan r; message := message r;
     error := error r |}.

Definition withData (t : OracleTable) (rows : list (gmap string value)) : OracleTable :=
  {| tbl_name := tbl_name t; tbl_columns := tbl_columns t; tbl_data := rows;
     tbl_indexes := tbl_indexes t; tbl_constraints := tbl_constraints t;
     tbl_created := tbl_created t |}.

Definition withIndexes (t : OracleTable) (ixs : list OracleIndex) : OracleTable :=
  {| tbl_name := tbl_name t; tbl_columns := tbl_columns t; tbl_data := tbl_data t;
     tbl_indexes := ixs; tbl_constraints := tbl_constraints t;
     tbl_created := tbl_created t |}.

(** A value is truthy unless it is [undefined] or the empty string. *)
Definition truthy (s : option string) : bool :=
  match s with
  | Some (String _ _) => true
  | _ => false
  end.

(** ** The regular expressions of the source

    Each comment quotes the literal of the source; a space is written
    between a star and a closing parenthesis that follows it. *)

Import Re.

Definition rx (r : regex) (i g : bool) (n : nat) : RegExp :=
  {| source := r; ignoreCase := i; global := g; groups := n |}.

(** [/;$/] *)
Definition reTerminator : RegExp :=
  rx (Cat [Chr (Lit ";"); Eol]) false false 0.

(** [/VARCHAR2\((\d+)\)/gi] *)
Definition reVarchar2 : RegExp :=
  rx (Cat [Str "VARCHAR2"; Chr (Lit "("); Group 1 (Plus Digit); Chr (Lit ")")])
     true true 1.

(** [/NUMBER\((\d+),(\d+)\)/gi] *)
Definition reNumberPS : RegExp :=
  rx (Cat [Str "NUMBER"; Chr (Lit "("); Group 1 (Plus Digit); Chr (Lit ",");
           Group 2 (Plus Digit); Chr (Lit ")")])
     true true 2.

(** [/NUMBER\((\d+)\)/gi] *)
Definition reNumberP : RegExp :=
  rx (Cat [Str "NUMBER"; Chr (Lit "("); Group 1 (Plus Digit); Chr (Lit ")")])
     true true 1.

(** [/NUMBER/gi], [/DATE/gi], [/SYSDATE/gi], [/SYSTIMESTAMP/gi] *)
Definition reNumber : RegExp := rx (Str "NUMBER") true true 0.
Definition reDate : RegExp := rx (Str "DATE") true true 0.
Definition reSysdate : RegExp := rx (Str "SYSDATE") true true 0.
Definition reSystimestamp : RegExp := rx (Str "SYSTIMESTAMP") true true 0.

(** [/NVL\(/gi] *)
Definition reNvl : RegExp := rx (Str "NVL(") true true 0.

(** [/\|\|/g] *)
Definition reConcat : RegExp := rx (Str "||") false true 0.

(** [(?:\s+WHERE\s+(.* ))?] with its group numbered [n] *)
Definition optWhere (n : nat) : regex :=
  Opt (Cat [Plus Space; Str "WHERE"; Plus Space; Group n (Star true Dot)]).

(** [/SELECT\s+(.*?)\s+FROM\s+(\w+)(?:\s+WHERE\s+(.* ))?/i] *)
Definition reSelect : RegExp :=
  rx (Cat [Str "SELECT"; Plus Space; Group 1 (Star false Dot); Plus Space;
           Str "FROM"; Plus Space; Group 2 (Plus Word); optWhere 3])
     true false 3.

(** [/CREATE\s+TABLE\s+(\w+)\s*\((.* )\)/i] *)
Definition reCreateTable : RegExp :=
  rx (Cat [Str "CREATE"; Plus Space; Str "TABLE"; Plus Space;
           Group 1 (Plus Word); Star true Space; Chr (Lit "(");
           Group 2 (Star true Dot); Chr (Lit ")")])
     true false 2.

(** [/INSERT\s+INTO\s+(\w+)\s*(?:\((.*?)\))?\s*VALUES\s*\((.* )\)/i] *)
Definition reInsert : RegExp :=
  rx (Cat [Str "INSERT"; Plus Space; Str "INTO"; Plus Space;
           Group 1 (Plus Word); Star true Space;
           Opt (Cat [Chr (Lit "("); Group 2 (Star false Dot); Chr (Lit ")")]);
           Star true Space; Str "VALUES"; Star true Space; Chr (Lit "(");
           Group 3 (Star true Dot); Chr (Lit ")")])
     true false 3.

(** [/UPDATE\s+(\w+)\s+SET\s+(.*?)(?:\s+WHERE\s+(.* ))?/i] *)
Definition reUpdate : RegExp :=
  rx (Cat [Str "UPDATE"; Plus Space; Group 1 (Plus Word); Plus Space;
           Str "SET"; Plus Space; Group 2 (Star false Dot); optWhere 3])
     true false 3.

(** [/DELETE\s+FROM\s+(\w+)(?:\s+WHERE\s+(.* ))?/i] *)
Definition reDelete : RegExp :=
  rx (Cat [Str "DELETE"; Plus Space; Str "FROM"; Plus Space;
           Group 1 (Plus Word); optWhere 2])
     true false 2.

(** [/DROP\s+TABLE\s+(\w+)/i] *)
Definition reDropTable : RegExp :=
  rx (Cat [Str "DROP"; Plus Space; Str "TABLE"; Plus Space; Group 1 (Plus Word)])
     true false 1.

(** [/CREATE\s+(?:UNIQUE\s+)?INDEX\s+(\w+)\s+ON\s+(\w+)\s*\((.*?)\)/i] *)
Definition reCreateIndex : RegExp :=
  rx (Cat [Str "CREATE"; Plus Space; Opt (Cat [Str "UNIQUE"; Plus Space]);
           Str "INDEX"; Plus Space; Group 1 (Plus Word); Plus Space;
           Str "ON"; Plus Space; Group 2 (Plus Word); Star true Space;
           Chr (Lit "("); Group 3 (Star false Dot); Chr (Lit ")")])
     true false 3.

(** [/DESC(?:RIBE)?\s+(\w+)/i] *)
Definition reDescribe : RegExp :=
  rx (Cat [Str "DESC"; Opt (Str "RIBE"); Plus Space; Group 1 (Plus Word)])
     true false 1.

(** [/SELECT\s+(.*?)\s+FROM\s+DUAL/i] *)
Definition reDual : RegExp :=
  rx (Cat [Str "SELECT"; Plus Space; Group 1 (Star false Dot); Plus Space;
           Str "FROM"; Plus Space; Str "DUAL"])
     true false 1.

(** [/^\d+\s*[+\-*/]\s*\d+$/] *)
Definition reArithmetic : RegExp :=
  rx (Cat [Bol; Plus Digit; Star true Space; Chr (OneOf ["+"; "-"; "*"; "/"]%char);
           Star true Space; Plus Digit; Eol])
     false false 0.

(** [/'/g] *)
Definition reQuote : RegExp := rx (Chr (Lit "'")) false true 0.

(** [/\s+/] *)
Definition reSpaces : RegExp := rx (Plus Space) false false 0.

(** [/\s+(AND|OR)\s+/i] *)
Definition reAndOr : RegExp :=
  rx (Cat [Plus Space; Group 1 (Alt (Str "AND") (Str "OR")); Plus Space])
     true false 1.

(** [/(\w+)\s*(=|!=|<>|<|>|<=|>=)\s*(.+)/] *)
Definition reCondition : RegExp :=
  rx (Cat [Group 1 (Plus Word); Star true Space;
           Group 2 (Alt (Str "=") (Alt (Str "!=") (Alt (Str "<>") (Alt (Str "<")
                   (Alt (Str ">") (Alt (Str "<=") (Str ">=")))))));
           Star true Space; Group 3 (Plus Dot)])
     false false 3.

(** ** [normalizeOracleSQL] (lines 63-75) *)

Definition normalizeOracleSQL (sql : string) : string :=
  let s1 := replace sql reVarchar2 [TText "VARCHAR("; TGroup 1; TText ")"] in
  let s2 := replace s1 reNumberPS
              [TText "DECIMAL("; TGroup 1; TText ","; TGroup 2; TText ")"] in
  let s3 := replace s2 reNumberP [TText "INTEGER"] in
  let s4 := replace s3 reNumber [TText "DECIMAL(38,10)"] in
  let s5 := replace s4 reDate [TText "TIMESTAMP"] in
  let s6 := replace s5 reSysdate [TText "CURRENT_TIMESTAMP"] in
  let s7 := replace s6 reSystimestamp [TText "CURRENT_TIMESTAMP"] in
  let s8 := replace s7 reNvl [TText "COALESCE("] in
  replace s8 reConcat [TText "+"].

(** ** [generateExecutionPlan] (lines 509-518) *)

Definition generateExecutionPlan (operation_ object_ : string) (rows : Z)
    : ExecutionPlan :=
  {| operation := Js.toUpperCase operation_ +:+ " STATEMENT";
     object := Js.toUpperCase object_;
     cost := Z.max 1 (rows / 100);
     cardinality := rows;
     bytes := rows * 100;
     time := "00:00:01" |}.

(** ** [evaluateWhereClause] (lines 456-497) *)

(** [ToPrimitive]: a function or the prototype converts to its text, a
    string, a number and [undefined] are primitive already. *)
Definition toPrimitive (x : value) : value :=
  match x with
  | VMember name => VString (memberText name)
  | _ => x
  end.

(** [x == y] where [y] is a string: a number is compared with the string
    converted to a number, [undefined] equals no string, an object is
    compared by its text. *)
Definition looseEq (x : value) (y : string) : bool :=
  match toPrimitive x with
  | VString s => String.eqb s y
  | VNumber n => numberEq n (Number y)
  | VUndefined | VMember _ => false
  end.

(** The abstract relational comparison [x < y] of two primitives: two
    strings are compared by code units, anything else as numbers, and
    [undefined] converts to NaN, for which the comparison is undefined
    ([None]). *)
Definition lessThanPrimitive (x y : value) : option bool :=
  match x, y with
  | VString a, VString b => Some (String.ltb a b)
  | VNumber a, VNumber b => numberLt a b
  | VNumber a, VString b => numberLt a (Number b)
  | VString a, VNumber b => numberLt (Number a) b
  | _, _ => None
  end.

(** [x < y]: both sides are converted to primitives first. *)
Definition lessThan (x y : value) : option bool :=
  lessThanPrimitive (toPrimitive x) (toPrimitive y).

Definition isTrue (r : option bool) : bool :=
  match r with Some true => true | _ => false end.
Definition isFalse (r : option bool) : bool :=
  match r with Some false => true | _ => false end.

(** The [switch (operator)] of the loop body; [result] starts [false]. *)
Definition compare (operator : string) (columnValue : value)
    (compareValue : string) : bool :=
  if String.eqb operator "=" then looseEq columnValue compareValue
  else if String.eqb operator "!=" || String.eqb operator "<>"
  then negb (looseEq columnValue compareValue)
  else if String.eqb operator "<"
  then isTrue (lessThan columnValue (VString compareValue))
  else if String.eqb operator ">"
  then isTrue (lessThan (VString compareValue) columnValue)
  else if String.eqb operator "<="
  then isFalse (lessThan (VString compareValue) columnValue)
  else if String.eqb operator ">="
  then isFalse (lessThan columnValue (VString compareValue))
  else false.

(** One turn of the loop on [conditions[i]]: [Some result] when the
    condition has the shape of [reCondition], [None] when it has not and
    is passed over. *)
Definition evaluateCondition (row : gmap string value) (condition : string)
    : option bool :=
  match match_ condition reCondition with
  | Some [_; Some column; Some operator; Some value_] =>
      let columnValue := rowGet row (Js.toUpperCase column) in
      let compareValue := replace value_ reQuote [] in
      Some (compare operator columnValue compareValue)
  | _ => None
  end.

(** [for (let i = 0; i < conditions.length; i += 2)]: the captured
    keywords sit at the odd indices and are stepped over. *)
Fixpoint whereLoop (row : gmap string value) (conditions : list (option string))
    : bool :=
  match conditions with
  | [] => true
  | c :: rest =>
      match evaluateCondition row (Js.trim (default EmptyString c)) with
      | Some false => false
      | _ => match rest with
             | [] => true
             | _ :: rest' => whereLoop row rest'
             end
      end
  end.

Definition evaluateWhereClause (row : gmap string value) (whereClause : string)
    : bool :=
  whereLoop row (split whereClause reAndOr).

(** ** The helpers of the executors *)

(** [parseColumnDefinitions] (lines 418-436): one definition, then all. *)
Definition parseColumnDefinition (def : string) : OracleColumn :=
  let parts := split (Js.trim def) reSpaces in
  let name := default EmptyString (mjoin (parts !! 0)) in
  let dataType :=
    match mjoin (parts !! 1) with
    | Some (String c t) => String c t
    | _ => "VARCHAR2(255)"
    end in
  let nullable := negb (Js.includes (Js.toUpperCase def) "NOT NULL") in
  {| col_name := Js.toUpperCase name; col_dataType := dataType;
     col_nullable := nullable; col_length := None |}.

Definition parseColumnDefinitions (columnDefs : string) : list OracleColumn :=
  map parseColumnDefinition (Js.splitOn "," columnDefs).

(** [parseValues] (lines 438-454): one value, then all. *)
Definition parseValue (value_ : string) : value :=
  let trimmed := Js.trim value_ in
  if Js.startsWith trimmed "'" && Js.endsWith trimmed "'"
  then VString (Js.slice_1_m1 trimmed)
  else if negb (isNaN (Number trimmed)) then VNumber (Number trimmed)
  else VString trimmed.

Definition parseValues (valueList : string) : list value :=
  map parseValue (Js.splitOn "," valueList).

(** [applySetClause] (lines 499-507): the row after the assignments made, and the
    message of the TypeError when an assignment has no [=], which stops
    the loop ([value] is then [undefined] and [value.replace] throws). *)
Fixpoint applyAssignments (row : gmap string value) (assignments : list string)
    : gmap string value * option string :=
  match assignments with
  | [] => (row, None)
  | assignment :: rest =>
      match map Js.trim (Js.splitOn "=" assignment) with
      | column :: value_ :: _ =>
          let cleanValue := replace value_ reQuote [] in
          applyAssignments (rowSet row (Js.toUpperCase column) (VString cleanValue))
                           rest
      | _ => (row, Some (cannotRead "replace"))
      end
  end.

Definition applySetClause (row : gmap string value) (setClause : string)
    : gmap string value * option string :=
  applyAssignments row (Js.splitOn "," setClause).

(** ** The executors

    Each takes the catalog and the statement and gives back the catalog
    as the call leaves it, with what the call ends with. *)

Definition tableMissing (tableName : string) : outcome :=
  Returned (failed ("ORA-00942: table or view does not exist: " +:+ tableName)).

(** [newRow[col] = row[col]] for each requested column *)
Definition projectRow (resultColumns : list string) (row : gmap string value)
    : gmap string value :=
  foldl (fun newRow col => rowSet newRow col (rowGet row col)) ∅ resultColumns.

(** Lines 77-130. *)
Definition executeSelect (cat : gmap string OracleTable) (sql : string)
    : gmap string OracleTable * outcome :=
  match match_ sql reSelect with
  | None => (cat, Returned (failed "ORA-00936: missing expression"))
  | Some [_; Some columns_; Some tableName; whereClause] =>
      match cat !! Js.toUpperCase tableName with
      | None => (cat, tableMissing tableName)
      | Some table =>
          let data_ :=
            if truthy whereClause
            then filter (fun row =>
                   evaluateWhereClause row (default EmptyString whereClause) = true)
                   (tbl_data table)
            else tbl_data table in
          let '(resultColumns, resultData) :=
            if String.eqb (Js.trim columns_) "*"
            then (map col_name (tbl_columns table), data_)
            else let cols := map Js.trim (Js.splitOn "," columns_) in
                 (cols, map (projectRow cols) data_) in
          (cat, Returned
             {| success := true; data := Some resultData;
                columns := Some resultColumns;
                rowCount := Some (length resultData);
                executionTime := None;
                executionPlan :=
                  Some (generateExecutionPlan "SELECT" tableName
                          (Z.of_nat (length data_)));
                message := None; error := None |})
      end
  | Some _ => (cat, Thrown (cannotRead "toUpperCase"))
  end.

(** Lines 132-170. *)
Definition executeCreateTable (env : Env) (cat : gmap string OracleTable)
    (sql : string) : gmap string OracleTable * outcome :=
  match match_ sql reCreateTable with
  | None => (cat, Returned (failed "ORA-00907: missing right parenthesis"))
  | Some [_; Some tableName; Some columnDefs] =>
      let tableNameUpper := Js.toUpperCase tableName in
      match cat !! tableNameUpper with
      | Some _ =>
          (cat, Returned (failed
             ("ORA-00955: name is already used by an existing object: "
              +:+ tableName)))
      | None =>
          let table :=
            {| tbl_name := tableNameUpper;
               tbl_columns := parseColumnDefinitions columnDefs;
               tbl_data := []; tbl_indexes := []; tbl_constraints := [];
               tbl_created := nowISO env |} in
          (<[tableNameUpper := table]> cat,
           Returned (done_with ("Table " +:+ tableName +:+ " created.") 0))
      end
  | Some _ => (cat, Thrown (cannotRead "toUpperCase"))
  end.

(** [columns.forEach((col, index) => newRow[col] = values[index])] *)
Fixpoint assignColumns (newRow : gmap string value) (columns_ : list string)
    (values : list value) : gmap string value :=
  match columns_ with
  | [] => newRow
  | col :: cols =>
      assignColumns (rowSet newRow col (default VUndefined (head values)))
                    cols (tail values)
  end.

(** Lines 172-209. *)
Definition executeInsert (cat : gmap string OracleTable) (sql : string)
    : gmap string OracleTable * outcome :=
  match match_ sql reInsert with
  | None => (cat, Returned (failed "ORA-00936: missing expression"))
  | Some [_; Some tableName; columnList; Some valueList] =>
      match cat !! Js.toUpperCase tableName with
      | None => (cat, tableMissing tableName)
      | Some table =>
          let values := parseValues valueList in
          let columns_ :=
            if truthy columnList
            then map Js.trim (Js.splitOn "," (default EmptyString columnList))
            else map col_name (tbl_columns table) in
          let newRow := assignColumns ∅ columns_ values in
          (<[Js.toUpperCase tableName := withData table (tbl_data table ++ [newRow])]> cat,
           Returned (done_with "1 row created." 1))
      end
  | Some _ => (cat, Thrown (cannotRead "toUpperCase"))
  end.

Definition plural (n : nat) : string := if n =? 1 then "" else "s".

(** [table.data.forEach(row => ...)] of [executeUpdate]: the rows as the
    loop leaves them, [updatedRows], and the exception that stopped it. *)
Fixpoint updateRows (setClause : string) (whereClause : option string)
    (rows : list (gmap string value))
    : list (gmap string value) * nat * option string :=
  match rows with
  | [] => ([], 0, None)
  | row :: rest =>
      if negb (truthy whereClause)
         || evaluateWhereClause row (default EmptyString whereClause)
      then
        match applySetClause row setClause with
        | (row', Some e) => (row' :: rest, 0, Some e)
        | (row', None) =>
            let '(rest', n, e) := updateRows setClause whereClause rest in
            (row' :: rest', S n, e)
        end
      else
        let '(rest', n, e) := updateRows setClause whereClause rest in
        (row :: rest', n, e)
  end.

(** Lines 211-244. *)
Definition executeUpdate (cat : gmap string OracleTable) (sql : string)
    : gmap string OracleTable * outcome :=
  match match_ sql reUpdate with
  | None => (cat, Returned (failed "ORA-00936: missing expression"))
  | Some [_; Some tableName; Some setClause; whereClause] =>
      match cat !! Js.toUpperCase tableName with
      | None => (cat, tableMissing tableName)
      | Some table =>
          let '(rows, updatedRows, e) :=
            updateRows setClause whereClause (tbl_data table) in
          (<[Js.toUpperCase tableName := withData table rows]> cat,
           match e with
           | Some msg => Thrown msg
           | None =>
               Returned (done_with
                 (Js.ofNat updatedRows +:+ " row" +:+ plural updatedRows
                  +:+ " updated.") updatedRows)
           end)
      end
  | Some _ => (cat, Thrown (cannotRead "toUpperCase"))
  end.

(** Lines 246-281. *)
Definition executeDelete (cat : gmap string OracleTable) (sql : string)
    : gmap string OracleTable * outcome :=
  match match_ sql reDelete with
  | None => (cat, Returned (failed "ORA-00936: missing expression"))
  | Some [_; Some tableName; whereClause] =>
      match cat !! Js.toUpperCase tableName with
      | None => (cat, tableMissing tableName)
      | Some table =>
          let initialCount := length (tbl_data table) in
          let rows :=
            if truthy whereClause
            then filter (fun row =>
                   evaluateWhereClause row (default EmptyString whereClause) = false)
                   (tbl_data table)
            else [] in
          let deletedRows := initialCount - length rows in
          (<[Js.toUpperCase tableName := withData table rows]> cat,
           Returned (done_with
             (Js.ofNat deletedRows +:+ " row" +:+ plural deletedRows
              +:+ " deleted.") deletedRows))
      end
  | Some _ => (cat, Thrown (cannotRead "toUpperCase"))
  end.

(** Lines 283-309. *)
Definition executeDropTable (cat : gmap string OracleTable) (sql : string)
    : gmap string OracleTable * outcome :=
  match match_ sql reDropTable with
  | None => (cat, Returned (failed "ORA-00942: table or view does not exist"))
  | Some [_; Some name] =>
      let tableName := Js.toUpperCase name in
      match cat !! tableName with
      | None => (cat, tableMissing tableName)
      | Some _ =>
          (delete tableName cat,
           Returned (done_with ("Table " +:+ tableName +:+ " dropped.") 0))
      end
  | Some _ => (cat, Thrown (cannotRead "toUpperCase"))
  end.

(** Lines 311-346. *)
Definition executeCreateIndex (cat : gmap string OracleTable) (sql : string)
    : gmap string OracleTable * outcome :=
  match match_ sql reCreateIndex with
  | None => (cat, Returned (failed "ORA-00907: missing right parenthesis"))
  | Some [_; Some indexName; Some tableName; Some columnList] =>
      match cat !! Js.toUpperCase tableName with
      | None => (cat, tableMissing tableName)
      | Some table =>
          let index :=
            {| idx_name := Js.toUpperCase indexName;
               idx_columns := map Js.trim (Js.splitOn "," columnList);
               idx_unique := Js.includes (Js.toUpperCase sql) "UNIQUE";
               idx_type := BTREE |} in
          (<[Js.toUpperCase tableName := withIndexes table (tbl_indexes table ++ [index])]> cat,
           Returned (done_with ("Index " +:+ indexName +:+ " created.") 0))
      end
  | Some _ => (cat, Thrown (cannotRead "toUpperCase"))
  end.

(** [col.length ? `(${col.length})` : ''] *)
Definition lengthSuffix (col : OracleColumn) : string :=
  match col_length col with
  | Some n => if numberTruthy n then "(" +:+ numberToString n +:+ ")" else ""
  | None => ""
  end.

(** One row of DESCRIBE: the keys [Name], [Null?] and [Type]. *)
Definition describeColumn (col : OracleColumn) : gmap string value :=
  <["Type" := VString (col_dataType col +:+ lengthSuffix col)]>
    (<["Null?" := VString (if col_nullable col then "" else "NOT NULL")]>
       (<["Name" := VString (col_name col)]> ∅)).

(** Lines 348-380. *)
Definition executeDescribe (cat : gmap string OracleTable) (sql : string)
    : gmap string OracleTable * outcome :=
  match match_ sql reDescribe with
  | None => (cat, Returned (failed "ORA-00942: table or view does not exist"))
  | Some [_; Some name] =>
      let tableName := Js.toUpperCase name in
      match cat !! tableName with
      | None => (cat, tableMissing tableName)
      | Some table =>
          let data_ := map describeColumn (tbl_columns table) in
          (cat, Returned
             {| success := true; data := Some data_;
                columns := Some ["Name"; "Null?"; "Type"];
                rowCount := Some (length data_);
                executionTime := None; executionPlan := None;
                message := None; error := None |})
      end
  | Some _ => (cat, Thrown (cannotRead "toUpperCase"))
  end.

(** Lines 382-416. *)
Definition executeDualQuery (env : Env) (cat : gmap string OracleTable)
    (sql : string) : gmap string OracleTable * outcome :=
  match match_ sql reDual with
  | None => (cat, Returned (failed "ORA-00936: missing expression"))
  | Some [_; Some e] =>
      let expression := Js.trim e in
      let result :=
        if String.eqb (Js.toUpperCase expression) "SYSDATE"
        then VString (default EmptyString (head (Js.splitOn "T" (nowISO env))))
        else if String.eqb (Js.toUpperCase expression) "SYSTIMESTAMP"
        then VString (nowISO env)
        else if String.eqb (Js.toUpperCase expression) "USER"
        then VString "ORACLE_SIM"
        else if test reArithmetic expression
        then VNumber (eval expression)
        else VString (replace expression reQuote []) in
      (cat, Returned
         {| success := true; data := Some [{[expression := result]}];
            columns := Some [expression]; rowCount := Some 1;
            executionTime := None; executionPlan := None;
            message := None; error := None |})
  | Some _ => (cat, Thrown (cannotRead "trim"))
  end.

(** ** [parseSQL] (lines 15-61) *)

(** The kinds of statement, in the order the [if] chain of [parseSQL]
    tests them. *)
Inductive StatementKind :=
| KSelect | KCreateTable | KInsert | KUpdate | KDelete | KDropTable
| KCreateIndex | KDescribe | KDual | KInvalid.

Definition classify (normalizedSQL : string) : StatementKind :=
  let upper := Js.toUpperCase normalizedSQL in
  if Js.startsWith upper "SELECT" then KSelect
  else if Js.startsWith upper "CREATE TABLE" then KCreateTable
  else if Js.startsWith upper "INSERT" then KInsert
  else if Js.startsWith upper "UPDATE" then KUpdate
  else if Js.startsWith upper "DELETE" then KDelete
  else if Js.startsWith upper "DROP TABLE" then KDropTable
  else if Js.startsWith upper "CREATE INDEX" then KCreateIndex
  else if Js.startsWith upper "DESCRIBE" || Js.startsWith upper "DESC"
  then KDescribe
  else if Js.includes upper "DUAL" then KDual
  else KInvalid.

Definition dispatch (env : Env) (cat : gmap string OracleTable)
    (normalizedSQL : string) : gmap string OracleTable * outcome :=
  match classify normalizedSQL with
  | KSelect => executeSelect cat normalizedSQL
  | KCreateTable => executeCreateTable env cat normalizedSQL
  | KInsert => executeInsert cat normalizedSQL
  | KUpdate => executeUpdate cat normalizedSQL
  | KDelete => executeDelete cat normalizedSQL
  | KDropTable => executeDropTable cat normalizedSQL
  | KCreateIndex => executeCreateIndex cat normalizedSQL
  | KDescribe => executeDescribe cat normalizedSQL
  | KDual => executeDualQuery env cat normalizedSQL
  | KInvalid => (cat, Returned (failed "ORA-00900: invalid SQL statement"))
  end.

(** The statement as the executors receive it. *)
Definition prepare (sql : string) : string :=
  normalizeOracleSQL (replace (Js.trim sql) reTerminator []).

Definition parseSQL (env : Env) (cat : gmap string OracleTable) (sql : string)
    : gmap string OracleTable * QueryResult :=
  match dispatch env cat (prepare sql) with
  | (cat', Returned result) => (cat', withExecutionTime result (elapsed env))
  | (cat', Thrown msg) =>
      (cat', withExecutionTime (failed ("ORA-00907: " +:+ msg)) (ofInt 0))
  end.

End Engine.

(** ** A runtime to run the engine on examples

    Numbers are the integers, with [None] for NaN: [Number] reads an
    optionally signed run of decimal digits (and the empty text as 0), as
    JavaScript does, and takes any other text for NaN.  It agrees with
    JavaScript on the statements of the examples below, whose numbers are
    small integers. *)

Module IntRuntime.

Fixpoint digits (acc : Z) (s : string) : option Z :=
  match s with
  | EmptyString => Some acc
  | String c s' =>
      if Js.isDigit c
      then digits (10 * acc + Z.of_nat (Js.code c - 48)) s'
      else None
  end.

Definition unsigned (s : string) : option Z :=
  match s with
  | EmptyString => None
  | _ => digits 0 s
  end.

Definition readInteger (s : string) : option Z :=
  match Js.trim s with
  | EmptyString => Some 0%Z
  | String "-" s' => Z.opp <$> unsigned s'
  | String "+" s' => unsigned s'
  | s' => unsigned s'
  end.

(** [eval] of [a op b]; a quotient that is not an integer is outside
    this runtime and reads as NaN. *)
Fixpoint evalFrom (left : list ascii) (s : string) : option Z :=
  match s with
  | EmptyString => None
  | String c s' =>
      let a := readInteger (String.string_of_list_ascii (List.rev left)) in
      let b := readInteger s' in
      let bin (f : Z -> Z -> option Z) : option Z :=
        match a, b with Some x, Some y => f x y | _, _ => None end in
      if Ascii.eqb c "+" then bin (fun x y => Some (x + y)%Z)
      else if Ascii.eqb c "-" then bin (fun x y => Some (x - y)%Z)
      else if Ascii.eqb c "*" then bin (fun x y => Some (x * y)%Z)
      else if Ascii.eqb c "/"
      then bin (fun x y => if ((y =? 0) || negb (x mod y =? 0))%Z
                           then None else Some (x / y)%Z)
      else evalFrom (c :: left) s'
  end.

#[export] Instance runtime : JsRuntime := {|
  number := option Z;
  Number := readInteger;
  isNaN := fun n => match n with None => true | Some _ => false end;
  ofInt := Some;
  numberEq := fun a b =>
    match a, b with Some x, Some y => (x =? y)%Z | _, _ => false end;
  numberLt := fun a b =>
    match a, b with Some x, Some y => Some (x <? y)%Z | _, _ => None end;
  eval := evalFrom [];
  numberTruthy := fun n =>
    match n with Some x => negb (x =? 0)%Z | None => false end;
  numberToString := fun n =>
    match n with
    | Some x => DecimalString.NilZero.string_of_int (Z.to_int x)
    | None => "NaN"
    end;
  cannotRead := fun method =>
    "Cannot read properties of undefined (reading '" +:+ method +:+ "')";
  memberText := fun name =>
    if String.eqb name "__proto__" then "[object Object]"
    else "function " +:+ (if String.eqb name "constructor" then "Object" else name)
         +:+ "() { [native code] }"
|}.

Definition env : Env := {| nowISO := "2025-01-15T10:30:00.000Z"; elapsed := Some 0%Z |}.

End IntRuntime.

(** * The vocabulary of the statements *)

Section Vocabulary.
Context `{JsRuntime}.
Import Re.

(** Every character of the string satisfies the test. *)
Fixpoint allChars (p : ascii → bool) (s : string) : bool :=
  match s with
  | EmptyString => true
  | String c s' => p c && allChars p s'
  end.

(** The string is empty or starts with a character failing the test. *)
Definition stopsAt (p : ascii → bool) (s : string) : bool :=
  match s with
  | EmptyString => true
  | String c _ => negb (p c)
  end.

(** An identifier: one or more characters of [\w]. *)
Definition isIdentifier (s : string) : bool :=
  match s with
  | String c s' => Js.isWord c && allChars Js.isWord s'
  | EmptyString => false
  end.

(** The comparison operators a condition is written with. *)
Definition operators : list string := ["="; "!="; "<>"; "<"; ">"; "<="; ">="].

Definition isOperatorChar (c : ascii) : bool :=
  existsb (Ascii.eqb c) ["="; "!"; "<"; ">"]%char.

(** The operator [reCondition] captures from a condition written with
    [op]: its alternation tries [<] before [<=] and [>] before [>=]. *)
Definition capturedOperator (op : string) : string :=
  if String.eqb op "<=" then "<" else if String.eqb op ">=" then ">" else op.

(** What is left of the operator as written once the pattern has taken
    its capture: the [=] of [<=] and [>=]. *)
Definition afterOperator (op : string) : string :=
  if String.eqb op "<=" || String.eqb op ">=" then "=" else "".

(** [reCondition] is its first group and white space, then these two. *)
Definition conditionOperator : regex :=
  Group 2 (Alt (Str "=") (Alt (Str "!=") (Alt (Str "<>") (Alt (Str "<")
          (Alt (Str ">") (Alt (Str "<=") (Str ">="))))))).

Definition conditionTail : regex := Seq (Star true Space) (Group 3 (Plus Dot)).

(** The continuation of [matchHere]. *)
Definition final : @cont (nat * captures) := fun e _ c => Some (e, c).

(** The conditions the loop of [evaluateWhereClause] examines: the
    entries of even index of the split clause, trimmed. *)
Fixpoint examined (conditions : list (option string)) : list string :=
  match conditions with
  | [] => []
  | c :: rest =>
      Js.trim (default EmptyString c)
      :: match rest with [] => [] | _ :: rest' => examined rest' end
  end.

Definition conditionsOf (whereClause : string) : list string :=
  examined (split whereClause reAndOr).

(** A condition passes unless it has the shape and compares false. *)
Definition passes (row : gmap string value) (condition : string) : bool :=
  default true (evaluateCondition row condition).

(** The catalog keeps its tables under upper-cased names. *)
Definition upperKeys (cat : gmap string OracleTable) : Prop :=
  map_Forall (fun key _ => Js.toUpperCase key = key) cat.

(** The text is at its end or goes on with white space. *)
Definition endsOrSpace (s : string) : bool :=
  match s with
  | EmptyString => true
  | String c _ => Js.isSpace c
  end.

(** The text starts with the word AND or OR, in either letter case: the
    letters, and then the end of the text or white space. *)
Definition atKeyword (s : string) : bool :=
  match s with
  | String a (String b rest) =>
      Ascii.eqb "O" (Js.upperChar a) && Ascii.eqb "R" (Js.upperChar b)
      && endsOrSpace rest
      || match rest with
         | String c rest' =>
             Ascii.eqb "A" (Js.upperChar a) && Ascii.eqb "N" (Js.upperChar b)
             && Ascii.eqb "D" (Js.upperChar c) && endsOrSpace rest'
         | EmptyString => false
         end
  | _ => false
  end.

(** No white space of the text comes right before the word AND or OR,
    and the text does not end with white space. *)
Fixpoint quiet (s : string) : bool :=
  match s with
  | EmptyString => true
  | String c s' =>
      match s' with
      | EmptyString => negb (Js.isSpace c)
      | String _ _ => (negb (Js.isSpace c) || negb (atKeyword s')) && quiet s'
      end
  end.

(** A condition as it stands between two keywords: not empty, no white
    space at either end, and inside it no word AND or OR after white
    space; a name such as ORDERS or a value such as 'John Adams' is no
    such word. *)
Definition isAtom (s : string) : bool :=
  match s with
  | String c _ => negb (Js.isSpace c) && quiet s
  | EmptyString => false
  end.

Definition isKeyword (k : string) : bool :=
  String.eqb (Js.toUpperCase k) "AND" || String.eqb (Js.toUpperCase k) "OR".

Definition isBlank (s : string) : bool :=
  match s with
  | String _ _ => allChars Js.isSpace s
  | EmptyString => false
  end.

(** A keyword with the white space around it. *)
Record separator := {
  sep_before : string;
  sep_keyword : string;
  sep_after : string
}.

Definition isSeparator (sp : separator) : bool :=
  isBlank (sep_before sp) && isKeyword (sep_keyword sp) && isBlank (sep_after sp).

Definition separatorText (sp : separator) : string :=
  sep_before sp +:+ sep_keyword sp +:+ sep_after sp.

(** The clause made of a first condition and of further ones, each after
    its separator. *)
Fixpoint clause (first : string) (more : list (separator * string)) : string :=
  match more with
  | [] => first
  | (sp, a) :: more' => first +:+ separatorText sp +:+ clause a more'
  end.

(** What [split] makes of the clause. *)
Fixpoint pieces (first : string) (more : list (separator * string))
    : list (option string) :=
  match more with
  | [] => [Some first]
  | (sp, a) :: more' => Some first :: Some (sep_keyword sp) :: pieces a more'
  end.

(** [reAndOr] after its first character of white space. *)
Definition keywordThenSpace : regex :=
  Seq (Group 1 (Alt (Str "AND") (Str "OR"))) (Plus Space).

(** The conditions and their separators, each of the expected form. *)
Definition wellFormed (more : list (separator * string)) : Prop :=
  Forall (fun item => isSeparator item.1 = true ∧ isAtom item.2 = true) more.

(** The text has no comma. *)
Definition commaFree (def : string) : bool :=
  allChars (fun c => negb (Ascii.eqb c ",")) def.

(** The n-th white-space-delimited token of a column definition. *)
Definition token (n : nat) (def : string) : option string :=
  mjoin (split (Js.trim def) reSpaces !! n).

(** The row DESCRIBE shows for a column definition as the statement reads
    once prepared: the first token in upper case, "NOT NULL" when the
    definition contains it (letter case apart), the second token or the
    default type. *)
Definition describedDefinition (def : string) : gmap string value :=
  <["Type" := VString (match token 1 def with
                       | Some (String c t) => String c t
                       | _ => "VARCHAR2(255)"
                       end)]>
    (<["Null?" := VString (if Js.includes (Js.toUpperCase def) "NOT NULL"
                           then "NOT NULL" else "")]>
       (<["Name" := VString (Js.toUpperCase (default EmptyString (token 0 def)))]> ∅)).

(** The row DESCRIBE would show if it gave a declaration back as written. *)
Definition declaredRow (name dataType : string) (nullable : bool)
    : gmap string value :=
  <["Type" := VString dataType]>
    (<["Null?" := VString (if nullable then "" else "NOT NULL")]>
       (<["Name" := VString name]> ∅)).
(** The text, in upper case, and the prefix differ at a position both have. *)
Fixpoint mismatch (txt p : string) : bool :=
  match txt, p with
  | String x txt', String y p' =>
      negb (Ascii.eqb y (Js.upperChar x)) || mismatch txt' p'
  | _, _ => false
  end.

(** The text cannot start any suffix of the prefix. *)
Fixpoint clashes (txt p : string) : bool :=
  match p with
  | EmptyString => true
  | String _ p' => mismatch txt p && clashes txt p'
  end.

(** The pattern matches at none of the first positions of [s], as many as
    [p] has characters. *)
Fixpoint unmatched (re : RegExp) (p : string) (i : nat) (s : string) : Prop :=
  match p with
  | EmptyString => True
  | String _ p' =>
      matchHere re i s = None
      ∧ match s with
        | String _ s' => unmatched re p' (S i) s'
        | EmptyString => True
        end
  end.
End Vocabulary.

(** ** Sample data for the examples *)

Module Examples.
Import Re IntRuntime.

Definition sampleRow : gmap string value :=
  {[ "ID" := VNumber (Some 1%Z); "NAME" := VString "A" ]}.

Definition sampleTable : OracleTable :=
  {| tbl_name := "T";
     tbl_columns :=
       [ {| col_name := "ID"; col_dataType := "INT"; col_nullable := true;
            col_length := None |};
         {| col_name := "NAME"; col_dataType := "VARCHAR(50)";
            col_nullable := true; col_length := None |} ];
     tbl_data := [sampleRow; {[ "ID" := VNumber (Some 2%Z) ]}];
     tbl_indexes := []; tbl_constraints := [];
     tbl_created := "2025-01-15T10:30:00.000Z" |}.

Definition sampleCatalog : gmap string OracleTable := {[ "T" := sampleTable ]}.

Definition orSeparator : separator :=
  {| sep_before := " "; sep_keyword := "OR"; sep_after := " " |}.

End Examples.

(** * Further vocabulary *)

Section CatalogVocabulary.
Context `{JsRuntime}.
(** Every table sits under its own name, which is in upper case, and has
    no constraint. *)
Definition catalogOk (cat : gmap string OracleTable) : Prop :=
  map_Forall (fun key table =>
    Js.toUpperCase key = key ∧ tbl_name table = key ∧ tbl_constraints table = [])
    cat.

(** What a successful statement of each kind does to the catalog. *)
Definition effectOf (kind : StatementKind) (cat cat' : gmap string OracleTable)
    : Prop :=
  match kind with
  | KSelect | KDescribe | KDual | KInvalid => cat' = cat
  | KUpdate => False
  | KCreateTable =>
      ∃ key table,
        cat' = <[key := table]> cat
        ∧ cat !! key = None ∧ Js.toUpperCase key = key
        ∧ tbl_name table = key ∧ tbl_data table = []
        ∧ tbl_indexes table = [] ∧ tbl_constraints table = []
  | KDropTable =>
      ∃ key table, cat' = delete key cat ∧ cat !! key = Some table
  | KInsert =>
      ∃ key table row,
        cat' = <[key := withData table (tbl_data table ++ [row])]> cat
        ∧ cat !! key = Some table
  | KDelete =>
      ∃ key table rows,
        cat' = <[key := withData table rows]> cat
        ∧ cat !! key = Some table ∧ rows `sublist_of` tbl_data table
  | KCreateIndex =>
      ∃ key table index,
        cat' = <[key := withIndexes table (tbl_indexes table ++ [index])]> cat
        ∧ cat !! key = Some table
  end.

(** What an executor ends with is a failure with an ORA- code, an
    exception, a result set, or a message with a count. *)
Definition shaped (o : outcome) : Prop :=
  match o with
  | Thrown _ => True
  | Returned r =>
      executionTime r = None
      ∧ ((∃ e, r = failed e ∧ Js.startsWith e "ORA-" = true)
         ∨ (∃ rows cols n plan,
              r = {| success := true; data := Some rows; columns := Some cols;
                     rowCount := Some n; executionTime := None;
                     executionPlan := plan; message := None; error := None |}
              ∧ n = length rows)
         ∨ (∃ msg n, r = done_with msg n))
  end.

(** A WHERE clause as a statement carries it: it starts with a character
    that is not white space and holds no line terminator. *)
Definition isClause (w : string) : bool :=
  match w with
  | String c _ =>
      negb (Js.isSpace c)
      && allChars (fun c => negb (Js.isLineTerminator c)) w
  | EmptyString => false
  end.

(** The end of a statement with the clause, and without. *)
Definition wherePart (w : option string) : string :=
  match w with
  | Some w => " WHERE " +:+ w
  | None => ""
  end.

(** A list written without white space, as [*] or [ID,NAME]. *)
Definition isCompact (s : string) : bool :=
  match s with
  | String _ _ => allChars (fun c => negb (Js.isSpace c)) s
  | EmptyString => false
  end.

(** A text of one line. *)
Definition oneLine (s : string) : bool :=
  allChars (fun c => negb (Js.isLineTerminator c)) s.

(** The rows a clause selects, all of them without a clause; and the
    rows a DELETE with the clause leaves, none of them without. *)
Definition rowsWhere (w : option string) (rows : list (gmap string value))
    : list (gmap string value) :=
  match w with
  | Some w => filter (fun row => evaluateWhereClause row w = true) rows
  | None => rows
  end.

Definition rowsLeft (w : option string) (rows : list (gmap string value))
    : list (gmap string value) :=
  match w with
  | Some w => filter (fun row => evaluateWhereClause row w = false) rows
  | None => []
  end.

(** The capturing groups of a pattern. *)
Fixpoint groupsOf (r : Re.regex) : list nat :=
  match r with
  | Re.Seq r1 r2 | Re.Alt r1 r2 => groupsOf r1 ++ groupsOf r2
  | Re.Opt r1 => groupsOf r1
  | Re.Group n r1 => n :: groupsOf r1
  | _ => []
  end.

(** None of the words the dialect rewrite looks for occurs in the text,
    letter case apart. *)
Definition plain (s : string) : bool :=
  let upper := Js.toUpperCase s in
  negb (Js.includes upper "VARCHAR2") && negb (Js.includes upper "NUMBER")
  && negb (Js.includes upper "DATE") && negb (Js.includes upper "SYSTIMESTAMP")
  && negb (Js.includes upper "NVL(") && negb (Js.includes s "||").

(** The text as a pattern compares it: in upper case under the flag i. *)
Definition folded (ci : bool) (s : string) : string :=
  if ci then Js.toUpperCase s else s.

(** No occurrence of the word can start inside the text: each suffix of
    the text differs from the word at a position both have. *)
Fixpoint apart (txt word : string) : bool :=
  match txt with
  | EmptyString => true
  | String _ txt' => mismatch txt word && apart txt' word
  end.

(** The property holds of the text and of each of its suffixes. *)
Fixpoint heads (P : string → Prop) (s : string) : Prop :=
  P s ∧ match s with
        | String _ s' => heads P s'
        | EmptyString => True
        end.

(** The word without its first character. *)
Definition rest (word : string) : string :=
  match word with
  | String _ word' => word'
  | EmptyString => EmptyString
  end.

(** The first text stands somewhere in the second. *)
Definition within (e s : string) : Prop := ∃ a b, s = a +:+ e +:+ b.
End CatalogVocabulary.

(** * The session ([src/utils/sessionManager.ts])

    The state of the session manager and its commands.  A command takes
    the state and gives it back as the call leaves it, with the reply.
    What [saveSession] writes to the local storage is read again only
    when the manager is constructed, and is left out. *)

Module Session.
Section Model.
Context `{JsRuntime}.

(** [parseInt(text)] *)
Variable parseInt : string → number.

Record SessionState := {
  currentSchema : string;
  autoCommit : bool;
  dateFormat : string;
  numWidth : number;
  pageSize : number;
  transactionActive : bool;
  savepoints : list string;
  privileges : list string
}.

(** [loadSession] with nothing saved (lines 18-34). *)
Definition freshSession : SessionState :=
  {| currentSchema := "ORACLE_SIM"; autoCommit := true;
     dateFormat := "DD-MON-YY"; numWidth := ofInt 10; pageSize := ofInt 14;
     transactionActive := false; savepoints := [];
     privileges := ["CREATE TABLE"; "CREATE INDEX"; "SELECT"; "INSERT";
                    "UPDATE"; "DELETE"] |}.

Definition endTransaction (st : SessionState) : SessionState :=
  {| currentSchema := currentSchema st; autoCommit := autoCommit st;
     dateFormat := dateFormat st; numWidth := numWidth st;
     pageSize := pageSize st; transactionActive := false; savepoints := [];
     privileges := privileges st |}.

Definition pushSavepoint (st : SessionState) (name : string) : SessionState :=
  {| currentSchema := currentSchema st; autoCommit := autoCommit st;
     dateFormat := dateFormat st; numWidth := numWidth st;
     pageSize := pageSize st; transactionActive := true;
     savepoints := savepoints st ++ [name];
     privileges := privileges st |}.

Definition setAutoCommit (st : SessionState) (on : bool) : SessionState :=
  {| currentSchema := currentSchema st; autoCommit := on;
     dateFormat := dateFormat st; numWidth := numWidth st;
     pageSize := pageSize st; transactionActive := transactionActive st;
     savepoints := savepoints st; privileges := privileges st |}.

Definition setPageSize (st : SessionState) (size : number) : SessionState :=
  {| currentSchema := currentSchema st; autoCommit := autoCommit st;
     dateFormat := dateFormat st; numWidth := numWidth st;
     pageSize := size; transactionActive := transactionActive st;
     savepoints := savepoints st; privileges := privileges st |}.

(** [s.substring(n)] *)
Definition substringFrom (n : nat) (s : string) : string :=
  String.substring n (String.length s - n) s.

(** The character of code 34. *)
Definition doubleQuote : string := String (Ascii.ascii_of_nat 34) EmptyString.

(** [executeSessionCommand] (lines 49-97). *)
Definition executeSessionCommand (st : SessionState) (command : string)
    : SessionState * string :=
  let cmd := Js.toUpperCase (Js.trim command) in
  if String.eqb cmd "COMMIT" then (endTransaction st, "Commit complete.")
  else if String.eqb cmd "ROLLBACK" then (endTransaction st, "Rollback complete.")
  else if Js.startsWith cmd "SAVEPOINT " then
    let savepointName := substringFrom 10 cmd in
    (pushSavepoint st savepointName,
     "Savepoint " +:+ savepointName +:+ " created.")
  else if Js.startsWith cmd "SET AUTOCOMMIT " then
    let value_ := substringFrom 15 cmd in
    (setAutoCommit st (String.eqb value_ "ON"),
     "AUTOCOMMIT is " +:+ value_ +:+ ".")
  else if Js.startsWith cmd "SET PAGESIZE " then
    let size := parseInt (substringFrom 13 cmd) in
    (setPageSize st size, "PAGESIZE " +:+ numberToString size)
  else if String.eqb cmd "SHOW USER" then
    (st, "USER is " +:+ doubleQuote +:+ currentSchema st +:+ doubleQuote)
  else if String.eqb cmd "SHOW AUTOCOMMIT" then
    (st, "AUTOCOMMIT " +:+ (if autoCommit st then "ON" else "OFF"))
  else
    (st, "SP2-0042: unknown command " +:+ doubleQuote +:+ command
         +:+ doubleQuote +:+ " - rest of line ignored.").

(** The commands of a session, one after the other. *)
Definition runCommands (st : SessionState) (commands : list string)
    : SessionState :=
  foldl (fun st command => fst (executeSessionCommand st command)) st commands.

(** Savepoints are there only while a transaction is active, and each
    has a name, in upper case. *)
Definition settled (st : SessionState) : Prop :=
  (savepoints st ≠ [] → transactionActive st = true)
  ∧ Forall (fun name => name ≠ "" ∧ Js.toUpperCase name = name) (savepoints st).
End Model.
End Session.

(** ** More sample data for the examples *)

Module MoreExamples.
Import IntRuntime Examples.

(** The sample table with an index on its first column. *)
Definition indexedTable : OracleTable :=
  withIndexes sampleTable
    [{| idx_name := "IX"; idx_columns := ["ID"]; idx_unique := false;
        idx_type := BTREE |}].

(** The row [3, 'C'] of the sample table. *)
Definition thirdRow : gmap string value :=
  assignColumns ∅ ["ID"; "NAME"] (parseValues "3,'C'").

Definition grownTable : OracleTable :=
  withData sampleTable (tbl_data sampleTable ++ [thirdRow]).

(** Another time of day. *)
Definition laterEnv : Env :=
  {| nowISO := "2031-07-04T08:00:00.000Z"; elapsed := Some 0%Z |}.
End MoreExamples.

(** * The table of a result ([formatTableResult] of
      [src/components/SqlTerminal.tsx], lines 140-176)

    The text the terminal shows for a result set.  [widths[i]] of the
    source, the width computed for [columns[i]], is [columnWidth] of that
    column. *)

Module Terminal.
Section Model.
Context `{JsRuntime}.

(** [String(v)] *)
Definition toText (v : value) : string :=
  match v with
  | VUndefined => "undefined"
  | VString s => s
  | VNumber n => numberToString n
  | VMember name => memberText name
  end.

(** A value in a condition: false for [undefined], the empty string, 0
    and NaN; a function and the prototype are objects, which are true. *)
Definition valueTruthy (v : value) : bool :=
  match v with
  | VUndefined => false
  | VString s => truthy (Some s)
  | VNumber n => numberTruthy n
  | VMember _ => true
  end.

(** [String(row[col] || '')] *)
Definition measuredText (row : gmap string value) (col : string) : string :=
  if valueTruthy (rowGet row col) then toText (rowGet row col) else "".

(** [row[col] !== undefined ? String(row[col]) : ''] *)
Definition cellText (row : gmap string value) (col : string) : string :=
  match rowGet row col with
  | VUndefined => ""
  | v => toText v
  end.

(** [c.repeat(n)] for a text of one character. *)
Fixpoint repeatChar (c : ascii) (n : nat) : string :=
  match n with
  | O => EmptyString
  | S n' => String c (repeatChar c n')
  end.

(** [s.padEnd(width)] *)
Definition padEnd (s : string) (width : nat) : string :=
  s +:+ repeatChar " " (width - String.length s).

(** [Math.max(...xs)] of lengths; [None] is the -Infinity of no length
    at all. *)
Fixpoint mathMax (xs : list nat) : option nat :=
  match xs with
  | [] => None
  | x :: rest => Some (Nat.max x (default 0 (mathMax rest)))
  end.

(** [Math.max(col.length, maxDataWidth, 10)] *)
Definition columnWidth (data_ : list (gmap string value)) (col : string) : nat :=
  let maxDataWidth :=
    mathMax (map (fun row => String.length (measuredText row col)) data_) in
  Nat.max (String.length col) (Nat.max (default 0 maxDataWidth) 10).

Definition headerLine (data_ : list (gmap string value)) (columns_ : list string)
    : string :=
  Js.join " " (map (fun col => padEnd col (columnWidth data_ col)) columns_).

Definition separatorLine (data_ : list (gmap string value))
    (columns_ : list string) : string :=
  Js.join " " (map (fun col => repeatChar "-" (columnWidth data_ col)) columns_).

Definition dataLine (data_ : list (gmap string value)) (columns_ : list string)
    (row : gmap string value) : string :=
  Js.join " "
    (map (fun col => padEnd (cellText row col) (columnWidth data_ col)) columns_).

(** The line feed. *)
Definition newline : string := String (Ascii.ascii_of_nat 10) EmptyString.

Definition formatTableResult (result : QueryResult) : string :=
  match data result, columns result with
  | Some data_, Some columns_ =>
      let output :=
        newline +:+ headerLine data_ columns_ +:+ newline
        +:+ separatorLine data_ columns_ +:+ newline
        +:+ foldl (fun output row =>
                     output +:+ dataLine data_ columns_ row +:+ newline)
              EmptyString data_
        +:+ newline +:+ Js.ofNat (length data_) +:+ " row"
        +:+ (if length data_ =? 1 then "" else "s") +:+ " selected." +:+ newline
      in
      match executionTime result with
      | Some t => output +:+ newline +:+ "Elapsed: " +:+ numberToString t
                  +:+ " ms" +:+ newline
      | None => output
      end
  | _, _ => EmptyString
  end.
End Model.
End Terminal.

(** * Vocabulary for one comparison of a WHERE clause *)

(** The text without its single quotes. *)
Fixpoint withoutQuotes (s : string) : string :=
  match s with
  | EmptyString => EmptyString
  | String c s' =>
      if Ascii.eqb "'" c then withoutQuotes s' else String c (withoutQuotes s')
  end.

(** The text a comparison written [column op value] sets against the
    column: the value, behind the [=] that the pattern leaves of [<=] and
    [>=] and the white space after it. *)
Definition comparedText (op ws value_ : string) : string :=
  if String.eqb (afterOperator op) "" then value_
  else afterOperator op +:+ ws +:+ value_.

(** A value as a comparison carries it: not empty, starting with a
    character that is neither white space nor part of an operator. *)
Definition isValueText (v : string) : bool :=
  match v with
  | String c _ => negb (Js.isSpace c) && negb (isOperatorChar c)
  | EmptyString => false
  end.

(** * Properties *)

(** ** Reasoning about the matcher *)

Section MatcherLemmas.
Import Re.

Lemma append_cons (x : ascii) (a b : string) :
  String x a +:+ b = String x (a +:+ b).
Proof. reflexivity. Qed.

Lemma append_nil (b : string) : "" +:+ b = b.
Proof. reflexivity. Qed.

Lemma length_append (a b : string) :
  String.length (a +:+ b) = String.length a + String.length b.
Proof.
  induction a as [|c a IH]; [reflexivity|].
  rewrite append_cons. simpl. by rewrite IH.
Qed.

Lemma substring_whole (a : string) :
  String.substring 0 (String.length a) a = a.
Proof. induction a as [|c a IH]; simpl; [reflexivity|by rewrite IH]. Qed.

Lemma substring_prefix (a b : string) :
  String.substring 0 (String.length a) (a +:+ b) = a.
Proof.
  induction a as [|c a IH]; [by destruct b|].
  rewrite append_cons. simpl. by rewrite IH.
Qed.

Lemma append_assoc (a b c : string) : (a +:+ b) +:+ c = a +:+ (b +:+ c).
Proof.
  induction a as [|x a IH]; [reflexivity|].
  rewrite !append_cons. by rewrite IH.
Qed.

Lemma append_empty_r (a : string) : a +:+ "" = a.
Proof.
  induction a as [|x a IH]; [reflexivity|].
  rewrite append_cons. by rewrite IH.
Qed.

Section Star.
Context {R : Type} (ci : bool) (cl : cclass) (k : @cont R).

(** A greedy star at the start of a run of accepted characters that
    ends at [rest]: when the rest of the pattern succeeds right after
    the run, that is the match. *)
Lemma star_greedy_run pre : ∀ rest i c r,
  allChars (accepts ci cl) pre = true →
  stopsAt (accepts ci cl) rest = true →
  k (i + String.length pre) rest c = Some r →
  star ci true cl k i (pre +:+ rest) c = Some r.
Proof.
  induction pre as [|a pre IH]; intros rest i c r Hall Hstop Hk.
  - simpl in *. rewrite Nat.add_0_r in Hk.
    destruct rest as [|b rest]; simpl; [exact Hk|].
    simpl in Hstop. apply negb_true_iff in Hstop. by rewrite Hstop.
  - simpl in Hall. apply andb_true_iff in Hall as [Ha Hall].
    simpl. rewrite Ha.
    rewrite (IH rest (S i) c r Hall Hstop); [reflexivity|].
    simpl in Hk. by rewrite Nat.add_succ_r in Hk.
Qed.

(** A greedy star fails when the rest of the pattern fails after every
    prefix of accepted characters. *)
Lemma star_greedy_fail s : ∀ i c,
  (∀ pre rest, s = pre +:+ rest → allChars (accepts ci cl) pre = true →
               k (i + String.length pre) rest c = None) →
  star ci true cl k i s c = None.
Proof.
  induction s as [|a s IH]; intros i c Hk.
  - simpl. specialize (Hk "" "" eq_refl eq_refl). by rewrite Nat.add_0_r in Hk.
  - simpl.
    assert (k i (String a s) c = None) as Hhere.
    { specialize (Hk "" (String a s) eq_refl eq_refl).
      by rewrite Nat.add_0_r in Hk. }
    destruct (accepts ci cl a) eqn:Ha; [|exact Hhere].
    rewrite IH; [exact Hhere|].
    intros pre rest -> Hall.
    specialize (Hk (String a pre) rest eq_refl).
    simpl in Hk. rewrite Ha, Nat.add_succ_r in Hk. by apply Hk.
Qed.

(** What a star returns, the rest of the pattern returned after some
    prefix of accepted characters. *)
Lemma star_result g s : ∀ i c r,
  star ci g cl k i s c = Some r →
  ∃ pre rest, s = pre +:+ rest ∧ allChars (accepts ci cl) pre = true
              ∧ k (i + String.length pre) rest c = Some r.
Proof.
  assert (∀ s i c r, k i s c = Some r →
    ∃ pre rest, s = pre +:+ rest ∧ allChars (accepts ci cl) pre = true
                ∧ k (i + String.length pre) rest c = Some r) as Hhere.
  { intros s0 i c r Hk. exists "", s0. simpl. by rewrite Nat.add_0_r. }
  assert (∀ a s i c r,
    accepts ci cl a = true →
    (∃ pre rest, s = pre +:+ rest ∧ allChars (accepts ci cl) pre = true
                ∧ k (S i + String.length pre) rest c = Some r) →
    ∃ pre rest, String a s = pre +:+ rest ∧ allChars (accepts ci cl) pre = true
                ∧ k (i + String.length pre) rest c = Some r) as Hnext.
  { intros a s0 i c r Ha (pre & rest & -> & Hall & Hk).
    exists (String a pre), rest. simpl. rewrite Ha, Nat.add_succ_r. done. }
  induction s as [|a s IH]; intros i c r Hs.
  - destruct g; simpl in Hs.
    + by apply Hhere.
    + destruct (k i "" c) eqn:Hk; [|done]. injection Hs as <-. by apply Hhere.
  - destruct g; simpl in Hs.
    + destruct (accepts ci cl a) eqn:Ha; [|by apply Hhere].
      destruct (star ci true cl k (S i) s c) eqn:Hstar.
      * injection Hs as <-. apply Hnext; [done|]. by apply IH.
      * by apply Hhere.
    + destruct (k i (String a s) c) eqn:Hk.
      * injection Hs as <-. by apply Hhere.
      * destruct (accepts ci cl a) eqn:Ha; [|done].
        apply Hnext; [done|]. by apply IH.
Qed.

(** A star succeeds when the rest of the pattern always does. *)
Lemma star_total g s : ∀ i c,
  (∀ i' s' c', is_Some (k i' s' c')) → is_Some (star ci g cl k i s c).
Proof.
  induction s as [|a s IH]; intros i c Hk; destruct g; simpl.
  - apply Hk.
  - destruct (Hk i "" c) as [r ->]. by eexists.
  - destruct (accepts ci cl a); [|apply Hk].
    destruct (IH (S i) c Hk) as [r ->]. by eexists.
  - destruct (Hk i (String a s) c) as [r ->]. by eexists.
Qed.
End Star.

End MatcherLemmas.

Section ConditionShape.
Import Re.

Lemma substring_0_0 (s : string) : String.substring 0 0 s = "".
Proof. by destruct s. Qed.

Lemma search_here re s e c :
  matchHere re 0 s = Some (e, c) → search re 0 s = Some (0, e, c).
Proof. intros Hm. destruct s; simpl; by rewrite Hm. Qed.

Lemma space_not_dot_stop (y : ascii) :
  Js.isSpace y = false → Js.isLineTerminator y = false.
Proof.
  destruct y as [[] [] [] [] [] [] [] []]; vm_compute; congruence.
Qed.

Lemma conditionTail_matches ws y s' i c :
  allChars Js.isSpace ws = true →
  Js.isSpace y = false →
  ∃ e val,
    run false conditionTail final i (ws +:+ String y s') c
    = Some (e, <[3 := Some val]> c).
Proof.
  intros Hws Hy. unfold conditionTail. cbn [run Plus].
  set (k := fun (i' : nat) (s'0 : string) (c' : captures) => _).
  assert (∃ e val, k (i + String.length ws) (String y s') c
                   = Some (e, <[3 := Some val]> c)) as (e & val & Hk).
  { subst k. cbn beta. cbn [run accepts].
    rewrite (space_not_dot_stop y Hy). cbn [negb].
    match goal with |- ∃ e val, star ?ci ?g ?cl ?k' ?j ?s ?c0 = _ =>
      destruct (star_total ci cl k' g s j c0) as [r Hr];
        [intros; by eexists|];
      destruct (star_result ci cl k' g s j c0 r Hr) as (pre & rest & _ & _ & Hk');
      rewrite Hr
    end.
    cbn beta in Hk'. unfold final in Hk'. injection Hk' as <-. by eexists _, _. }
  exists e, val. apply star_greedy_run; [exact Hws| |exact Hk].
  simpl. by rewrite Hy.
Qed.

Ltac norm_append := rewrite ?append_cons, ?append_nil.
Tactic Notation "norm_append" "in" hyp(H) :=
  rewrite ?append_cons, ?append_nil in H.

(** Decide the comparisons of two known characters. *)
Ltac eval_eqb :=
  repeat match goal with
    | |- context [Ascii.eqb ?a ?b] =>
        lazymatch a with Ascii _ _ _ _ _ _ _ _ => idtac end;
        lazymatch b with Ascii _ _ _ _ _ _ _ _ => idtac end;
        let v := eval vm_compute in (Ascii.eqb a b) in
        change (Ascii.eqb a b) with v
    end.

Lemma operator_captured {R} (k : @cont R) op rest i c r :
  op ∈ operators →
  stopsAt (Ascii.eqb ">") rest = true →
  k (i + String.length (capturedOperator op)) (afterOperator op +:+ rest)
    (<[2 := Some (capturedOperator op)]> c) = Some r →
  run false conditionOperator k i (op +:+ rest) c = Some r.
Proof.
  intros Hop Hstop Hk. unfold operators in Hop.
  repeat (apply elem_of_cons in Hop as [-> | Hop]); [..|by apply elem_of_nil in Hop];
    cbn [capturedOperator afterOperator String.eqb Ascii.eqb Bool.eqb orb
         String.length] in Hk;
    norm_append; norm_append in Hk;
    unfold conditionOperator; cbn [run Str accepts]; eval_eqb; cbn [run].
  all: replace (S i - i) with 1 by lia; replace (S (S i) - i) with 2 by lia;
    replace (i + 1) with (S i) in Hk by lia;
    replace (i + 2) with (S (S i)) in Hk by lia;
    cbn [String.substring]; rewrite ?substring_0_0.
  all: try (destruct rest as [|y rest];
            [|cbn [stopsAt] in Hstop; apply negb_true_iff in Hstop;
              rewrite ?Hstop]).
  all: by rewrite ?Hk.
Qed.

(** The pattern of a condition, from the operator on. *)
Lemma operator_matches op ws2 v value' i c :
  op ∈ operators →
  allChars Js.isSpace ws2 = true →
  Js.isSpace v = false →
  isOperatorChar v = false →
  ∃ e val,
    run false (Seq conditionOperator conditionTail) final i
        (op +:+ ws2 +:+ String v value') c
    = Some (e, <[3 := Some val]> (<[2 := Some (capturedOperator op)]> c)).
Proof.
  intros Hop Hws Hv Hvop.
  assert (stopsAt (Ascii.eqb ">") (ws2 +:+ String v value') = true) as Hstop.
  { destruct ws2 as [|w ws2]; norm_append; cbn [stopsAt].
    - unfold isOperatorChar in Hvop. cbn [existsb] in Hvop.
      rewrite !orb_false_iff in Hvop. destruct Hvop as (_ & _ & _ & Hgt & _).
      by rewrite Ascii.eqb_sym, Hgt.
    - cbn [allChars] in Hws. apply andb_true_iff in Hws as [Hw _].
      destruct (Ascii.eqb_spec ">" w) as [<-|]; [|done]. by vm_compute in Hw. }
  cbn [run].
  assert (∃ e val,
    run false conditionTail final (i + String.length (capturedOperator op))
        (afterOperator op +:+ ws2 +:+ String v value')
        (<[2 := Some (capturedOperator op)]> c)
    = Some (e, <[3 := Some val]> (<[2 := Some (capturedOperator op)]> c)))
    as (e & val & Htail).
  { unfold afterOperator.
    destruct (String.eqb op "<=" || String.eqb op ">=").
    - norm_append. by apply (conditionTail_matches "" "=" _ _ _).
    - norm_append. by apply conditionTail_matches. }
  exists e, val. by apply operator_captured.
Qed.

Lemma operator_head op rest (p : ascii → bool) :
  op ∈ operators →
  p "="%char = false → p "!"%char = false →
  p "<"%char = false → p ">"%char = false →
  stopsAt p (op +:+ rest) = true.
Proof.
  intros Hop H1 H2 H3 H4. unfold operators in Hop.
  repeat (apply elem_of_cons in Hop as [-> | Hop]); [..|by apply elem_of_nil in Hop];
    norm_append; cbn [stopsAt]; by rewrite ?H1, ?H2, ?H3, ?H4.
Qed.

Lemma space_not_word (w : ascii) : Js.isSpace w = true → Js.isWord w = false.
Proof. destruct w as [[] [] [] [] [] [] [] []]; vm_compute; congruence. Qed.

(** A condition written [column op value], with any white space around
    the operator, has the shape of [reCondition]; the groups are the
    column, the operator as the alternation takes it, and a value. *)
Lemma condition_shape column ws1 op ws2 v value' :
  isIdentifier column = true →
  allChars Js.isSpace ws1 = true →
  allChars Js.isSpace ws2 = true →
  op ∈ operators →
  Js.isSpace v = false →
  isOperatorChar v = false →
  ∃ whole value_,
    match_ (column +:+ ws1 +:+ op +:+ ws2 +:+ String v value') reCondition
    = Some [Some whole; Some column; Some (capturedOperator op); Some value_].
Proof.
  intros Hid Hws1 Hws2 Hop Hv Hvop.
  destruct column as [|x col]; [done|].
  cbn [isIdentifier] in Hid. apply andb_true_iff in Hid as [Hx Hcol].
  set (s := String x col +:+ ws1 +:+ op +:+ ws2 +:+ String v value').
  set (c1 := <[1 := Some (String x col)]> (replicate 4 None : captures)).
  destruct (operator_matches op ws2 v value'
              (String.length (String x col) + String.length ws1) c1
              Hop Hws2 Hv Hvop) as (e & val & Hrest).
  assert (matchHere reCondition 0 s
          = Some (e, <[3 := Some val]> (<[2 := Some (capturedOperator op)]> c1)))
    as Hhere.
  { unfold matchHere.
    change (source reCondition) with
      (Seq (Group 1 (Plus Word))
           (Seq (Star true Space) (Seq conditionOperator conditionTail))).
    cbn [reCondition rx ignoreCase groups]. subst s. norm_append.
    cbn [run Plus accepts]. rewrite Hx.
    apply star_greedy_run; [exact Hcol| |].
    { destruct ws1 as [|w ws1]; norm_append.
      - by apply operator_head.
      - cbn [allChars] in Hws1. apply andb_true_iff in Hws1 as [Hw _].
        cbn [stopsAt accepts]. by rewrite (space_not_word w Hw). }
    replace (1 + String.length col - 0) with (String.length (String x col))
      by (simpl; lia).
    rewrite <- (append_cons x col), substring_prefix.
    apply star_greedy_run; [exact Hws1|by apply operator_head|].
    change (1 + String.length col) with (String.length (String x col)).
    exact Hrest. }
  apply search_here in Hhere. unfold match_. rewrite Hhere.
  eexists _, val. reflexivity.
Qed.
End ConditionShape.

(** ** How [split] cuts a WHERE clause *)

Section ClauseSplit.
Import Re.

Lemma space_not_keyword_letter (w : ascii) :
  Js.isSpace w = true →
  Ascii.eqb "A" (Js.upperChar w) = false ∧ Ascii.eqb "N" (Js.upperChar w) = false
  ∧ Ascii.eqb "D" (Js.upperChar w) = false ∧ Ascii.eqb "O" (Js.upperChar w) = false
  ∧ Ascii.eqb "R" (Js.upperChar w) = false.
Proof.
  destruct w as [[] [] [] [] [] [] [] []]; vm_compute; intros Hw;
    try discriminate Hw; by repeat split.
Qed.

(** Where the text does not go on with a keyword, and white space or
    nothing follows the text, the pattern finds no keyword: none inside
    the text, and none that the following white space would complete. *)
Lemma keywordThenSpace_fails {R} (k : @cont R) s tail i c :
  s ≠ "" →
  atKeyword s = false →
  endsOrSpace tail = true →
  run true keywordThenSpace k i (s +:+ tail) c = None.
Proof.
  intros Hne Hs Htail.
  unfold keywordThenSpace.
  destruct s as [|a [|b [|d [|e s]]]]; [done|..];
    rewrite ?append_cons, ?append_nil;
    cbn [run Str accepts];
    change (Js.upperChar "A") with "A"%char;
    change (Js.upperChar "N") with "N"%char;
    change (Js.upperChar "D") with "D"%char;
    change (Js.upperChar "O") with "O"%char;
    change (Js.upperChar "R") with "R"%char.
  all: cbn [atKeyword endsOrSpace] in Hs.
  all: destruct tail as [|w tail]; cbn [endsOrSpace] in Htail;
    [|destruct (space_not_keyword_letter w Htail) as (HA & HN & HD & HO & HR);
      rewrite ?HA, ?HN, ?HD, ?HO, ?HR; clear HA HN HD HO HR].
  all: repeat match goal with
         | |- context [Ascii.eqb ?x (Js.upperChar ?y)] =>
             let E := fresh "E" in
             destruct (Ascii.eqb x (Js.upperChar y)) eqn:E;
             try rewrite E in Hs
         end.
  all: cbn [andb orb] in Hs; try discriminate Hs; try reflexivity.
  all: cbn [run Plus accepts]; rewrite ?Htail in Hs; cbn [andb orb] in Hs;
    try discriminate Hs; rewrite ?Hs; try reflexivity.
  all: try (repeat match goal with
         | E : Ascii.eqb _ _ = true |- _ => apply Ascii.eqb_eq in E
         end; congruence).
  all: match goal with
       | |- (if Js.isSpace ?x then _ else _) = None =>
           destruct (Js.isSpace x); [discriminate Hs|reflexivity]
       end.
Qed.

Lemma quiet_tail c d s : quiet (String c (String d s)) = true → quiet (String d s) = true.
Proof. cbn [quiet]. by intros [_ ?]%andb_true_iff. Qed.

(** After white space, what is left of a quiet text is not at a
    keyword. *)
Lemma quiet_after_space c d s :
  quiet (String c (String d s)) = true → Js.isSpace c = true →
  atKeyword (String d s) = false.
Proof.
  intros Hq Hsp. apply andb_true_iff in Hq as [Hq _].
  rewrite Hsp in Hq. by apply negb_true_iff in Hq.
Qed.

Lemma star_quiet {R} (k : @cont R) a : ∀ rest i c d a',
  a = String d a' →
  atKeyword a = false →
  quiet a = true →
  endsOrSpace rest = true →
  star true true Space (fun i' s' c' => run true keywordThenSpace k i' s' c')
       i (a +:+ rest) c = None.
Proof.
  induction a as [|x a IH]; intros rest i c d a' Heq Hd Hq Hrest; [done|].
  injection Heq as -> ->.
  pose proof (keywordThenSpace_fails k (String d a') rest i c
                ltac:(done) Hd Hrest) as Hk.
  rewrite append_cons in Hk |- *. cbn [star accepts]. rewrite Hk.
  destruct (Js.isSpace d) eqn:Hsp; [|reflexivity].
  destruct a' as [|d2 a2]; [by cbn [quiet] in Hq; rewrite Hsp in Hq|].
  rewrite (IH rest (S i) c d2 a2 eq_refl); [reflexivity| | |exact Hrest].
  - by apply (quiet_after_space d).
  - by eapply quiet_tail.
Qed.

Lemma matchHere_quiet c a rest i :
  quiet (String c a) = true →
  endsOrSpace rest = true →
  matchHere reAndOr i (String c a +:+ rest) = None.
Proof.
  intros Hq Hrest. unfold matchHere.
  change (source reAndOr) with (Seq (Plus Space) keywordThenSpace).
  cbn [reAndOr rx ignoreCase groups]. rewrite append_cons.
  cbn [run Plus accepts].
  destruct (Js.isSpace c) eqn:Hsp; [|reflexivity].
  destruct a as [|d a']; [by cbn [quiet] in Hq; rewrite Hsp in Hq|].
  eapply star_quiet; [reflexivity| | |exact Hrest].
  - by apply (quiet_after_space c).
  - by eapply quiet_tail.
Qed.

(** Inside a condition no separator starts: the scan of [split] walks
    through it. *)
Lemma splitFrom_atom a : ∀ rest piece i,
  quiet a = true →
  endsOrSpace rest = true →
  splitFrom reAndOr piece 0 i (a +:+ rest)
  = splitFrom reAndOr (List.rev (String.list_ascii_of_string a) ++ piece) 0
      (i + String.length a) rest.
Proof.
  induction a as [|c a IH]; intros rest piece i Hq Hrest.
  - rewrite append_nil. cbn. by rewrite Nat.add_0_r.
  - pose proof (matchHere_quiet c a rest i Hq Hrest) as Hnone.
    rewrite append_cons in Hnone |- *. cbn [splitFrom]. rewrite Hnone.
    rewrite IH by first [exact Hrest|destruct a; [done|by eapply quiet_tail]].
    cbn [String.list_ascii_of_string List.rev String.length].
    rewrite <- app_assoc, Nat.add_succ_r. reflexivity.
Qed.

Lemma splitFrom_skip pre : ∀ rest piece i,
  splitFrom reAndOr piece (String.length pre) i (pre +:+ rest)
  = splitFrom reAndOr piece 0 (i + String.length pre) rest.
Proof.
  induction pre as [|c pre IH]; intros rest piece i.
  - rewrite append_nil. cbn [String.length]. by rewrite Nat.add_0_r.
  - rewrite append_cons. cbn [String.length splitFrom].
    rewrite IH. by rewrite Nat.add_succ_r.
Qed.

Lemma keyword_cases k :
  isKeyword k = true →
  (∃ a n d, k = String a (String n (String d ""))
            ∧ Js.upperChar a = "A"%char ∧ Js.upperChar n = "N"%char
            ∧ Js.upperChar d = "D"%char)
  ∨ (∃ o r, k = String o (String r "")
            ∧ Js.upperChar o = "O"%char ∧ Js.upperChar r = "R"%char).
Proof.
  unfold isKeyword. intros [Hk|Hk]%orb_true_iff; apply String.eqb_eq in Hk.
  - left. destruct k as [|a [|n [|d [|]]]]; try discriminate Hk.
    cbn [Js.toUpperCase] in Hk. injection Hk as ? ? ?. by eexists _, _, _.
  - right. destruct k as [|o [|r [|]]]; try discriminate Hk.
    cbn [Js.toUpperCase] in Hk. injection Hk as ? ?. by eexists _, _.
Qed.

Lemma upper_letter_not_space c l :
  Js.upperChar c = l → Js.isSpace l = false → Js.isSpace c = false.
Proof.
  intros <-. destruct c as [[] [] [] [] [] [] [] []]; vm_compute; congruence.
Qed.

(** At a separator followed by a condition the pattern matches: it takes
    the whole separator and captures the keyword. *)
Lemma matchHere_separator sp rest i :
  isSeparator sp = true →
  stopsAt Js.isSpace rest = true →
  matchHere reAndOr i (separatorText sp +:+ rest)
  = Some (i + String.length (separatorText sp), [None; Some (sep_keyword sp)]).
Proof.
  destruct sp as [before kw after]. unfold isSeparator, separatorText.
  cbn [sep_before sep_keyword sep_after].
  intros [[Hb Hk]%andb_true_iff Ha]%andb_true_iff Hrest.
  destruct before as [|b bs]; [done|]. destruct after as [|f fs]; [done|].
  cbn [isBlank allChars] in Hb, Ha.
  apply andb_true_iff in Hb as [Hb Hbs]. apply andb_true_iff in Ha as [Hf Hfs].
  unfold matchHere.
  change (source reAndOr) with (Seq (Plus Space) keywordThenSpace).
  cbn [reAndOr rx ignoreCase groups]. rewrite !append_assoc, append_cons.
  cbn [run Plus accepts]. rewrite Hb.
  assert (∀ j (c : captures),
    run true (Plus Space) final j (String f fs +:+ rest) c
    = Some (j + String.length (String f fs), c)) as Hafter.
  { intros j c. rewrite append_cons. cbn [run Plus accepts]. rewrite Hf.
    apply star_greedy_run; [exact Hfs|exact Hrest|].
    unfold final. cbn [String.length]. f_equal. f_equal. lia. }
  destruct (keyword_cases kw Hk) as [(a & n & d & -> & Ha' & Hn & Hd)
                                    |(o & r & -> & Ho & Hr)].
  - apply star_greedy_run; [exact Hbs| |].
    { rewrite !append_cons. cbn [stopsAt accepts].
      by rewrite (upper_letter_not_space a "A" Ha'). }
    unfold keywordThenSpace. cbn [run Str accepts]. rewrite !append_cons.
    change (Js.upperChar "A") with "A"%char.
    change (Js.upperChar "N") with "N"%char.
    change (Js.upperChar "D") with "D"%char.
    rewrite Ha', Hn, Hd. cbn [Ascii.eqb Bool.eqb]. rewrite append_nil.
    fold (Plus Space). rewrite Hafter. f_equal. f_equal.
    + cbn [String.length]. rewrite !length_append, ?append_nil.
      cbn [String.length]. lia.
    + replace (S (S (S (S i + String.length bs))) - (S i + String.length bs))
        with 3 by lia.
      cbn [String.substring]. by rewrite ?substring_0_0.
  - apply star_greedy_run; [exact Hbs| |].
    { rewrite !append_cons. cbn [stopsAt accepts].
      by rewrite (upper_letter_not_space o "O" Ho). }
    unfold keywordThenSpace. cbn [run Str accepts]. rewrite !append_cons.
    change (Js.upperChar "A") with "A"%char.
    change (Js.upperChar "O") with "O"%char.
    change (Js.upperChar "R") with "R"%char.
    rewrite Ho, Hr. cbn [Ascii.eqb Bool.eqb]. rewrite append_nil.
    fold (Plus Space). rewrite Hafter. f_equal. f_equal.
    + cbn [String.length]. rewrite !length_append, ?append_nil.
      cbn [String.length]. lia.
    + replace (S (S (S i + String.length bs)) - (S i + String.length bs))
        with 2 by lia.
      cbn [String.substring]. by rewrite ?substring_0_0.
Qed.

Lemma splitFrom_separator sp rest piece j :
  isSeparator sp = true →
  stopsAt Js.isSpace rest = true →
  splitFrom reAndOr piece 0 j (separatorText sp +:+ rest)
  = Some (String.string_of_list_ascii (List.rev piece))
    :: Some (sep_keyword sp)
    :: splitFrom reAndOr [] 0 (j + String.length (separatorText sp)) rest.
Proof.
  intros Hsp Hrest.
  pose proof (matchHere_separator sp rest j Hsp Hrest) as Hm.
  destruct (separatorText sp) as [|b t] eqn:Ht.
  { destruct sp as [[|] ? ?]; [done|]. discriminate Ht. }
  rewrite append_cons in Hm |- *. cbn [splitFrom]. rewrite Hm.
  cbn [String.length].
  replace (j + S (String.length t) =? j) with false
    by (symmetry; apply Nat.eqb_neq; lia).
  cbn [andb tail app].
  replace (j + S (String.length t) - j - 1) with (String.length t) by lia.
  rewrite splitFrom_skip. do 3 f_equal. lia.
Qed.

Lemma isAtom_quiet a : isAtom a = true → quiet a = true.
Proof. destruct a; [done|]. cbn [isAtom]. by intros [_ ?]%andb_true_iff. Qed.

Lemma isAtom_head a rest : isAtom a = true → stopsAt Js.isSpace (a +:+ rest) = true.
Proof.
  destruct a; [done|]. cbn [isAtom]. intros [? _]%andb_true_iff.
  by rewrite append_cons.
Qed.

Lemma clause_head first more :
  isAtom first = true → stopsAt Js.isSpace (clause first more) = true.
Proof.
  intros Hf. destruct more as [|[sp a] more]; cbn [clause].
  - rewrite <- (append_empty_r first). by apply isAtom_head.
  - by apply isAtom_head.
Qed.

Lemma separator_starts sp rest :
  isSeparator sp = true → endsOrSpace (separatorText sp +:+ rest) = true.
Proof.
  destruct sp as [[|b bs] kw after]; unfold isSeparator, separatorText;
    cbn [sep_before sep_keyword sep_after isBlank]; [done|].
  intros [[Hb _]%andb_true_iff _]%andb_true_iff.
  cbn [allChars] in Hb. apply andb_true_iff in Hb as [Hb _].
  by rewrite !append_cons.
Qed.

Lemma splitFrom_clause more : ∀ first i,
  isAtom first = true → wellFormed more →
  splitFrom reAndOr [] 0 i (clause first more) = pieces first more.
Proof.
  induction more as [|[sp a] more IH]; intros first i Hf Hm.
  - cbn [clause pieces]. rewrite <- (append_empty_r first) at 1.
    rewrite splitFrom_atom by first [by apply isAtom_quiet|reflexivity].
    cbn [splitFrom]. rewrite app_nil_r, rev_involutive.
    by rewrite String.string_of_list_ascii_of_string.
  - apply Forall_cons in Hm as [[Hsp Ha] Hm]. cbn [fst snd] in Hsp, Ha.
    cbn [clause pieces].
    rewrite splitFrom_atom by first [by apply isAtom_quiet|by apply separator_starts].
    rewrite splitFrom_separator; [|exact Hsp|by apply clause_head].
    rewrite app_nil_r, rev_involutive, String.string_of_list_ascii_of_string.
    by rewrite IH.
Qed.

Lemma split_clause first more :
  isAtom first = true → wellFormed more →
  split (clause first more) reAndOr = pieces first more.
Proof.
  intros Hf Hm. unfold split.
  destruct (clause first more) eqn:Hc.
  - destruct first; [done|]. destruct more as [|[] ?]; discriminate Hc.
  - rewrite <- Hc. by apply splitFrom_clause.
Qed.
End ClauseSplit.

(** ** The dialect rewrite and the keyword UPDATE *)

Section RewriteOfUpdate.
Import Re.

Lemma mismatch_startsWith txt : ∀ rest p,
  mismatch txt p = true →
  Js.startsWith (Js.toUpperCase (txt +:+ rest)) p = false.
Proof.
  induction txt as [|x txt IH]; intros rest p Hmis; [done|].
  destruct p as [|y p]; [done|].
  rewrite append_cons. cbn [Js.toUpperCase Js.startsWith mismatch] in Hmis |- *.
  destruct (Ascii.eqb y (Js.upperChar x)); [|reflexivity].
  cbn [negb orb andb] in Hmis |- *. by apply IH.
Qed.

(** A replacement whose text the prefix cannot hold leaves a result that
    starts with the prefix only when the input does, the pattern matching
    nowhere in it. *)
Lemma replaceFrom_prefix re txt p : ∀ s i,
  clashes txt p = true →
  Js.startsWith (Js.toUpperCase (replaceFrom re [TText txt] false 0 i s)) p = true →
  Js.startsWith (Js.toUpperCase s) p = true ∧ unmatched re p i s.
Proof.
  induction p as [|y p IH]; intros s i Hc Hstart.
  - split; [by destruct s|exact I].
  - cbn [clashes] in Hc. apply andb_true_iff in Hc as [Hmis Hc].
    assert (∀ caps rest,
      Js.startsWith (Js.toUpperCase (expand [TText txt] caps +:+ rest))
        (String y p) = false) as Hexp.
    { intros caps rest. cbn [expand]. rewrite append_empty_r.
      by apply mismatch_startsWith. }
    destruct s as [|c s]; cbn [replaceFrom] in Hstart.
    + destruct (matchHere re i "") as [[e caps]|]; [|done].
      by rewrite Hexp in Hstart.
    + destruct (matchHere re i (String c s)) as [[e caps]|] eqn:Hm.
      * by rewrite Hexp in Hstart.
      * cbn [Js.toUpperCase Js.startsWith] in Hstart |- *.
        apply andb_true_iff in Hstart as [Hc0 Hstart].
        destruct (IH s (S i) Hc Hstart) as [Hs Hun].
        split; [by rewrite Hc0, Hs|]. cbn [unmatched]. by split.
Qed.

Lemma replace_prefix re txt p s :
  clashes txt p = true →
  Js.startsWith (Js.toUpperCase (replace s re [TText txt])) p = true →
  Js.startsWith (Js.toUpperCase s) p = true ∧ unmatched re p 0 s.
Proof. apply replaceFrom_prefix. Qed.

(** No statement reaches the dispatcher starting with UPDATE: the rewrite
    of DATE has turned it into UPTIMESTAMP. *)
Lemma normalizeOracleSQL_not_update sql :
  Js.startsWith (Js.toUpperCase (normalizeOracleSQL sql)) "UPDATE" = false.
Proof.
  destruct (Js.startsWith _ _) eqn:Hstart; [exfalso|reflexivity].
  unfold normalizeOracleSQL in Hstart. cbv zeta in Hstart.
  apply replace_prefix in Hstart; [|reflexivity]. destruct Hstart as [Hstart _].
  apply replace_prefix in Hstart; [|reflexivity]. destruct Hstart as [Hstart _].
  apply replace_prefix in Hstart; [|reflexivity]. destruct Hstart as [Hstart _].
  apply replace_prefix in Hstart; [|reflexivity]. destruct Hstart as [Hstart _].
  apply replace_prefix in Hstart; [|reflexivity]. destruct Hstart as [Hstart Hun].
  match type of Hun with unmatched _ _ _ ?s => generalize dependent s end.
  intros [|c0 [|c1 [|c2 [|c3 [|c4 [|c5 rest]]]]]] Hstart Hun;
    cbn [Js.toUpperCase Js.startsWith] in Hstart;
    repeat (apply andb_true_iff in Hstart as [? Hstart]);
    try discriminate Hstart.
  cbn [unmatched] in Hun. destruct Hun as (_ & _ & Hdate & _).
  unfold matchHere in Hdate.
  cbn [reDate rx source ignoreCase groups Str run accepts] in Hdate.
  change (Js.upperChar "D") with "D"%char in Hdate.
  change (Js.upperChar "A") with "A"%char in Hdate.
  change (Js.upperChar "T") with "T"%char in Hdate.
  change (Js.upperChar "E") with "E"%char in Hdate.
  repeat match goal with
    | Heq : Ascii.eqb _ _ = true |- _ => rewrite Heq in Hdate; clear Heq
    end.
  discriminate Hdate.
Qed.

Lemma classify_not_update sql : classify (prepare sql) ≠ KUpdate.
Proof.
  unfold classify, prepare.
  rewrite (normalizeOracleSQL_not_update _).
  repeat match goal with
    | |- context [if ?b then _ else _] => destruct b
    end; discriminate.
Qed.
End RewriteOfUpdate.

Section Properties.
Context `{JsRuntime}.
Import Re.

(** ** The entry point and the dispatcher *)

Lemma parseSQL_catalog env (cat : gmap string OracleTable) sql :
  fst (parseSQL env cat sql) = fst (dispatch env cat (prepare sql)).
Proof.
  unfold parseSQL. destruct (dispatch env cat (prepare sql)) as [cat' []]; reflexivity.
Qed.

Lemma parseSQL_returned env (cat cat' : gmap string OracleTable) sql r :
  dispatch env cat (prepare sql) = (cat', Returned r) →
  parseSQL env cat sql = (cat', withExecutionTime r (elapsed env)).
Proof. unfold parseSQL. intros ->. reflexivity. Qed.

(** ** The execution plan *)

(** C8: the plan of [generateExecutionPlan] is a single node made of the
    upper-cased label followed by " STATEMENT", the upper-cased table
    name, cost max(1, floor(n/100)), cardinality n, bytes n * 100 and the
    fixed time "00:00:01"; its three numbers are the same whatever the
    label and the table name. *)
Theorem generateExecutionPlan_formula (label tableName : string) (n : Z) :
  (0 ≤ n)%Z →
  let plan := generateExecutionPlan label tableName n in
  operation plan = Js.toUpperCase label +:+ " STATEMENT"
  ∧ object plan = Js.toUpperCase tableName
  ∧ (∃ q : Z, (100 * q ≤ n < 100 * q + 100)%Z ∧ cost plan = Z.max 1 q)
  ∧ cardinality plan = n
  ∧ bytes plan = (n * 100)%Z
  ∧ time plan = "00:00:01"
  ∧ ∀ label' tableName',
      let plan' := generateExecutionPlan label' tableName' n in
      (cost plan', cardinality plan', bytes plan')
      = (cost plan, cardinality plan, bytes plan).
Proof.
  intros Hn plan. repeat split; try reflexivity.
  exists (n / 100)%Z. split; [|reflexivity].
  pose proof (Z.div_mod n 100 ltac:(lia)).
  pose proof (Z.mod_pos_bound n 100 ltac:(lia)). lia.
Qed.

(** ** CREATE TABLE on a name already taken *)

(** C4: a CREATE TABLE statement whose table name equals, letter case
    apart, the name of a table of the catalog fails with ORA-00955 and
    leaves the catalog as it was, tables and their contents included. *)
Theorem executeCreateTable_duplicate env (cat : gmap string OracleTable)
    sql whole tableName columnDefs key :
  upperKeys cat →
  is_Some (cat !! key) →
  Js.toUpperCase key = Js.toUpperCase tableName →
  match_ sql reCreateTable = Some [whole; Some tableName; Some columnDefs] →
  ∃ err,
    executeCreateTable env cat sql = (cat, Returned (failed err))
    ∧ err = "ORA-00955: name is already used by an existing object: " +:+ tableName
    ∧ success (failed err) = false
    ∧ Js.startsWith err "ORA-00955" = true.
Proof.
  intros Hup [t Ht] Hkey Hm.
  assert (cat !! Js.toUpperCase tableName = Some t) as Hin.
  { rewrite <- Hkey. rewrite (Hup key t Ht). exact Ht. }
  eexists. split; [|split; [reflexivity|split; reflexivity]].
  unfold executeCreateTable. rewrite Hm, Hin. reflexivity.
Qed.

(** The same through [parseSQL]. *)
Lemma parseSQL_duplicate env (cat : gmap string OracleTable)
    sql whole tableName columnDefs key :
  upperKeys cat →
  is_Some (cat !! key) →
  Js.toUpperCase key = Js.toUpperCase tableName →
  classify (prepare sql) = KCreateTable →
  match_ (prepare sql) reCreateTable = Some [whole; Some tableName; Some columnDefs] →
  parseSQL env cat sql =
    (cat, withExecutionTime
            (failed ("ORA-00955: name is already used by an existing object: "
                     +:+ tableName)) (elapsed env)).
Proof.
  intros Hup [t Ht] Hkey Hk Hm.
  apply parseSQL_returned. unfold dispatch. rewrite Hk.
  unfold executeCreateTable. rewrite Hm.
  rewrite <- Hkey, (Hup key t Ht), Ht. reflexivity.
Qed.

(** ** SELECT and DESCRIBE only read *)

Lemma executeSelect_catalog (cat : gmap string OracleTable) sql :
  fst (executeSelect cat sql) = cat.
Proof.
  unfold executeSelect.
  destruct (match_ sql reSelect) as [m|]; [|reflexivity].
  destruct m as [|? [|[columns_|] [|[tableName|] [|whereClause [|]]]]]; try reflexivity.
  destruct (cat !! Js.toUpperCase tableName); [|reflexivity].
  destruct (String.eqb (Js.trim columns_) "*"); reflexivity.
Qed.

Lemma executeDescribe_catalog (cat : gmap string OracleTable) sql :
  fst (executeDescribe cat sql) = cat.
Proof.
  unfold executeDescribe.
  destruct (match_ sql reDescribe) as [m|]; [|reflexivity].
  destruct m as [|? [|[name|] [|]]]; try reflexivity.
  destruct (cat !! Js.toUpperCase name); reflexivity.
Qed.

(** C9: the SELECT and the DESCRIBE executors give the catalog back as
    they received it, whatever the statement and whether it succeeds or
    fails; so does [parseSQL] on every statement it dispatches to one of
    them. *)
Theorem select_describe_frame env (cat : gmap string OracleTable) sql :
  fst (executeSelect cat sql) = cat
  ∧ fst (executeDescribe cat sql) = cat
  ∧ (classify (prepare sql) = KSelect ∨ classify (prepare sql) = KDescribe →
     fst (parseSQL env cat sql) = cat).
Proof.
  split; [apply executeSelect_catalog|split; [apply executeDescribe_catalog|]].
  intros Hk. rewrite parseSQL_catalog. unfold dispatch.
  destruct Hk as [-> | ->];
    [apply executeSelect_catalog | apply executeDescribe_catalog].
Qed.

(** ** The catalog keeps upper-cased names *)

Lemma upperChar_idem c : Js.upperChar (Js.upperChar c) = Js.upperChar c.
Proof. destruct c as [[] [] [] [] [] [] [] []]; reflexivity. Qed.

Lemma toUpperCase_idem s : Js.toUpperCase (Js.toUpperCase s) = Js.toUpperCase s.
Proof.
  induction s as [|c s IH]; [reflexivity|].
  cbn [Js.toUpperCase]. by rewrite upperChar_idem, IH.
Qed.

Lemma upperKeys_insert (cat : gmap string OracleTable) name table :
  upperKeys cat → upperKeys (<[Js.toUpperCase name := table]> cat).
Proof.
  intros Hup. apply map_Forall_insert_2; [apply toUpperCase_idem|exact Hup].
Qed.

(** Every statement leaves the tables of the catalog under upper-cased
    names. *)
Lemma parseSQL_upperKeys env (cat : gmap string OracleTable) sql :
  upperKeys cat → upperKeys (fst (parseSQL env cat sql)).
Proof.
  intros Hup. rewrite parseSQL_catalog. unfold dispatch.
  destruct (classify (prepare sql));
    [by rewrite executeSelect_catalog
    |unfold executeCreateTable|unfold executeInsert|unfold executeUpdate
    |unfold executeDelete|unfold executeDropTable|unfold executeCreateIndex
    |by rewrite executeDescribe_catalog|unfold executeDualQuery|exact Hup];
    repeat case_match; cbn [fst]; try exact Hup;
    try (by apply upperKeys_insert); by apply map_Forall_delete.
Qed.

(** ** INSERT assigns by position *)

Lemma rowSet_other (row : gmap string value) key v key' :
  key' ≠ key → rowSet row key v !! key' = row !! key'.
Proof.
  intros Hne. unfold rowSet. destruct (String.eqb key "__proto__"); [done|].
  by apply lookup_insert_ne.
Qed.

Lemma rowSet_eq (row : gmap string value) key v :
  key ≠ "__proto__" → rowSet row key v !! key = Some v.
Proof.
  intros Hne. unfold rowSet.
  destruct (String.eqb_spec key "__proto__"); [done|]. apply lookup_insert_eq.
Qed.

(** No assignment stores a property called [__proto__]. *)
Lemma rowSet_proto (row : gmap string value) key v :
  rowSet row key v !! "__proto__" = row !! "__proto__".
Proof.
  unfold rowSet. destruct (String.eqb_spec key "__proto__") as [->|Hne]; [done|].
  by apply lookup_insert_ne.
Qed.

Lemma assignColumns_other cols : ∀ (newRow : gmap string value) values key,
  key ∉ cols → assignColumns newRow cols values !! key = newRow !! key.
Proof.
  induction cols as [|c cols IH]; intros newRow values key Hnot; [reflexivity|].
  simpl. rewrite IH by set_solver. apply rowSet_other. set_solver.
Qed.

Lemma assignColumns_proto cols : ∀ (newRow : gmap string value) values,
  assignColumns newRow cols values !! "__proto__" = newRow !! "__proto__".
Proof.
  induction cols as [|c cols IH]; intros newRow values; [reflexivity|].
  simpl. by rewrite IH, rowSet_proto.
Qed.

Lemma assignColumns_at cols : ∀ (newRow : gmap string value) values i key,
  cols !! i = Some key → key ∉ drop (S i) cols → key ≠ "__proto__" →
  assignColumns newRow cols values !! key = Some (default VUndefined (values !! i)).
Proof.
  induction cols as [|c cols IH]; intros newRow values i key Hi Hlast Hkey; [done|].
  destruct i as [|i]; simpl in *.
  - injection Hi as ->. rewrite drop_0 in Hlast.
    rewrite assignColumns_other by exact Hlast.
    rewrite rowSet_eq by exact Hkey. by destruct values.
  - rewrite (IH _ _ i key Hi Hlast Hkey). by destruct values.
Qed.

Lemma assignColumns_entry cols : ∀ (newRow : gmap string value) values key v,
  assignColumns newRow cols values !! key = Some v →
  newRow !! key = Some v
  ∨ ∃ i, cols !! i = Some key ∧ v = default VUndefined (values !! i).
Proof.
  induction cols as [|c cols IH]; intros newRow values key v Hv; [by left|].
  simpl in Hv. apply IH in Hv as [Hv | (i & Hi & ->)].
  - destruct (decide (c = key)) as [-> | Hne].
    + destruct (decide (key = "__proto__")) as [-> | Hkey].
      * rewrite rowSet_proto in Hv. by left.
      * rewrite rowSet_eq in Hv by exact Hkey. injection Hv as <-.
        right. exists 0. split; [reflexivity|]. by destruct values.
    + rewrite rowSet_other in Hv by done. by left.
  - right. exists (S i). split; [exact Hi|]. by destruct values.
Qed.

(** C6, as the code has it: an INSERT statement on an existing table
    appends one row and reports "1 row created." with row count 1.  The
    row is filled by position: a listed column other than [__proto__]
    (at its last occurrence in the list) holds the value of the same
    position, and holds and reads [undefined] when the values run out
    before it; every property of the row pairs a listed column with the
    value at its position, so values beyond the last column are stored
    nowhere.  Under [__proto__] nothing is stored, whatever is listed
    for it: the row reads its prototype there.  No exception is raised:
    the call returns. *)
Theorem executeInsert_positional (cat : gmap string OracleTable)
    sql whole tableName columnList valueList table :
  match_ sql reInsert = Some [whole; Some tableName; columnList; Some valueList] →
  cat !! Js.toUpperCase tableName = Some table →
  let values := parseValues valueList in
  let columns_ :=
    if truthy columnList
    then map Js.trim (Js.splitOn "," (default EmptyString columnList))
    else map col_name (tbl_columns table) in
  ∃ newRow : gmap string value,
    executeInsert cat sql =
      (<[Js.toUpperCase tableName := withData table (tbl_data table ++ [newRow])]> cat,
       Returned (done_with "1 row created." 1))
    ∧ (∀ i col, columns_ !! i = Some col → col ∉ drop (S i) columns_ →
         col ≠ "__proto__" →
         newRow !! col = Some (default VUndefined (values !! i))
         ∧ rowGet newRow col = default VUndefined (values !! i))
    ∧ (∀ i col, columns_ !! i = Some col → col ∉ drop (S i) columns_ →
         col ≠ "__proto__" →
         length values ≤ i → rowGet newRow col = VUndefined)
    ∧ (∀ key v, newRow !! key = Some v →
         key ≠ "__proto__"
         ∧ ∃ i, columns_ !! i = Some key ∧ v = default VUndefined (values !! i))
    ∧ newRow !! "__proto__" = None
    ∧ rowGet newRow "__proto__" = VMember "__proto__".
Proof.
  intros Hm Ht values columns_.
  exists (assignColumns ∅ columns_ values).
  assert (assignColumns ∅ columns_ values !! "__proto__" = None) as Hproto
    by by rewrite assignColumns_proto.
  split; [|split; [|split; [|split; [|split]]]].
  - unfold executeInsert. rewrite Hm, Ht. reflexivity.
  - intros i col Hi Hlast Hcol. unfold rowGet.
    by rewrite (assignColumns_at _ _ _ _ _ Hi Hlast Hcol).
  - intros i col Hi Hlast Hcol Hlen. unfold rowGet.
    rewrite (assignColumns_at _ _ _ _ _ Hi Hlast Hcol).
    by rewrite (lookup_ge_None_2 values i Hlen).
  - intros key v Hv. split; [by intros ->; rewrite Hproto in Hv|].
    apply assignColumns_entry in Hv as [Hv|Hv]; [|exact Hv].
    by rewrite lookup_empty in Hv.
  - exact Hproto.
  - unfold rowGet. by rewrite Hproto.
Qed.

(** ** The WHERE clause *)

Lemma whereLoop_examined (row : gmap string value) conditions :
  whereLoop row conditions = forallb (passes row) (examined conditions).
Proof.
  enough (whereLoop row conditions = forallb (passes row) (examined conditions)
          ∧ ∀ c, whereLoop row (c :: conditions)
                 = forallb (passes row) (examined (c :: conditions))) as [? _]
    by assumption.
  induction conditions as [|d conditions [IH1 IH2]].
  - split; [reflexivity|]. intros c. simpl. unfold passes.
    by destruct (evaluateCondition row _) as [[]|].
  - split; [apply IH2|]. intros c.
    change (whereLoop row (c :: d :: conditions))
      with (match evaluateCondition row (Js.trim (default EmptyString c)) with
            | Some false => false
            | _ => whereLoop row conditions
            end).
    change (examined (c :: d :: conditions))
      with (Js.trim (default EmptyString c) :: examined conditions).
    simpl. rewrite <- IH1. unfold passes.
    by destruct (evaluateCondition row _) as [[]|].
Qed.

Lemma evaluateWhereClause_forallb (row : gmap string value) whereClause :
  evaluateWhereClause row whereClause
  = forallb (passes row) (conditionsOf whereClause).
Proof. apply whereLoop_examined. Qed.

(** A clause whose pieces agree evaluates alike: the keywords between
    them are not looked at. *)
Lemma evaluateWhereClause_same_conditions (row : gmap string value) w1 w2 :
  conditionsOf w1 = conditionsOf w2 →
  evaluateWhereClause row w1 = evaluateWhereClause row w2.
Proof. intros Heq. by rewrite !evaluateWhereClause_forallb, Heq. Qed.

Lemma quiet_last a :
  quiet a = true → a ≠ "" →
  ∃ l c, String.list_ascii_of_string a = l ++ [c] ∧ Js.isSpace c = false.
Proof.
  induction a as [|x a IH]; intros Hq Hne; [done|].
  destruct a as [|y a].
  - exists [], x. split; [reflexivity|].
    cbn [quiet] in Hq. by apply negb_true_iff in Hq.
  - destruct IH as (l & c & Hl & Hc); [by eapply quiet_tail|done|].
    exists (x :: l), c. split; [|exact Hc].
    change (String.list_ascii_of_string (String x (String y a)))
      with (x :: String.list_ascii_of_string (String y a)).
    by rewrite Hl.
Qed.

Lemma trim_atom a : isAtom a = true → Js.trim a = a.
Proof.
  intros Ha. pose proof (isAtom_quiet a Ha) as Hq.
  destruct a as [|x a]; [done|].
  cbn [isAtom] in Ha. apply andb_true_iff in Ha as [Hx _].
  apply negb_true_iff in Hx.
  unfold Js.trim. cbn [Js.trimStart]. rewrite Hx.
  destruct (quiet_last _ Hq) as (l & c & Hl & Hc); [done|].
  unfold Js.trimEnd, Js.rev. rewrite Hl, rev_app_distr.
  cbn [List.rev app String.string_of_list_ascii Js.trimStart]. rewrite Hc.
  change (String c (String.string_of_list_ascii (List.rev l)))
    with (String.string_of_list_ascii (c :: List.rev l)).
  rewrite String.list_ascii_of_string_of_list_ascii.
  cbn [List.rev]. rewrite rev_involutive, <- Hl.
  apply String.string_of_list_ascii_of_string.
Qed.

Lemma examined_pieces more : ∀ first,
  isAtom first = true → wellFormed more →
  examined (pieces first more) = first :: map snd more.
Proof.
  induction more as [|[sp a] more IH]; intros first Hf Hm.
  - cbn [pieces examined default map]. by rewrite trim_atom.
  - apply Forall_cons in Hm as [[_ Ha] Hm]. cbn [snd] in Ha.
    cbn [pieces map snd].
    change (examined (Some first :: Some (sep_keyword sp) :: pieces a more))
      with (Js.trim first :: examined (pieces a more)).
    by rewrite trim_atom, IH.
Qed.

Lemma conditionsOf_clause first more :
  isAtom first = true → wellFormed more →
  conditionsOf (clause first more) = first :: map snd more.
Proof.
  intros Hf Hm. unfold conditionsOf.
  rewrite split_clause by done. by apply examined_pieces.
Qed.

(** ** What a row reads under a name in upper case *)

Lemma upperChar_not_lower c : Js.isLower (Js.upperChar c) = false.
Proof. destruct c as [[] [] [] [] [] [] [] []]; reflexivity. Qed.

Lemma toUpperCase_not_lower s :
  allChars (fun c => negb (Js.isLower c)) (Js.toUpperCase s) = true.
Proof.
  induction s as [|c s IH]; [reflexivity|].
  cbn [Js.toUpperCase allChars]. by rewrite upperChar_not_lower, IH.
Qed.

(** Every member of [Object.prototype] has a small letter in its name,
    so a name in upper case is none of them. *)
Lemma inherited_upper s : inherited (Js.toUpperCase s) = false.
Proof.
  pose proof (toUpperCase_not_lower s) as Hup.
  unfold inherited, objectPrototype. cbn [existsb].
  repeat match goal with
    | |- context [String.eqb (Js.toUpperCase s) ?name] =>
        destruct (String.eqb_spec (Js.toUpperCase s) name) as [Heq|_];
          [rewrite Heq in Hup; discriminate Hup|]
    end.
  reflexivity.
Qed.

(** The evaluator of conditions looks a column up in upper case: it
    reads the row's own property or [undefined], never a member of the
    prototype. *)
Lemma rowGet_upper (row : gmap string value) s :
  rowGet row (Js.toUpperCase s) = default VUndefined (row !! Js.toUpperCase s).
Proof.
  unfold rowGet. destruct (row !! Js.toUpperCase s); [reflexivity|].
  by rewrite inherited_upper.
Qed.

(** ** A condition on a column the row does not have *)

Lemma compare_undefined op compareValue :
  op ∈ operators →
  compare (capturedOperator op) VUndefined compareValue
  = bool_decide (op ∈ ["!="; "<>"]).
Proof.
  intros Hop. unfold operators in Hop.
  repeat (apply elem_of_cons in Hop as [-> | Hop]); [..|by apply elem_of_nil in Hop];
    reflexivity.
Qed.

Lemma evaluateCondition_undefined (row : gmap string value)
    column ws1 op ws2 v value' :
  isIdentifier column = true →
  allChars Js.isSpace ws1 = true →
  allChars Js.isSpace ws2 = true →
  op ∈ operators →
  Js.isSpace v = false →
  isOperatorChar v = false →
  rowGet row (Js.toUpperCase column) = VUndefined →
  evaluateCondition row (column +:+ ws1 +:+ op +:+ ws2 +:+ String v value')
  = Some (bool_decide (op ∈ ["!="; "<>"])).
Proof.
  intros Hid Hws1 Hws2 Hop Hv Hvop Hrow.
  destruct (condition_shape column ws1 op ws2 v value' Hid Hws1 Hws2 Hop Hv Hvop)
    as (whole & value_ & Hm).
  unfold evaluateCondition. rewrite Hm, Hrow.
  by rewrite compare_undefined.
Qed.

(** C7: a condition [column op value] on a row that has no entry for the
    column (looked up in upper case) evaluates to false when [op] is one
    of [=], [<], [>], [<=], [>=], and to true when it is [!=] or [<>];
    the value is a literal: it starts with a character that is neither
    white space nor part of an operator. *)
Theorem evaluateCondition_absent_column (row : gmap string value)
    column ws1 op ws2 v value' :
  isIdentifier column = true →
  allChars Js.isSpace ws1 = true →
  allChars Js.isSpace ws2 = true →
  Js.isSpace v = false →
  isOperatorChar v = false →
  row !! Js.toUpperCase column = None →
  let condition := column +:+ ws1 +:+ op +:+ ws2 +:+ String v value' in
  (op ∈ ["="; "<"; ">"; "<="; ">="] → evaluateCondition row condition = Some false)
  ∧ (op ∈ ["!="; "<>"] → evaluateCondition row condition = Some true).
Proof.
  intros Hid Hws1 Hws2 Hv Hvop Hrow condition.
  assert (rowGet row (Js.toUpperCase column) = VUndefined) as Hget
    by (by rewrite rowGet_upper, Hrow).
  split; intros Hop; subst condition;
    rewrite evaluateCondition_undefined; try done.
  - f_equal. apply bool_decide_eq_false.
    repeat (apply elem_of_cons in Hop as [-> | Hop]);
      [..|by apply elem_of_nil in Hop];
      intros Hin;
      repeat (apply elem_of_cons in Hin as [Hin|Hin]; [discriminate Hin|]);
      by apply elem_of_nil in Hin.
  - unfold operators.
    repeat (apply elem_of_cons in Hop as [-> | Hop]);
      [..|by apply elem_of_nil in Hop];
      repeat first [apply list_elem_of_here | apply list_elem_of_further].
  - f_equal. by apply bool_decide_eq_true.
  - unfold operators.
    repeat (apply elem_of_cons in Hop as [-> | Hop]);
      [..|by apply elem_of_nil in Hop];
      repeat first [apply list_elem_of_here | apply list_elem_of_further].
Qed.

(** ** Conditions that have not the shape are passed over *)



(** ** CREATE TABLE, then DESCRIBE *)

Lemma splitOn_sepFree sep def :
  allChars (fun c => negb (Ascii.eqb c sep)) def = true →
  Js.splitOn sep def = [def].
Proof.
  induction def as [|c def IH]; [done|].
  cbn [allChars Js.splitOn]. intros [Hc Hdef]%andb_true_iff.
  apply negb_true_iff in Hc. by rewrite Hc, IH.
Qed.

Lemma splitOn_app sep def rest :
  allChars (fun c => negb (Ascii.eqb c sep)) def = true →
  Js.splitOn sep (def +:+ String sep rest) = def :: Js.splitOn sep rest.
Proof.
  induction def as [|c def IH].
  - intros _. rewrite append_nil. cbn [Js.splitOn]. by rewrite Ascii.eqb_refl.
  - cbn [allChars]. intros [Hc Hdef]%andb_true_iff.
    apply negb_true_iff in Hc. rewrite append_cons. cbn [Js.splitOn].
    by rewrite Hc, IH.
Qed.

Lemma splitOn_join sep defs :
  defs ≠ [] →
  Forall (fun def => allChars (fun c => negb (Ascii.eqb c sep)) def = true) defs →
  Js.splitOn sep (Js.join (String sep "") defs) = defs.
Proof.
  induction defs as [|def defs IH]; [done|]. intros _ Hall.
  apply Forall_cons in Hall as [Hdef Hall].
  destruct defs as [|def' defs].
  - by apply splitOn_sepFree.
  - change (Js.join (String sep "") (def :: def' :: defs))
      with (def +:+ String sep "" +:+ Js.join (String sep "") (def' :: defs)).
    rewrite append_cons, append_nil, splitOn_app by done.
    by rewrite IH.
Qed.

Lemma describeColumn_parse def :
  describeColumn (parseColumnDefinition def) = describedDefinition def.
Proof.
  unfold describeColumn, parseColumnDefinition, describedDefinition, token,
    lengthSuffix.
  cbn [col_name col_dataType col_nullable col_length].
  rewrite append_empty_r.
  by destruct (Js.includes (Js.toUpperCase def) "NOT NULL").
Qed.

(** C3, as the code has it: after a successful CREATE TABLE, DESCRIBE of
    the table returns one row for each piece of the column list cut at
    every comma, in order, the list being the one the executor captures
    from the statement as it stands after the dialect rewrite.  The row
    of a piece has its first word in upper case as name, its second word
    as type ([VARCHAR2(255)] when there is none) and "NOT NULL" exactly
    when the piece contains it, letter case apart.  A list without a
    comma is one piece. *)
Theorem create_then_describe env env' (cat : gmap string OracleTable)
    sql whole tableName columnDefs sql' whole' name' :
  classify (prepare sql) = KCreateTable →
  match_ (prepare sql) reCreateTable
    = Some [whole; Some tableName; Some columnDefs] →
  cat !! Js.toUpperCase tableName = None →
  classify (prepare sql') = KDescribe →
  match_ (prepare sql') reDescribe = Some [whole'; Some name'] →
  Js.toUpperCase name' = Js.toUpperCase tableName →
  let defs := Js.splitOn "," columnDefs in
  success (snd (parseSQL env cat sql)) = true
  ∧ snd (parseSQL env' (fst (parseSQL env cat sql)) sql')
    = {| success := true;
         data := Some (map describedDefinition defs);
         columns := Some ["Name"; "Null?"; "Type"];
         rowCount := Some (length defs);
         executionTime := Some (elapsed env');
         executionPlan := None; message := None; error := None |}
  ∧ (commaFree columnDefs = true → defs = [columnDefs]).
Proof.
  intros Hk Hm Hfresh Hk' Hm' Hname defs.
  assert (parseSQL env cat sql
          = (<[Js.toUpperCase tableName :=
                 {| tbl_name := Js.toUpperCase tableName;
                    tbl_columns := map parseColumnDefinition defs;
                    tbl_data := []; tbl_indexes := []; tbl_constraints := [];
                    tbl_created := nowISO env |}]> cat,
             withExecutionTime
               (done_with ("Table " +:+ tableName +:+ " created.") 0)
               (elapsed env))) as ->.
  { apply parseSQL_returned. unfold dispatch. rewrite Hk.
    unfold executeCreateTable. by rewrite Hm, Hfresh. }
  split; [reflexivity|]. cbn [fst].
  split; [|by apply splitOn_sepFree].
  match goal with |- context [parseSQL env' ?c sql'] => set (cat1 := c) end.
  rewrite (parseSQL_returned env' cat1 cat1 sql'
             {| success := true; data := Some (map describedDefinition defs);
                columns := Some ["Name"; "Null?"; "Type"];
                rowCount := Some (length defs); executionTime := None;
                executionPlan := None; message := None; error := None |});
    [reflexivity|]. subst cat1.
  unfold dispatch. rewrite Hk'. unfold executeDescribe. rewrite Hm', Hname.
  rewrite lookup_insert_eq. cbn [tbl_columns].
  rewrite !length_map, map_map.
  by rewrite (map_ext _ _ describeColumn_parse).
Qed.

(** ** Statements the dialect rewrite leads astray *)

(** C1 on the code: the dialect rewrite turns the DATE inside UPDATE into
    TIMESTAMP, so the statement is no longer recognised; with a table T
    in the catalog or without, it is answered ORA-00900 and nothing is
    updated.  No statement at all is dispatched to the UPDATE executor. *)
Theorem update_statement_rejected env (cat : gmap string OracleTable) :
  prepare "UPDATE T SET NAME='B' WHERE ID=1" = "UPTIMESTAMP T SET NAME='B' WHERE ID=1"
  ∧ parseSQL env cat "UPDATE T SET NAME='B' WHERE ID=1"
    = (cat, withExecutionTime (failed "ORA-00900: invalid SQL statement")
              (elapsed env))
  ∧ ∀ sql, classify (prepare sql) ≠ KUpdate.
Proof.
  split; [by vm_compute|split; [|apply classify_not_update]].
  apply parseSQL_returned. unfold dispatch.
  by replace (classify (prepare "UPDATE T SET NAME='B' WHERE ID=1"))
    with KInvalid by by vm_compute.
Qed.

(** Called directly, [executeUpdate] takes an empty SET clause and no WHERE
    clause from the statement: the lazy group of [reUpdate] is followed by
    an optional group only, so it stops at once. *)
Lemma reUpdate_captures_nothing :
  match_ "UPDATE T SET NAME='B' WHERE ID=1" reUpdate
  = Some [Some "UPDATE T SET "; Some "T"; Some ""; None].
Proof. by vm_compute. Qed.
(** C2 on the code: the statement starts with SELECT, so it goes to the
    SELECT executor, which looks for a table named DUAL; on the empty
    catalog the answer is ORA-00942, and on no catalog is the result
    keyed by SYSDATE. *)
Theorem select_sysdate_from_dual env (cat : gmap string OracleTable) :
  prepare "SELECT SYSDATE FROM DUAL" = "SELECT CURRENT_TIMESTAMP FROM DUAL"
  ∧ classify (prepare "SELECT SYSDATE FROM DUAL") = KSelect
  ∧ parseSQL env ∅ "SELECT SYSDATE FROM DUAL"
    = (∅, withExecutionTime
            (failed "ORA-00942: table or view does not exist: DUAL")
            (elapsed env))
  ∧ columns (snd (parseSQL env cat "SELECT SYSDATE FROM DUAL")) ≠ Some ["SYSDATE"].
Proof.
  assert (prepare "SELECT SYSDATE FROM DUAL" = "SELECT CURRENT_TIMESTAMP FROM DUAL")
    as Hp by by vm_compute.
  assert (classify "SELECT CURRENT_TIMESTAMP FROM DUAL" = KSelect)
    as Hk by by vm_compute.
  assert (match_ "SELECT CURRENT_TIMESTAMP FROM DUAL" reSelect
          = Some [Some "SELECT CURRENT_TIMESTAMP FROM DUAL";
                  Some "CURRENT_TIMESTAMP"; Some "DUAL"; None])
    as Hm by by vm_compute.
  assert (∀ c : gmap string OracleTable,
    dispatch env c (prepare "SELECT SYSDATE FROM DUAL")
    = executeSelect c "SELECT CURRENT_TIMESTAMP FROM DUAL") as Hd.
  { intros c. rewrite Hp. unfold dispatch. by rewrite Hk. }
  split; [exact Hp|split; [by rewrite Hp|split]].
  - apply parseSQL_returned. rewrite Hd. unfold executeSelect. by rewrite Hm.
  - unfold parseSQL. rewrite Hd. unfold executeSelect. rewrite Hm.
    change (Js.toUpperCase "DUAL") with "DUAL".
    destruct (cat !! "DUAL") as [table|]; [|done].
    change (String.eqb (Js.trim "CURRENT_TIMESTAMP") "*") with false.
    cbn. discriminate.
Qed.
End Properties.

(** * Further properties *)

(** ** What the patterns of the executors take from a statement *)

Section Recognition.
Import Re.

Ltac norm_append := rewrite ?append_cons, ?append_nil.

(** The end of a match: the index reached and the captures. *)
Ltac finish_match :=
  match goal with
  | |- Some (?e, _) = Some (?e', _) =>
      replace e with e';
        [reflexivity
        |repeat (progress (cbn [String.length]; rewrite ?length_append)); lia]
  end.

Lemma match_whole re a c :
  matchHere re 0 a = Some (String.length a, c) →
  match_ a re = Some (Some a :: tail c).
Proof.
  intros Hm. unfold match_. rewrite (search_here _ _ _ _ Hm).
  by rewrite Nat.sub_0_r, substring_whole.
Qed.

Lemma allChars_impl (p q : ascii → bool) s :
  (∀ c, p c = true → q c = true) → allChars p s = true → allChars q s = true.
Proof.
  intros Hpq. induction s as [|c s IH]; [done|]. cbn [allChars].
  intros [Hc Hs]%andb_true_iff. by rewrite (Hpq c Hc), IH.
Qed.

Section Steps.
Context {R : Type} (ci : bool).

(** The first pattern of a sequence runs with the rest as continuation. *)
Lemma run_Cat (k : @cont R) r rs i s c :
  run ci (Cat (r :: rs)) k i s c
  = run ci r (fun i' s' c' => run ci (Cat rs) k i' s' c') i s c.
Proof. destruct rs; reflexivity. Qed.

(** A keyword, over the text that starts with it. *)
Lemma run_Str kw : ∀ (k : @cont R) i rest c,
  kw ≠ "" →
  run ci (Str kw) k i (kw +:+ rest) c = k (i + String.length kw) rest c.
Proof.
  induction kw as [|a kw IH]; intros k i rest c Hne; [done|].
  assert (accepts ci (Lit a) a = true) as Ha.
  { destruct ci; cbn [accepts]; apply Ascii.eqb_refl. }
  destruct kw as [|b kw].
  - norm_append. cbn [Str run]. rewrite Ha. f_equal. simpl. lia.
  - rewrite append_cons. cbn [Str run]. rewrite Ha.
    change (run ci (Str (String b kw)) k (S i) (String b kw +:+ rest) c
            = k (i + String.length (String a (String b kw))) rest c).
    rewrite IH by done. f_equal. simpl. lia.
Qed.

(** One character. *)
Lemma run_Chr (k : @cont R) cl a i s c :
  accepts ci cl a = true →
  run ci (Chr cl) k i (String a s) c = k (S i) s c.
Proof. intros Ha. cbn [run]. by rewrite Ha. Qed.

(** One character of a class, all there is of it. *)
Lemma run_Plus_one (k : @cont R) cl a i s c :
  accepts ci cl a = true →
  stopsAt (accepts ci cl) s = true →
  run ci (Plus cl) k i (String a s) c = k (S i) s c.
Proof.
  intros Ha Hstop. cbn [run Plus]. rewrite Ha.
  destruct s as [|b s]; [reflexivity|].
  cbn [stopsAt] in Hstop. apply negb_true_iff in Hstop.
  cbn [star]. by rewrite Hstop.
Qed.

(** A pattern of one or more characters fails where there is none. *)
Lemma run_Plus_none (k : @cont R) cl i s c :
  stopsAt (accepts ci cl) s = true → run ci (Plus cl) k i s c = None.
Proof.
  intros Hstop. cbn [run Plus]. destruct s as [|b s]; [reflexivity|].
  cbn [stopsAt] in Hstop. apply negb_true_iff in Hstop. by rewrite Hstop.
Qed.

(** A star with nothing to take. *)
Lemma run_Star_none (k : @cont R) cl i s c :
  stopsAt (accepts ci cl) s = true →
  run ci (Star true cl) k i s c = k i s c.
Proof.
  intros Hstop. cbn [run].
  destruct s as [|b s]; [reflexivity|].
  cbn [stopsAt] in Hstop. apply negb_true_iff in Hstop.
  cbn [star]. by rewrite Hstop.
Qed.

(** A capturing group of one or more characters of a class, over a run
    of such characters. *)
Lemma run_group_plus (k : @cont R) cl n pre rest i c r :
  pre ≠ "" →
  allChars (accepts ci cl) pre = true →
  stopsAt (accepts ci cl) rest = true →
  k (i + String.length pre) rest (<[n := Some pre]> c) = Some r →
  run ci (Group n (Plus cl)) k i (pre +:+ rest) c = Some r.
Proof.
  intros Hne Hall Hstop Hk. destruct pre as [|x pre]; [done|].
  cbn [allChars] in Hall. apply andb_true_iff in Hall as [Hx Hall].
  norm_append. cbn [run Plus]. rewrite Hx.
  apply star_greedy_run; [exact Hall|exact Hstop|].
  replace (S i + String.length pre - i) with (String.length (String x pre))
    by (simpl; lia).
  rewrite <- (append_cons x pre), substring_prefix.
  replace (S i + String.length pre) with (i + String.length (String x pre))
    by (simpl; lia).
  exact Hk.
Qed.

(** A greedy capturing group over a run of characters that ends the
    line. *)
Lemma run_group_greedy (k : @cont R) cl n pre rest i c r :
  allChars (accepts ci cl) pre = true →
  stopsAt (accepts ci cl) rest = true →
  k (i + String.length pre) rest (<[n := Some pre]> c) = Some r →
  run ci (Group n (Star true cl)) k i (pre +:+ rest) c = Some r.
Proof.
  intros Hall Hstop Hk. cbn [run].
  apply star_greedy_run; [exact Hall|exact Hstop|].
  replace (i + String.length pre - i) with (String.length pre) by lia.
  by rewrite substring_prefix.
Qed.

(** A greedy star that takes the last character too and gives it back:
    the rest of the pattern needs one character. *)
Lemma star_greedy_close (k : @cont R) cl pre a : ∀ i c r,
  allChars (accepts ci cl) pre = true →
  (∀ j, k j "" c = None) →
  k (i + String.length pre) (String a "") c = Some r →
  star ci true cl k i (pre +:+ String a "") c = Some r.
Proof.
  induction pre as [|x pre IH]; intros i c r Hall Hend Hk.
  - norm_append. simpl in Hk. rewrite Nat.add_0_r in Hk.
    cbn [star]. destruct (accepts ci cl a); [|exact Hk].
    by rewrite Hend.
  - cbn [allChars] in Hall. apply andb_true_iff in Hall as [Hx Hall].
    norm_append. cbn [star]. rewrite Hx.
    rewrite (IH (S i) c r Hall Hend); [reflexivity|].
    simpl in Hk. by rewrite Nat.add_succ_r in Hk.
Qed.

Lemma run_group_close (k : @cont R) cl n pre a i c r :
  allChars (accepts ci cl) pre = true →
  (∀ j c', k j "" c' = None) →
  k (i + String.length pre) (String a "") (<[n := Some pre]> c) = Some r →
  run ci (Group n (Star true cl)) k i (pre +:+ String a "") c = Some r.
Proof.
  intros Hall Hend Hk. cbn [run].
  apply star_greedy_close; [exact Hall|intros j; apply Hend|].
  replace (i + String.length pre - i) with (String.length pre) by lia.
  by rewrite substring_prefix.
Qed.

(** A lazy star goes on while the rest of the pattern fails. *)
Lemma star_lazy_skip (k : @cont R) cl (p : ascii → bool) pre rest :
  ∀ i c r,
  allChars (accepts ci cl) pre = true →
  allChars p pre = true →
  (∀ j x s, p x = true → k j (String x s) c = None) →
  k (i + String.length pre) rest c = Some r →
  star ci false cl k i (pre +:+ rest) c = Some r.
Proof.
  induction pre as [|x pre IH]; intros i c r Hall Hp Hfail Hk.
  - norm_append. simpl in Hk. rewrite Nat.add_0_r in Hk.
    destruct rest; cbn [star]; by rewrite Hk.
  - cbn [allChars] in Hall, Hp.
    apply andb_true_iff in Hall as [Hx Hall].
    apply andb_true_iff in Hp as [Hpx Hp].
    norm_append. cbn [star]. rewrite (Hfail i x _ Hpx), Hx.
    apply IH; [done..|]. simpl in Hk. by rewrite Nat.add_succ_r in Hk.
Qed.

Lemma run_group_lazy (k : @cont R) cl (p : ascii → bool) n pre rest i c r :
  allChars (accepts ci cl) pre = true →
  allChars p pre = true →
  (∀ j x s c', p x = true → k j (String x s) c' = None) →
  k (i + String.length pre) rest (<[n := Some pre]> c) = Some r →
  run ci (Group n (Star false cl)) k i (pre +:+ rest) c = Some r.
Proof.
  intros Hall Hp Hfail Hk. cbn [run].
  apply (star_lazy_skip _ _ p); [exact Hall|exact Hp| |].
  - intros j x s Hx. by apply Hfail.
  - replace (i + String.length pre - i) with (String.length pre) by lia.
    by rewrite substring_prefix.
Qed.

(** An optional part that does not match is passed over. *)
Lemma run_Opt_none (k : @cont R) r i s c :
  run ci r k i s c = None → run ci (Opt r) k i s c = k i s c.
Proof. intros Hr. cbn [run]. by rewrite Hr. Qed.

Lemma run_Opt_some (k : @cont R) r i s c x :
  run ci r k i s c = Some x → run ci (Opt r) k i s c = Some x.
Proof. intros Hr. cbn [run]. by rewrite Hr. Qed.
End Steps.

Lemma isIdentifier_word ci name :
  isIdentifier name = true →
  name ≠ "" ∧ allChars (accepts ci Word) name = true.
Proof. destruct name; [done|]. by intros Hid. Qed.

(** An identifier does not start with white space. *)
Lemma isIdentifier_stop ci name rest :
  isIdentifier name = true →
  stopsAt (accepts ci Space) (name +:+ rest) = true.
Proof.
  destruct name as [|x name]; [done|]. cbn [isIdentifier].
  intros [Hx _]%andb_true_iff. norm_append. cbn [stopsAt accepts].
  destruct (Js.isSpace x) eqn:Hs; [|done].
  by rewrite (space_not_word x Hs) in Hx.
Qed.

(** The optional WHERE clause of a pattern, at the end of a statement. *)
Lemma run_optWhere ci n w i c :
  (∀ w', w = Some w' → isClause w' = true) →
  c !! n = Some None →
  run ci (optWhere n) final i (wherePart w) c
  = Some (i + String.length (wherePart w), <[n := w]> c).
Proof.
  intros Hw Hc. unfold optWhere. destruct w as [w|]; cbn [wherePart].
  - specialize (Hw w eq_refl). destruct w as [|x w]; [done|].
    cbn [isClause] in Hw. apply andb_true_iff in Hw as [Hx Hw].
    apply negb_true_iff in Hx.
    apply run_Opt_some. norm_append.
    rewrite run_Cat, run_Plus_one by reflexivity.
    rewrite run_Cat, (run_Str _ "WHERE" _ _ (" " +:+ String x w)) by done.
    norm_append.
    rewrite run_Cat, run_Plus_one
      by (try reflexivity; cbn [stopsAt accepts]; by rewrite Hx).
    cbn [Cat]. rewrite <- (append_empty_r (String x w)).
    apply run_group_greedy; [exact Hw|reflexivity|].
    unfold final. rewrite append_empty_r. f_equal. f_equal. simpl. lia.
  - rewrite run_Opt_none.
    + unfold final. f_equal. f_equal; [simpl; lia|].
      symmetry. by apply list_insert_id.
    + rewrite run_Cat. by apply run_Plus_none.
Qed.

(** [DROP TABLE name] *)
Lemma reDropTable_shape name :
  isIdentifier name = true →
  match_ ("DROP TABLE " +:+ name) reDropTable
  = Some [Some ("DROP TABLE " +:+ name); Some name].
Proof.
  intros Hid. pose proof (isIdentifier_word true name Hid) as [Hne Hall].
  apply (match_whole _ _ [None; Some name]).
  unfold matchHere.
  cbn [reDropTable rx source ignoreCase groups replicate].
  rewrite run_Cat, (run_Str _ "DROP" _ _ (" TABLE " +:+ name)) by done.
  norm_append.
  rewrite run_Cat, run_Plus_one by reflexivity.
  rewrite run_Cat, (run_Str _ "TABLE" _ _ (" " +:+ name)) by done.
  norm_append.
  rewrite run_Cat, run_Plus_one
    by (try reflexivity; rewrite <- (append_empty_r name);
        by apply isIdentifier_stop).
  cbn [Cat]. rewrite <- (append_empty_r name) at 1.
  apply run_group_plus; [done..|].
  reflexivity.
Qed.

(** [DELETE FROM name], with a WHERE clause or without. *)
Lemma reDelete_shape name w :
  isIdentifier name = true →
  (∀ w', w = Some w' → isClause w' = true) →
  match_ ("DELETE FROM " +:+ name +:+ wherePart w) reDelete
  = Some [Some ("DELETE FROM " +:+ name +:+ wherePart w); Some name; w].
Proof.
  intros Hid Hw. pose proof (isIdentifier_word true name Hid) as [Hne Hall].
  apply (match_whole _ _ [None; Some name; w]).
  unfold matchHere.
  cbn [reDelete rx source ignoreCase groups replicate].
  rewrite run_Cat, (run_Str _ "DELETE" _ _ (" FROM " +:+ name +:+ wherePart w))
    by done.
  norm_append.
  rewrite run_Cat, run_Plus_one by reflexivity.
  rewrite run_Cat, (run_Str _ "FROM" _ _ (" " +:+ name +:+ wherePart w)) by done.
  norm_append.
  rewrite run_Cat, run_Plus_one by (try reflexivity; by apply isIdentifier_stop).
  rewrite run_Cat.
  apply run_group_plus; [done..| |].
  { destruct w as [w|]; reflexivity. }
  cbn [Cat].
  change (run true (optWhere 2) ?k) with (run true (optWhere 2) final).
  rewrite run_optWhere by done.
  finish_match.
Qed.

Lemma isCompact_stop ci cols rest :
  isCompact cols = true →
  stopsAt (accepts ci Space) (cols +:+ rest) = true.
Proof.
  destruct cols as [|x cols]; [done|]. cbn [isCompact allChars].
  intros [Hx _]%andb_true_iff. norm_append. exact Hx.
Qed.

Lemma isCompact_dot ci cols :
  isCompact cols = true → allChars (accepts ci Dot) cols = true.
Proof.
  destruct cols as [|x cols]; [done|]. unfold isCompact.
  apply allChars_impl. intros c Hc. cbn [accepts].
  apply negb_true_iff in Hc. by rewrite (space_not_dot_stop c Hc).
Qed.

Lemma wherePart_stop ci w : stopsAt (accepts ci Word) (wherePart w) = true.
Proof. destruct w; reflexivity. Qed.

(** [SELECT cols FROM name], with a WHERE clause or without. *)
Lemma reSelect_shape cols name w :
  isCompact cols = true →
  isIdentifier name = true →
  (∀ w', w = Some w' → isClause w' = true) →
  match_ ("SELECT " +:+ cols +:+ " FROM " +:+ name +:+ wherePart w) reSelect
  = Some [Some ("SELECT " +:+ cols +:+ " FROM " +:+ name +:+ wherePart w);
          Some cols; Some name; w].
Proof.
  intros Hcols Hid Hw.
  pose proof (isIdentifier_word true name Hid) as [Hne Hall].
  apply (match_whole _ _ [None; Some cols; Some name; w]).
  unfold matchHere.
  cbn [reSelect rx source ignoreCase groups replicate].
  rewrite run_Cat,
    (run_Str _ "SELECT" _ _ (" " +:+ cols +:+ " FROM " +:+ name +:+ wherePart w))
    by done.
  norm_append.
  rewrite run_Cat, run_Plus_one by (try reflexivity; by apply isCompact_stop).
  rewrite run_Cat.
  apply (run_group_lazy _ _ _ (fun c => negb (Js.isSpace c)));
    [by apply isCompact_dot|by destruct cols| |].
  { intros j x s c' Hx. rewrite run_Cat. by apply run_Plus_none. }
  norm_append.
  rewrite run_Cat, run_Plus_one by reflexivity.
  rewrite run_Cat, (run_Str _ "FROM" _ _ (" " +:+ name +:+ wherePart w)) by done.
  norm_append.
  rewrite run_Cat, run_Plus_one by (try reflexivity; by apply isIdentifier_stop).
  rewrite run_Cat.
  apply run_group_plus; [done|done|apply wherePart_stop|].
  cbn [Cat].
  change (run true (optWhere 3) ?k) with (run true (optWhere 3) final).
  rewrite run_optWhere by done.
  finish_match.
Qed.

Lemma run_Star_run {R} ci (k : @cont R) cl pre rest i c r :
  allChars (accepts ci cl) pre = true →
  stopsAt (accepts ci cl) rest = true →
  k (i + String.length pre) rest c = Some r →
  run ci (Star true cl) k i (pre +:+ rest) c = Some r.
Proof. apply star_greedy_run. Qed.

(** [CREATE TABLE name (defs)] *)
Lemma reCreateTable_shape name defs :
  isIdentifier name = true →
  oneLine defs = true →
  match_ ("CREATE TABLE " +:+ name +:+ " (" +:+ defs +:+ ")") reCreateTable
  = Some [Some ("CREATE TABLE " +:+ name +:+ " (" +:+ defs +:+ ")");
          Some name; Some defs].
Proof.
  intros Hid Hdefs.
  pose proof (isIdentifier_word true name Hid) as [Hne Hall].
  apply (match_whole _ _ [None; Some name; Some defs]).
  unfold matchHere.
  cbn [reCreateTable rx source ignoreCase groups replicate].
  rewrite run_Cat,
    (run_Str _ "CREATE" _ _ (" TABLE " +:+ name +:+ " (" +:+ defs +:+ ")"))
    by done.
  norm_append.
  rewrite run_Cat, run_Plus_one by reflexivity.
  rewrite run_Cat,
    (run_Str _ "TABLE" _ _ (" " +:+ name +:+ " (" +:+ defs +:+ ")")) by done.
  norm_append.
  rewrite run_Cat, run_Plus_one by (try reflexivity; by apply isIdentifier_stop).
  rewrite run_Cat.
  apply run_group_plus; [done|done|reflexivity|].
  rewrite run_Cat.
  apply (run_Star_run _ _ _ " "); [reflexivity|reflexivity|].
  norm_append.
  rewrite run_Cat, run_Chr by reflexivity.
  rewrite run_Cat.
  apply run_group_close; [exact Hdefs|reflexivity|].
  cbn [Cat]. rewrite run_Chr by reflexivity.
  finish_match.
Qed.

(** [INSERT INTO name VALUES (vals)] *)
Lemma reInsert_shape name vals :
  isIdentifier name = true →
  oneLine vals = true →
  match_ ("INSERT INTO " +:+ name +:+ " VALUES (" +:+ vals +:+ ")") reInsert
  = Some [Some ("INSERT INTO " +:+ name +:+ " VALUES (" +:+ vals +:+ ")");
          Some name; None; Some vals].
Proof.
  intros Hid Hvals.
  pose proof (isIdentifier_word true name Hid) as [Hne Hall].
  apply (match_whole _ _ [None; Some name; None; Some vals]).
  unfold matchHere.
  cbn [reInsert rx source ignoreCase groups replicate].
  rewrite run_Cat,
    (run_Str _ "INSERT" _ _ (" INTO " +:+ name +:+ " VALUES (" +:+ vals +:+ ")"))
    by done.
  norm_append.
  rewrite run_Cat, run_Plus_one by reflexivity.
  rewrite run_Cat,
    (run_Str _ "INTO" _ _ (" " +:+ name +:+ " VALUES (" +:+ vals +:+ ")"))
    by done.
  norm_append.
  rewrite run_Cat, run_Plus_one by (try reflexivity; by apply isIdentifier_stop).
  rewrite run_Cat.
  apply run_group_plus; [done|done|reflexivity|].
  rewrite run_Cat.
  apply (run_Star_run _ _ _ " "); [reflexivity|reflexivity|].
  norm_append.
  rewrite run_Cat, run_Opt_none by reflexivity.
  rewrite run_Cat, run_Star_none by reflexivity.
  rewrite run_Cat, (run_Str _ "VALUES" _ _ (" (" +:+ vals +:+ ")")) by done.
  rewrite run_Cat.
  apply (run_Star_run _ _ _ " "); [reflexivity|reflexivity|].
  norm_append.
  rewrite run_Cat, run_Chr by reflexivity.
  rewrite run_Cat.
  apply run_group_close; [exact Hvals|reflexivity|].
  cbn [Cat]. rewrite run_Chr by reflexivity.
  finish_match.
Qed.

(** [CREATE INDEX ix ON name (cols)] *)
Lemma reCreateIndex_shape ix name cols :
  isIdentifier ix = true →
  isIdentifier name = true →
  allChars (fun c => negb (Js.isLineTerminator c) && negb (Ascii.eqb c ")"))
    cols = true →
  match_ ("CREATE INDEX " +:+ ix +:+ " ON " +:+ name +:+ " (" +:+ cols +:+ ")")
         reCreateIndex
  = Some [Some ("CREATE INDEX " +:+ ix +:+ " ON " +:+ name +:+ " (" +:+ cols
                +:+ ")");
          Some ix; Some name; Some cols].
Proof.
  intros Hix Hid Hcols.
  pose proof (isIdentifier_word true ix Hix) as [Hne' Hall'].
  pose proof (isIdentifier_word true name Hid) as [Hne Hall].
  apply (match_whole _ _ [None; Some ix; Some name; Some cols]).
  unfold matchHere.
  cbn [reCreateIndex rx source ignoreCase groups replicate].
  rewrite run_Cat,
    (run_Str _ "CREATE" _ _
       (" INDEX " +:+ ix +:+ " ON " +:+ name +:+ " (" +:+ cols +:+ ")"))
    by done.
  norm_append.
  rewrite run_Cat, run_Plus_one by reflexivity.
  rewrite run_Cat, run_Opt_none by reflexivity.
  rewrite run_Cat,
    (run_Str _ "INDEX" _ _
       (" " +:+ ix +:+ " ON " +:+ name +:+ " (" +:+ cols +:+ ")")) by done.
  norm_append.
  rewrite run_Cat, run_Plus_one by (try reflexivity; by apply isIdentifier_stop).
  rewrite run_Cat.
  apply run_group_plus; [done|done|reflexivity|].
  norm_append.
  rewrite run_Cat, run_Plus_one by reflexivity.
  rewrite run_Cat,
    (run_Str _ "ON" _ _ (" " +:+ name +:+ " (" +:+ cols +:+ ")")) by done.
  norm_append.
  rewrite run_Cat, run_Plus_one by (try reflexivity; by apply isIdentifier_stop).
  rewrite run_Cat.
  apply run_group_plus; [done|done|reflexivity|].
  rewrite run_Cat.
  apply (run_Star_run _ _ _ " "); [reflexivity|reflexivity|].
  norm_append.
  rewrite run_Cat, run_Chr by reflexivity.
  rewrite run_Cat.
  apply (run_group_lazy _ _ _ (fun c => negb (Ascii.eqb c ")"))).
  - revert Hcols. apply allChars_impl. by intros c [? _]%andb_true_iff.
  - revert Hcols. apply allChars_impl. by intros c [_ ?]%andb_true_iff.
  - intros j x s c' Hx. cbn [Cat run accepts].
    change (Js.upperChar ")") with ")"%char.
    destruct (Ascii.eqb_spec ")" (Js.upperChar x)) as [Heq|]; [|reflexivity].
    assert (x = ")"%char) as ->; [|done].
    clear -Heq. destruct x as [[] [] [] [] [] [] [] []]; by vm_compute in Heq.
  - cbn [Cat]. rewrite run_Chr by reflexivity.
    finish_match.
Qed.
End Recognition.

Section CatalogProperties.
Context `{JsRuntime}.
Import Re.

(** The cases of one executor. *)
Ltac executor_cases :=
  unfold executeSelect, executeCreateTable, executeInsert,
    executeUpdate, executeDelete, executeDropTable, executeCreateIndex,
    executeDescribe, executeDualQuery, tableMissing;
  repeat case_match; simplify_eq/=.

Lemma sublist_filter {A} (P : A → Prop) `{∀ x, Decision (P x)} (l : list A) :
  filter P l `sublist_of` l.
Proof.
  induction l as [|x l IH]; [constructor|].
  rewrite filter_cons. destruct (decide (P x)); by constructor.
Qed.

(** A statement either fails and changes nothing, or succeeds with the
    effect of its kind. *)
Lemma parseSQL_effect env (cat : gmap string OracleTable) sql :
  (success (snd (parseSQL env cat sql)) = false
   ∧ fst (parseSQL env cat sql) = cat)
  ∨ (success (snd (parseSQL env cat sql)) = true
     ∧ effectOf (classify (prepare sql)) cat (fst (parseSQL env cat sql))).
Proof.
  pose proof (classify_not_update sql) as Hk.
  unfold parseSQL, dispatch.
  destruct (classify (prepare sql)); [| | |done| | | | | |]; cbn [effectOf].
  - executor_cases; by auto.
  - executor_cases; try (by auto).
    right. split; [done|]. eexists _, _. split; [reflexivity|].
    split; [done|]. split; [apply toUpperCase_idem|done].
  - executor_cases; try (by auto);
      right; (split; [done|]); eexists _, _, _; by split.
  - executor_cases; try (by auto);
      right; (split; [done|]); eexists _, _, _; (split; [reflexivity|]);
      (split; [done|]); first [apply sublist_filter | apply sublist_nil_l].
  - executor_cases; try (by auto);
      right; (split; [done|]); eexists _, _; by split.
  - executor_cases; try (by auto);
      right; (split; [done|]); eexists _, _, _; by split.
  - executor_cases; by auto.
  - executor_cases; by auto.
  - by auto.
Qed.

(** X1: a statement that fails leaves the catalog as it was: no statement
    has a partial effect. *)
Theorem failed_statement_no_effect env (cat : gmap string OracleTable) sql :
  success (snd (parseSQL env cat sql)) = false →
  fst (parseSQL env cat sql) = cat.
Proof.
  intros Hfail.
  destruct (parseSQL_effect env cat sql) as [[_ Hcat]|[Hok _]]; [exact Hcat|].
  rewrite Hfail in Hok. discriminate Hok.
Qed.

(** X2: no statement alters the name, the columns, the constraints or the
    creation time of a table that stays in the catalog, and its indexes
    are only added to. *)
Theorem table_schema_kept env (cat : gmap string OracleTable) sql key t t' :
  cat !! key = Some t →
  fst (parseSQL env cat sql) !! key = Some t' →
  tbl_name t' = tbl_name t
  ∧ tbl_columns t' = tbl_columns t
  ∧ tbl_constraints t' = tbl_constraints t
  ∧ tbl_created t' = tbl_created t
  ∧ ∃ added, tbl_indexes t' = tbl_indexes t ++ added.
Proof.
  intros Ht Ht'.
  assert (t' = t → tbl_name t' = tbl_name t ∧ tbl_columns t' = tbl_columns t
          ∧ tbl_constraints t' = tbl_constraints t
          ∧ tbl_created t' = tbl_created t
          ∧ ∃ added, tbl_indexes t' = tbl_indexes t ++ added) as Hsame.
  { intros ->. repeat split. exists []. by rewrite app_nil_r. }
  destruct (parseSQL_effect env cat sql) as [[_ Hcat]|[_ Heff]].
  { rewrite Hcat, Ht in Ht'. apply Hsame. congruence. }
  destruct (classify (prepare sql)); cbn [effectOf] in Heff; try done;
    try (rewrite Heff, Ht in Ht'; apply Hsame; congruence).
  - destruct Heff as (K & table & Hc & Hfresh & _).
    rewrite Hc, lookup_insert_ne in Ht' by congruence.
    apply Hsame. congruence.
  - destruct Heff as (K & table & row & Hc & HK).
    rewrite Hc in Ht'. destruct (decide (K = key)) as [->|Hne].
    + rewrite lookup_insert_eq in Ht'. apply (inj Some) in Ht'. rewrite HK in Ht.
      apply (inj Some) in Ht. subst t' table. cbn.
      repeat split. exists []. by rewrite app_nil_r.
    + rewrite lookup_insert_ne in Ht' by done. apply Hsame. congruence.
  - destruct Heff as (K & table & rows & Hc & HK & _).
    rewrite Hc in Ht'. destruct (decide (K = key)) as [->|Hne].
    + rewrite lookup_insert_eq in Ht'. apply (inj Some) in Ht'. rewrite HK in Ht.
      apply (inj Some) in Ht. subst t' table. cbn.
      repeat split. exists []. by rewrite app_nil_r.
    + rewrite lookup_insert_ne in Ht' by done. apply Hsame. congruence.
  - destruct Heff as (K & table & Hc & HK).
    rewrite Hc in Ht'. destruct (decide (K = key)) as [->|Hne].
    + by rewrite lookup_delete_eq in Ht'.
    + rewrite lookup_delete_ne in Ht' by done. apply Hsame. congruence.
  - destruct Heff as (K & table & index & Hc & HK).
    rewrite Hc in Ht'. destruct (decide (K = key)) as [->|Hne].
    + rewrite lookup_insert_eq in Ht'. apply (inj Some) in Ht'. rewrite HK in Ht.
      apply (inj Some) in Ht. subst t' table. cbn.
      repeat split. by eexists.
    + rewrite lookup_insert_ne in Ht' by done. apply Hsame. congruence.
Qed.

(** X3: no statement rewrites a stored row, through [parseSQL]: the rows
    of a table after a statement are its rows before with one row added at
    the end, or with some rows removed, the others keeping their order. *)
Theorem table_rows_kept env (cat : gmap string OracleTable) sql key t t' :
  cat !! key = Some t →
  fst (parseSQL env cat sql) !! key = Some t' →
  (∃ row, tbl_data t' = tbl_data t ++ [row])
  ∨ tbl_data t' `sublist_of` tbl_data t.
Proof.
  intros Ht Ht'.
  assert (t' = t → (∃ row, tbl_data t' = tbl_data t ++ [row])
                   ∨ tbl_data t' `sublist_of` tbl_data t) as Hsame.
  { intros ->. by right. }
  destruct (parseSQL_effect env cat sql) as [[_ Hcat]|[_ Heff]].
  { rewrite Hcat, Ht in Ht'. apply Hsame. congruence. }
  destruct (classify (prepare sql)); cbn [effectOf] in Heff; try done;
    try (rewrite Heff, Ht in Ht'; apply Hsame; congruence).
  - destruct Heff as (K & table & Hc & Hfresh & _).
    rewrite Hc, lookup_insert_ne in Ht' by congruence.
    apply Hsame. congruence.
  - destruct Heff as (K & table & row & Hc & HK).
    rewrite Hc in Ht'. destruct (decide (K = key)) as [->|Hne].
    + rewrite lookup_insert_eq in Ht'. apply (inj Some) in Ht'. rewrite HK in Ht.
      apply (inj Some) in Ht. subst t' table. cbn. left. by eexists.
    + rewrite lookup_insert_ne in Ht' by done. apply Hsame. congruence.
  - destruct Heff as (K & table & rows & Hc & HK & Hsub).
    rewrite Hc in Ht'. destruct (decide (K = key)) as [->|Hne].
    + rewrite lookup_insert_eq in Ht'. apply (inj Some) in Ht'. rewrite HK in Ht.
      apply (inj Some) in Ht. subst t' table. cbn. by right.
    + rewrite lookup_insert_ne in Ht' by done. apply Hsame. congruence.
  - destruct Heff as (K & table & Hc & HK).
    rewrite Hc in Ht'. destruct (decide (K = key)) as [->|Hne].
    + by rewrite lookup_delete_eq in Ht'.
    + rewrite lookup_delete_ne in Ht' by done. apply Hsame. congruence.
  - destruct Heff as (K & table & index & Hc & HK).
    rewrite Hc in Ht'. destruct (decide (K = key)) as [->|Hne].
    + rewrite lookup_insert_eq in Ht'. apply (inj Some) in Ht'. rewrite HK in Ht.
      apply (inj Some) in Ht. subst t' table. cbn. by right.
    + rewrite lookup_insert_ne in Ht' by done. apply Hsame. congruence.
Qed.

(** X4: a statement touches one table at most: every other table of the
    catalog is after the statement what it was before. *)
Theorem one_table_touched env (cat : gmap string OracleTable) sql :
  ∃ touched, ∀ key,
    key ≠ touched → fst (parseSQL env cat sql) !! key = cat !! key.
Proof.
  destruct (parseSQL_effect env cat sql) as [[_ Hcat]|[_ Heff]].
  { exists "". intros key _. by rewrite Hcat. }
  destruct (classify (prepare sql)); cbn [effectOf] in Heff; try done;
    try (exists ""; intros key _; by rewrite Heff).
  - destruct Heff as (K & table & Hc & _). exists K. intros key Hne.
    by rewrite Hc, lookup_insert_ne.
  - destruct Heff as (K & table & row & Hc & _). exists K. intros key Hne.
    by rewrite Hc, lookup_insert_ne.
  - destruct Heff as (K & table & rows & Hc & _). exists K. intros key Hne.
    by rewrite Hc, lookup_insert_ne.
  - destruct Heff as (K & table & Hc & _). exists K. intros key Hne.
    by rewrite Hc, lookup_delete_ne.
  - destruct Heff as (K & table & index & Hc & _). exists K. intros key Hne.
    by rewrite Hc, lookup_insert_ne.
Qed.

(** X5: only CREATE TABLE and DROP TABLE change which tables exist: a
    statement leaves the table names as they were, or it is a CREATE TABLE
    that adds one new name, or a DROP TABLE that removes one. *)
Theorem table_names_change env (cat : gmap string OracleTable) sql :
  let cat' := fst (parseSQL env cat sql) in
  dom cat' = dom cat
  ∨ (classify (prepare sql) = KCreateTable
     ∧ (∃ key, (key ∉ dom cat) ∧ dom cat' = {[key]} ∪ dom cat))
  ∨ (classify (prepare sql) = KDropTable
     ∧ (∃ key, key ∈ dom cat ∧ dom cat' = dom cat ∖ {[key]})).
Proof.
  intros cat'. subst cat'.
  destruct (parseSQL_effect env cat sql) as [[_ Hcat]|[_ Heff]].
  { left. by rewrite Hcat. }
  destruct (classify (prepare sql)); cbn [effectOf] in Heff; try done;
    try (left; by rewrite Heff).
  - destruct Heff as (K & table & Hc & Hfresh & _). right. left.
    split; [done|]. exists K. split; [by apply not_elem_of_dom|].
    rewrite Hc. apply dom_insert_L.
  - destruct Heff as (K & table & row & Hc & HK). left.
    rewrite Hc. by apply dom_insert_lookup_L.
  - destruct Heff as (K & table & rows & Hc & HK & _). left.
    rewrite Hc. by apply dom_insert_lookup_L.
  - destruct Heff as (K & table & Hc & HK). right. right.
    split; [done|]. exists K. split; [by eapply elem_of_dom_2|].
    rewrite Hc. apply dom_delete_L.
  - destruct Heff as (K & table & index & Hc & HK). left.
    rewrite Hc. by apply dom_insert_lookup_L.
Qed.

(** X6: every statement keeps the catalog in order: each table stays
    under its own name, in upper case, and without constraints. *)
Theorem catalogOk_kept env (cat : gmap string OracleTable) sql :
  catalogOk cat → catalogOk (fst (parseSQL env cat sql)).
Proof.
  intros Hok.
  destruct (parseSQL_effect env cat sql) as [[_ Hcat]|[_ Heff]].
  { by rewrite Hcat. }
  destruct (classify (prepare sql)); cbn [effectOf] in Heff; try done;
    try (by rewrite Heff).
  - destruct Heff as (K & table & Hc & _ & Hup & Hname & _ & _ & Hcon).
    rewrite Hc. by apply map_Forall_insert_2.
  - destruct Heff as (K & table & row & Hc & HK).
    rewrite Hc. apply map_Forall_insert_2; [|done]. exact (Hok K table HK).
  - destruct Heff as (K & table & rows & Hc & HK & _).
    rewrite Hc. apply map_Forall_insert_2; [|done]. exact (Hok K table HK).
  - destruct Heff as (K & table & Hc & HK). rewrite Hc. by apply map_Forall_delete.
  - destruct Heff as (K & table & index & Hc & HK).
    rewrite Hc. apply map_Forall_insert_2; [|done]. exact (Hok K table HK).
Qed.
End CatalogProperties.

(** ** The shape of a result *)

Section ResultShape.
Context `{JsRuntime}.
Import Re.

Ltac executor_cases :=
  unfold executeSelect, executeCreateTable, executeInsert,
    executeUpdate, executeDelete, executeDropTable, executeCreateIndex,
    executeDescribe, executeDualQuery, tableMissing;
  repeat case_match; simplify_eq/=.

(** Every executor ends in one of the shapes. *)
Lemma dispatch_shaped env (cat : gmap string OracleTable) s :
  shaped (snd (dispatch env cat s)).
Proof.
  unfold dispatch.
  destruct (classify s); executor_cases;
    try exact I; (split; [reflexivity|]);
    first [ left; eexists; split; [reflexivity|reflexivity]
          | right; left; eexists _, _, _, _; split; reflexivity
          | right; right; eexists _, _; reflexivity ].
Qed.

(** X7: a statement that fails is answered with an error text that starts
    with an ORA- code, and with nothing else but the elapsed time: no
    rows, no columns, no count, no message, no plan.  An exception of an
    executor is answered in the same way, under ORA-00907. *)
Theorem failure_has_ora_code env (cat : gmap string OracleTable) sql :
  let result := snd (parseSQL env cat sql) in
  success result = false →
  (∃ e, error result = Some e ∧ Js.startsWith e "ORA-" = true)
  ∧ data result = None ∧ columns result = None ∧ rowCount result = None
  ∧ message result = None ∧ executionPlan result = None
  ∧ is_Some (executionTime result).
Proof.
  intros result Hfail. subst result. unfold parseSQL in *.
  pose proof (dispatch_shaped env cat (prepare sql)) as Hshape.
  destruct (dispatch env cat (prepare sql)) as [cat' [r|msg]]; cbn [snd] in *.
  - destruct Hshape as (_ & [(e & -> & He)|[(? & ? & ? & ? & -> & _)|(? & ? & ->)]]);
      [|done|done].
    split; [by exists e|]. by repeat split.
  - split; [by eexists|]. by repeat split.
Qed.

(** X8: a statement that succeeds is answered with no error, and either
    with rows, their column names and their number as the row count, or
    with a message and a count and neither rows nor columns. *)
Theorem success_has_rows_or_message env (cat : gmap string OracleTable) sql :
  let result := snd (parseSQL env cat sql) in
  success result = true →
  error result = None
  ∧ executionTime result = Some (elapsed env)
  ∧ ((∃ rows cols,
        data result = Some rows ∧ columns result = Some cols
        ∧ rowCount result = Some (length rows) ∧ message result = None)
     ∨ (∃ msg n,
          message result = Some msg ∧ rowCount result = Some n
          ∧ data result = None ∧ columns result = None
          ∧ executionPlan result = None)).
Proof.
  intros result Hok. subst result. unfold parseSQL in *.
  pose proof (dispatch_shaped env cat (prepare sql)) as Hshape.
  destruct (dispatch env cat (prepare sql)) as [cat' [r|msg]]; cbn [snd] in *;
    [|done].
  destruct Hshape as (_ & [(e & -> & He)|[(rows & cols & n & plan & -> & ->)
                                         |(msg & n & ->)]]); [done| |].
  - split; [reflexivity|]. split; [reflexivity|]. left. by exists rows, cols.
  - split; [reflexivity|]. split; [reflexivity|]. right. by exists msg, n.
Qed.
End ResultShape.

(** ** Values and column definitions *)

Section Values.
Context `{JsRuntime}.
Import Re.

Ltac norm_append := rewrite ?append_cons, ?append_nil.

Lemma list_ascii_app a b :
  String.list_ascii_of_string (a +:+ b)
  = String.list_ascii_of_string a ++ String.list_ascii_of_string b.
Proof.
  induction a as [|x a IH]; [reflexivity|].
  rewrite append_cons. simpl. by rewrite IH.
Qed.

Lemma string_of_list_app (l1 l2 : list ascii) :
  String.string_of_list_ascii (l1 ++ l2)
  = String.string_of_list_ascii l1 +:+ String.string_of_list_ascii l2.
Proof. induction l1 as [|x l1 IH]; [reflexivity|]. simpl. by rewrite IH. Qed.

Lemma rev_app a b : Js.rev (a +:+ b) = Js.rev b +:+ Js.rev a.
Proof.
  unfold Js.rev. by rewrite list_ascii_app, rev_app_distr, string_of_list_app.
Qed.

Lemma rev_rev a : Js.rev (Js.rev a) = a.
Proof.
  unfold Js.rev.
  by rewrite String.list_ascii_of_string_of_list_ascii, rev_involutive,
    String.string_of_list_ascii_of_string.
Qed.

Lemma allChars_forallb p s :
  allChars p s = forallb p (String.list_ascii_of_string s).
Proof. induction s as [|x s IH]; [reflexivity|]. simpl. by rewrite IH. Qed.

Lemma allChars_rev p s : allChars p (Js.rev s) = allChars p s.
Proof.
  unfold Js.rev.
  rewrite !allChars_forallb, String.list_ascii_of_string_of_list_ascii.
  induction (String.list_ascii_of_string s) as [|x l IH]; [reflexivity|].
  simpl. rewrite forallb_app, IH. simpl. rewrite andb_true_r. apply andb_comm.
Qed.

Lemma trimStart_blank ws s :
  allChars Js.isSpace ws = true → Js.trimStart (ws +:+ s) = Js.trimStart s.
Proof.
  induction ws as [|x ws IH]; [done|]. cbn [allChars].
  intros [Hx Hws]%andb_true_iff. rewrite append_cons. cbn [Js.trimStart].
  rewrite Hx. by apply IH.
Qed.

Lemma trimStart_stop s : stopsAt Js.isSpace s = true → Js.trimStart s = s.
Proof.
  destruct s as [|x s]; [done|]. cbn [stopsAt Js.trimStart].
  intros Hx%negb_true_iff. by rewrite Hx.
Qed.

Lemma stopsAt_app p a b :
  a ≠ "" → stopsAt p a = true → stopsAt p (a +:+ b) = true.
Proof. destruct a; [done|]. by rewrite append_cons. Qed.

(** [trim] takes the white space off both ends of a text that neither
    starts nor ends with white space. *)
Lemma trim_around ws core ws' :
  allChars Js.isSpace ws = true →
  allChars Js.isSpace ws' = true →
  stopsAt Js.isSpace core = true →
  stopsAt Js.isSpace (Js.rev core) = true →
  Js.trim (ws +:+ core +:+ ws') = core.
Proof.
  intros Hws Hws' Hhead Hlast. unfold Js.trim.
  rewrite trimStart_blank by done.
  destruct core as [|x core].
  - norm_append.
    assert (Js.trimStart ws' = "") as ->; [|reflexivity].
    rewrite <- (append_empty_r ws'). by rewrite trimStart_blank.
  - rewrite trimStart_stop by (rewrite append_cons; exact Hhead).
    unfold Js.trimEnd. rewrite rev_app.
    rewrite trimStart_blank by (by rewrite allChars_rev).
    by rewrite trimStart_stop, rev_rev.
Qed.

(** One piece of the value list, between single quotes. *)
Lemma parseValue_quoted ws s ws' :
  allChars Js.isSpace ws = true →
  allChars Js.isSpace ws' = true →
  parseValue (ws +:+ ("'" +:+ s +:+ "'") +:+ ws') = VString s.
Proof.
  intros Hws Hws'. unfold parseValue.
  assert (∀ q, Js.startsWith (Js.rev ("'" +:+ s +:+ "'")) (String "'" q)
               = Js.startsWith (Js.rev s +:+ "'") q) as Hrev.
  { intros q. rewrite !rev_app. change (Js.rev "'") with "'".
    norm_append. cbn [Js.startsWith]. by rewrite Ascii.eqb_refl. }
  rewrite trim_around; [|done|done|reflexivity|].
  2: { rewrite !rev_app. change (Js.rev "'") with "'". by norm_append. }
  assert (Js.endsWith ("'" +:+ s +:+ "'") "'" = true) as ->.
  { unfold Js.endsWith. change (Js.rev "'") with "'". rewrite Hrev.
    by destruct (Js.rev s +:+ "'"). }
  norm_append. cbn [Js.startsWith andb]. rewrite Ascii.eqb_refl.
  assert (Js.startsWith (s +:+ "'") "" = true) as -> by by destruct (s +:+ "'").
  cbn [andb]. unfold Js.slice_1_m1. cbn [String.length String.substring].
  rewrite length_append. cbn [String.length].
  replace (S (String.length s + 1) - 2) with (String.length s) by lia.
  by rewrite substring_prefix.
Qed.

Lemma splitOn_cons sep a :
  Js.splitOn sep a ≠ [].
Proof.
  destruct a as [|x a]; [done|]. cbn [Js.splitOn].
  destruct (Ascii.eqb x sep); [done|]. by destruct (Js.splitOn sep a).
Qed.

Lemma splitOn_comma sep a : ∀ b,
  Js.splitOn sep (a +:+ String sep b) = Js.splitOn sep a ++ Js.splitOn sep b.
Proof.
  induction a as [|x a IH]; intros b.
  - norm_append. cbn [Js.splitOn]. by rewrite Ascii.eqb_refl.
  - rewrite append_cons. cbn [Js.splitOn]. rewrite IH.
    destruct (Ascii.eqb x sep); [reflexivity|].
    pose proof (splitOn_cons sep a) as Hne.
    by destruct (Js.splitOn sep a).
Qed.

Lemma allChars_app p a b :
  allChars p (a +:+ b) = allChars p a && allChars p b.
Proof.
  induction a as [|x a IH]; [reflexivity|].
  rewrite append_cons. cbn [allChars]. by rewrite IH, andb_assoc.
Qed.

Lemma space_not_comma (w : ascii) :
  Js.isSpace w = true → negb (Ascii.eqb w ",") = true.
Proof. destruct w as [[] [] [] [] [] [] [] []]; vm_compute; congruence. Qed.

Lemma commaFree_quoted ws s ws' :
  commaFree s = true →
  allChars Js.isSpace ws = true →
  allChars Js.isSpace ws' = true →
  commaFree (ws +:+ ("'" +:+ s +:+ "'") +:+ ws') = true.
Proof.
  intros Hs Hws Hws'. unfold commaFree in *.
  assert (∀ t, allChars Js.isSpace t = true →
               allChars (fun c => negb (Ascii.eqb c ",")) t = true) as Hblank.
  { induction t as [|x t IH]; [done|]. cbn [allChars].
    intros [Hx Ht]%andb_true_iff. by rewrite (space_not_comma x Hx), IH. }
  rewrite !allChars_app, Hs, (Hblank ws Hws), (Hblank ws' Hws'). reflexivity.
Qed.

(** X9: in the value list of an INSERT, a value between single quotes
    that holds no comma, with any white space around the quotes, is
    stored as the text between the quotes, as it is written and wherever
    it stands in the list: digits stay text, and inner quotes and white
    space are kept.  (A comma between the quotes cuts the value in two,
    as every comma does.) *)
Theorem parseValues_quoted before ws s ws' after :
  commaFree s = true →
  allChars Js.isSpace ws = true →
  allChars Js.isSpace ws' = true →
  let quoted := ws +:+ ("'" +:+ s +:+ "'") +:+ ws' in
  parseValues quoted = [VString s]
  ∧ parseValues (before +:+ "," +:+ quoted) = parseValues before ++ [VString s]
  ∧ parseValues (quoted +:+ "," +:+ after) = VString s :: parseValues after
  ∧ parseValues (before +:+ "," +:+ quoted +:+ "," +:+ after)
    = parseValues before ++ VString s :: parseValues after.
Proof.
  intros Hs Hws Hws' quoted.
  assert (parseValues quoted = [VString s]) as Hq.
  { unfold parseValues. subst quoted.
    rewrite splitOn_sepFree by by apply commaFree_quoted.
    cbn [map]. by rewrite parseValue_quoted. }
  assert (∀ a b, parseValues (a +:+ "," +:+ b) = parseValues a ++ parseValues b)
    as Hcut.
  { intros a b. unfold parseValues. norm_append.
    by rewrite splitOn_comma, map_app. }
  split; [exact Hq|]. by rewrite !Hcut, !Hq.
Qed.

(** X10: every comma separates: the values of an INSERT and the column
    definitions of a CREATE TABLE are cut at each comma, also at a comma
    between quotes or between parentheses. *)
Theorem comma_always_separates a b :
  parseValues (a +:+ "," +:+ b) = parseValues a ++ parseValues b
  ∧ parseColumnDefinitions (a +:+ "," +:+ b)
    = parseColumnDefinitions a ++ parseColumnDefinitions b
  ∧ parseValues a ≠ []
  ∧ parseColumnDefinitions a ≠ [].
Proof.
  unfold parseValues, parseColumnDefinitions. norm_append.
  rewrite splitOn_comma, !map_app. repeat split.
  - pose proof (splitOn_cons "," a) as Hne. by destruct (Js.splitOn "," a).
  - pose proof (splitOn_cons "," a) as Hne. by destruct (Js.splitOn "," a).
Qed.
End Values.

(** ** Statements of the usual form, end to end *)

Section Statements.
Context `{JsRuntime}.
Import Re.

Ltac norm_append := rewrite ?append_cons, ?append_nil.
Tactic Notation "norm_append" "in" hyp(H) :=
  rewrite ?append_cons, ?append_nil in H.

Lemma toUpperCase_app a b :
  Js.toUpperCase (a +:+ b) = Js.toUpperCase a +:+ Js.toUpperCase b.
Proof.
  induction a as [|x a IH]; [reflexivity|].
  rewrite append_cons. cbn [Js.toUpperCase]. by rewrite IH.
Qed.

(** The statement kind is read off the first words. *)
Ltac classify_literal :=
  intros; unfold classify; rewrite toUpperCase_app;
  match goal with
  | |- context [Js.toUpperCase ?lit +:+ _] =>
      let v := eval vm_compute in (Js.toUpperCase lit) in
      change (Js.toUpperCase lit) with v
  end;
  norm_append; reflexivity.

Lemma classify_select rest : classify ("SELECT " +:+ rest) = KSelect.
Proof. classify_literal. Qed.

Lemma classify_create rest : classify ("CREATE TABLE " +:+ rest) = KCreateTable.
Proof. classify_literal. Qed.

Lemma classify_insert rest : classify ("INSERT INTO " +:+ rest) = KInsert.
Proof. classify_literal. Qed.

Lemma classify_delete rest : classify ("DELETE FROM " +:+ rest) = KDelete.
Proof. classify_literal. Qed.

Lemma classify_drop rest : classify ("DROP TABLE " +:+ rest) = KDropTable.
Proof. classify_literal. Qed.

Ltac kind K lem :=
  match goal with
  | |- context [classify ?s] =>
      replace (classify s) with K by (symmetry; apply lem)
  end.

Lemma isClause_truthy w (P : string → Prop) :
  (∀ w', w = Some w' → isClause w' = true) →
  truthy w = match w with Some _ => true | None => false end.
Proof.
  intros Hw. destruct w as [w|]; [|reflexivity].
  specialize (Hw w eq_refl). by destruct w.
Qed.

(** What the SELECT executor makes of [SELECT * FROM name], with a clause
    or without, on a table of the catalog. *)
Lemma executeSelect_star (cat : gmap string OracleTable) name w t :
  isIdentifier name = true →
  (∀ w', w = Some w' → isClause w' = true) →
  cat !! Js.toUpperCase name = Some t →
  executeSelect cat ("SELECT * FROM " +:+ name +:+ wherePart w)
  = (cat, Returned
       {| success := true; data := Some (rowsWhere w (tbl_data t));
          columns := Some (map col_name (tbl_columns t));
          rowCount := Some (length (rowsWhere w (tbl_data t)));
          executionTime := None;
          executionPlan :=
            Some (generateExecutionPlan "SELECT" name
                    (Z.of_nat (length (rowsWhere w (tbl_data t)))));
          message := None; error := None |}).
Proof.
  intros Hid Hw Ht.
  pose proof (reSelect_shape "*" name w eq_refl Hid Hw) as Hm.
  norm_append in Hm. unfold executeSelect. norm_append. rewrite Hm, Ht.
  rewrite (isClause_truthy w (fun _ => True) Hw).
  change (String.eqb (Js.trim "*") "*") with true. cbv iota.
  by destruct w.
Qed.

Lemma executeSelect_missing (cat : gmap string OracleTable) name w :
  isIdentifier name = true →
  (∀ w', w = Some w' → isClause w' = true) →
  cat !! Js.toUpperCase name = None →
  executeSelect cat ("SELECT * FROM " +:+ name +:+ wherePart w)
  = (cat, tableMissing name).
Proof.
  intros Hid Hw Ht.
  pose proof (reSelect_shape "*" name w eq_refl Hid Hw) as Hm.
  norm_append in Hm. unfold executeSelect. norm_append. by rewrite Hm, Ht.
Qed.

Lemma parseSQL_select_star env (cat : gmap string OracleTable) sql name w t :
  prepare sql = "SELECT * FROM " +:+ name +:+ wherePart w →
  isIdentifier name = true →
  (∀ w', w = Some w' → isClause w' = true) →
  cat !! Js.toUpperCase name = Some t →
  parseSQL env cat sql
  = (cat,
     {| success := true; data := Some (rowsWhere w (tbl_data t));
        columns := Some (map col_name (tbl_columns t));
        rowCount := Some (length (rowsWhere w (tbl_data t)));
        executionTime := Some (elapsed env);
        executionPlan :=
          Some (generateExecutionPlan "SELECT" name
                  (Z.of_nat (length (rowsWhere w (tbl_data t)))));
        message := None; error := None |}).
Proof.
  intros Hp Hid Hw Ht.
  unfold parseSQL, dispatch. rewrite Hp. kind KSelect classify_select.
  by rewrite (executeSelect_star cat name w t).
Qed.

(** X11: [SELECT * FROM name], with a WHERE clause or without, on a table
    of the catalog (letter case apart): the rows the clause holds for,
    all rows without a clause, in the order of the table, under the
    declared column names; the row count and the cardinality of the plan
    are their number, and the catalog is left as it was. *)
Theorem select_star_returns_rows env (cat : gmap string OracleTable)
    sql name w t :
  prepare sql = "SELECT * FROM " +:+ name +:+ wherePart w →
  isIdentifier name = true →
  (∀ w', w = Some w' → isClause w' = true) →
  cat !! Js.toUpperCase name = Some t →
  let rows := rowsWhere w (tbl_data t) in
  parseSQL env cat sql
  = (cat,
     {| success := true; data := Some rows;
        columns := Some (map col_name (tbl_columns t));
        rowCount := Some (length rows);
        executionTime := Some (elapsed env);
        executionPlan :=
          Some (generateExecutionPlan "SELECT" name (Z.of_nat (length rows)));
        message := None; error := None |})
  ∧ rows `sublist_of` tbl_data t
  ∧ (w = None → rows = tbl_data t)
  ∧ (∀ w' row, w = Some w' →
       row ∈ rows ↔ row ∈ tbl_data t ∧ evaluateWhereClause row w' = true).
Proof.
  intros Hp Hid Hw Ht rows. split; [by apply parseSQL_select_star|].
  subst rows. split; [destruct w; [apply sublist_filter|done]|].
  split; [by intros ->|].
  intros w' row ->. cbn [rowsWhere]. rewrite list_elem_of_filter. tauto.
Qed.

(** *** INSERT *)

Lemma executeInsert_values (cat : gmap string OracleTable) name vals t :
  isIdentifier name = true →
  oneLine vals = true →
  cat !! Js.toUpperCase name = Some t →
  executeInsert cat ("INSERT INTO " +:+ name +:+ " VALUES (" +:+ vals +:+ ")")
  = (<[Js.toUpperCase name :=
         withData t (tbl_data t ++
           [assignColumns ∅ (map col_name (tbl_columns t)) (parseValues vals)])]>
       cat,
     Returned (done_with "1 row created." 1)).
Proof.
  intros Hid Hvals Ht.
  pose proof (reInsert_shape name vals Hid Hvals) as Hm.
  norm_append in Hm. unfold executeInsert. norm_append. by rewrite Hm, Ht.
Qed.

(** X12: after a statement that reaches the dispatcher as [INSERT INTO name
    VALUES (vals)], on a table of the catalog, [SELECT * FROM name]
    returns the rows the table had, in their order, and then the new row;
    the count is one more.  The new row assigns by position, to the
    column names of the table, the values parsed from the list as the
    dispatched text has it, after the dialect rewrite. *)
Theorem insert_then_select env env' (cat : gmap string OracleTable)
    sql sql' name name' vals t :
  prepare sql = "INSERT INTO " +:+ name +:+ " VALUES (" +:+ vals +:+ ")" →
  prepare sql' = "SELECT * FROM " +:+ name' →
  isIdentifier name = true →
  isIdentifier name' = true →
  Js.toUpperCase name' = Js.toUpperCase name →
  oneLine vals = true →
  cat !! Js.toUpperCase name = Some t →
  let newRow :=
    assignColumns ∅ (map col_name (tbl_columns t)) (parseValues vals) in
  let inserted := parseSQL env cat sql in
  let selected := snd (parseSQL env' (fst inserted) sql') in
  snd inserted = withExecutionTime (done_with "1 row created." 1) (elapsed env)
  ∧ success selected = true
  ∧ data selected = Some (tbl_data t ++ [newRow])
  ∧ columns selected = Some (map col_name (tbl_columns t))
  ∧ rowCount selected = Some (S (length (tbl_data t))).
Proof.
  intros Hp Hp' Hid Hid' Hname Hvals Ht newRow inserted selected.
  assert (inserted
          = (<[Js.toUpperCase name := withData t (tbl_data t ++ [newRow])]> cat,
             withExecutionTime (done_with "1 row created." 1) (elapsed env)))
    as Hins.
  { subst inserted. apply parseSQL_returned. unfold dispatch. rewrite Hp.
    kind KInsert classify_insert. by apply executeInsert_values. }
  subst selected. rewrite Hins. cbn [fst snd]. split; [reflexivity|].
  rewrite (parseSQL_select_star env'
              (<[Js.toUpperCase name := withData t (tbl_data t ++ [newRow])]> cat)
              sql' name' None (withData t (tbl_data t ++ [newRow])))
    by first [done|by rewrite append_empty_r
             |rewrite Hname; apply lookup_insert_eq].
  cbn [snd success data columns rowCount rowsWhere withData tbl_data tbl_columns].
  repeat split. by rewrite length_app, Nat.add_1_r.
Qed.

(** *** DELETE *)

Lemma executeDelete_where (cat : gmap string OracleTable) name w t :
  isIdentifier name = true →
  (∀ w', w = Some w' → isClause w' = true) →
  cat !! Js.toUpperCase name = Some t →
  let n := length (tbl_data t) - length (rowsLeft w (tbl_data t)) in
  executeDelete cat ("DELETE FROM " +:+ name +:+ wherePart w)
  = (<[Js.toUpperCase name := withData t (rowsLeft w (tbl_data t))]> cat,
     Returned (done_with (Js.ofNat n +:+ " row" +:+ plural n +:+ " deleted.") n)).
Proof.
  intros Hid Hw Ht n. subst n.
  pose proof (reDelete_shape name w Hid Hw) as Hm.
  norm_append in Hm. unfold executeDelete. norm_append. rewrite Hm, Ht.
  rewrite (isClause_truthy w (fun _ => True) Hw). by destruct w.
Qed.

(** The rows a clause selects and the rows it leaves make up the table. *)
Lemma rowsWhere_rowsLeft w (rows : list (gmap string value)) :
  length (rowsWhere w rows) + length (rowsLeft w rows) = length rows.
Proof.
  destruct w as [w|]; cbn [rowsWhere rowsLeft]; [|simpl; lia].
  induction rows as [|row rows IH]; [reflexivity|].
  rewrite !filter_cons.
  destruct (evaluateWhereClause row w) eqn:Hrow;
    repeat case_decide; try done; simpl; lia.
Qed.

Lemma rowsWhere_of_rowsLeft w (rows : list (gmap string value)) :
  is_Some w → rowsWhere w (rowsLeft w rows) = [].
Proof.
  intros [w' ->]. cbn [rowsWhere rowsLeft].
  induction rows as [|row rows IH]; [reflexivity|].
  rewrite filter_cons. case_decide as Hrow; [|exact IH].
  rewrite filter_cons, IH. case_decide; [congruence|reflexivity].
Qed.

(** X13: [DELETE FROM name], with a WHERE clause or without, removes the
    rows the SELECT with the same clause returns and reports their
    number: the two counts are equal, the rows left and the rows removed
    make up the table, and the rows left keep their order. *)
Theorem delete_reports_selected env env' (cat : gmap string OracleTable)
    sql sql' name w t :
  prepare sql = "DELETE FROM " +:+ name +:+ wherePart w →
  prepare sql' = "SELECT * FROM " +:+ name +:+ wherePart w →
  isIdentifier name = true →
  (∀ w', w = Some w' → isClause w' = true) →
  cat !! Js.toUpperCase name = Some t →
  let n := length (rowsWhere w (tbl_data t)) in
  parseSQL env cat sql
  = (<[Js.toUpperCase name := withData t (rowsLeft w (tbl_data t))]> cat,
     withExecutionTime
       (done_with (Js.ofNat n +:+ " row" +:+ plural n +:+ " deleted.") n)
       (elapsed env))
  ∧ rowCount (snd (parseSQL env' cat sql')) = Some n
  ∧ n + length (rowsLeft w (tbl_data t)) = length (tbl_data t)
  ∧ rowsLeft w (tbl_data t) `sublist_of` tbl_data t.
Proof.
  intros Hp Hp' Hid Hw Ht n.
  pose proof (rowsWhere_rowsLeft w (tbl_data t)) as Hlen. fold n in Hlen.
  split; [|split; [|split]].
  - apply parseSQL_returned. unfold dispatch. rewrite Hp.
    kind KDelete classify_delete.
    rewrite (executeDelete_where cat name w t) by done.
    by replace (length (tbl_data t) - length (rowsLeft w (tbl_data t)))
      with n by lia.
  - by rewrite (parseSQL_select_star env' cat sql' name w t).
  - exact Hlen.
  - destruct w; [apply sublist_filter|apply sublist_nil_l].
Qed.

(** X14: after [DELETE FROM name WHERE w], the SELECT with the same clause
    finds no row, and [SELECT * FROM name] returns the rows for which
    the clause did not hold. *)
Theorem delete_then_select env env1 env2 (cat : gmap string OracleTable)
    sql sql1 sql2 name w t :
  prepare sql = "DELETE FROM " +:+ name +:+ " WHERE " +:+ w →
  prepare sql1 = "SELECT * FROM " +:+ name +:+ " WHERE " +:+ w →
  prepare sql2 = "SELECT * FROM " +:+ name →
  isIdentifier name = true →
  isClause w = true →
  cat !! Js.toUpperCase name = Some t →
  let cat' := fst (parseSQL env cat sql) in
  data (snd (parseSQL env1 cat' sql1)) = Some []
  ∧ rowCount (snd (parseSQL env1 cat' sql1)) = Some 0
  ∧ data (snd (parseSQL env2 cat' sql2))
    = Some (filter (fun row => evaluateWhereClause row w = false) (tbl_data t)).
Proof.
  intros Hp Hp1 Hp2 Hid Hw Ht cat'.
  change (" WHERE " +:+ w) with (wherePart (Some w)) in Hp, Hp1.
  assert (∀ w', Some w = Some w' → isClause w' = true) as Hw'.
  { by intros w' [= <-]. }
  assert (cat' = <[Js.toUpperCase name := withData t (rowsLeft (Some w) (tbl_data t))]> cat)
    as ->.
  { subst cat'. rewrite parseSQL_catalog, Hp. unfold dispatch.
    kind KDelete classify_delete.
    by rewrite (executeDelete_where cat name (Some w) t). }
  set (t' := withData t (rowsLeft (Some w) (tbl_data t))).
  rewrite (parseSQL_select_star env1 (<[Js.toUpperCase name := t']> cat)
              sql1 name (Some w) t')
    by first [done|apply lookup_insert_eq].
  rewrite (parseSQL_select_star env2 (<[Js.toUpperCase name := t']> cat)
              sql2 name None t')
    by first [done|by rewrite append_empty_r|apply lookup_insert_eq].
  cbn [snd data rowCount]. subst t'. cbn [withData tbl_data].
  rewrite rowsWhere_of_rowsLeft by done. done.
Qed.

(** *** CREATE TABLE and DROP TABLE *)

Lemma executeCreateTable_new env (cat : gmap string OracleTable) name defs :
  isIdentifier name = true →
  oneLine defs = true →
  cat !! Js.toUpperCase name = None →
  executeCreateTable env cat ("CREATE TABLE " +:+ name +:+ " (" +:+ defs +:+ ")")
  = (<[Js.toUpperCase name :=
         {| tbl_name := Js.toUpperCase name;
            tbl_columns := parseColumnDefinitions defs;
            tbl_data := []; tbl_indexes := []; tbl_constraints := [];
            tbl_created := nowISO env |}]> cat,
     Returned (done_with ("Table " +:+ name +:+ " created.") 0)).
Proof.
  intros Hid Hdefs Ht.
  pose proof (reCreateTable_shape name defs Hid Hdefs) as Hm.
  norm_append in Hm. unfold executeCreateTable. norm_append. by rewrite Hm, Ht.
Qed.

Lemma executeDropTable_name (cat : gmap string OracleTable) name :
  isIdentifier name = true →
  executeDropTable cat ("DROP TABLE " +:+ name)
  = match cat !! Js.toUpperCase name with
    | Some _ =>
        (delete (Js.toUpperCase name) cat,
         Returned (done_with ("Table " +:+ Js.toUpperCase name +:+ " dropped.") 0))
    | None => (cat, tableMissing (Js.toUpperCase name))
    end.
Proof.
  intros Hid.
  pose proof (reDropTable_shape name Hid) as Hm.
  norm_append in Hm. unfold executeDropTable. norm_append. by rewrite Hm.
Qed.

Lemma parseSQL_create env (cat : gmap string OracleTable) sql name defs :
  prepare sql = "CREATE TABLE " +:+ name +:+ " (" +:+ defs +:+ ")" →
  isIdentifier name = true →
  oneLine defs = true →
  cat !! Js.toUpperCase name = None →
  parseSQL env cat sql
  = (<[Js.toUpperCase name :=
         {| tbl_name := Js.toUpperCase name;
            tbl_columns := parseColumnDefinitions defs;
            tbl_data := []; tbl_indexes := []; tbl_constraints := [];
            tbl_created := nowISO env |}]> cat,
     withExecutionTime (done_with ("Table " +:+ name +:+ " created.") 0)
       (elapsed env)).
Proof.
  intros Hp Hid Hdefs Ht. apply parseSQL_returned. unfold dispatch. rewrite Hp.
  kind KCreateTable classify_create. by apply executeCreateTable_new.
Qed.

(** X15: after a statement that reaches the dispatcher as [CREATE TABLE
    name (defs)], on a free name, [SELECT * FROM name] finds the table
    there and empty, with one column for each piece of [defs] cut at
    every comma, named by the first word of the piece in upper case;
    [defs] is the column list as the dispatched text has it, after the
    dialect rewrite. *)
Theorem create_then_select env env' (cat : gmap string OracleTable)
    sql sql' name name' defs :
  prepare sql = "CREATE TABLE " +:+ name +:+ " (" +:+ defs +:+ ")" →
  prepare sql' = "SELECT * FROM " +:+ name' →
  isIdentifier name = true →
  isIdentifier name' = true →
  Js.toUpperCase name' = Js.toUpperCase name →
  oneLine defs = true →
  cat !! Js.toUpperCase name = None →
  let created := parseSQL env cat sql in
  let selected := snd (parseSQL env' (fst created) sql') in
  snd created
  = withExecutionTime (done_with ("Table " +:+ name +:+ " created.") 0)
      (elapsed env)
  ∧ success selected = true
  ∧ data selected = Some []
  ∧ rowCount selected = Some 0
  ∧ columns selected
    = Some (map (fun def => Js.toUpperCase (default "" (token 0 def)))
              (Js.splitOn "," defs)).
Proof.
  intros Hp Hp' Hid Hid' Hname Hdefs Ht created selected.
  subst selected created. rewrite (parseSQL_create env cat sql name defs) by done.
  cbn [fst snd]. split; [reflexivity|].
  match goal with |- context [parseSQL env' (<[_ := ?t']> cat) sql'] =>
    rewrite (parseSQL_select_star env' (<[Js.toUpperCase name := t']> cat)
                sql' name' None t')
      by first [done|by rewrite append_empty_r
               |rewrite Hname; apply lookup_insert_eq]
  end.
  cbn [snd success data columns rowCount rowsWhere tbl_data tbl_columns].
  repeat split. unfold parseColumnDefinitions. by rewrite map_map.
Qed.

(** X16: [CREATE TABLE name (defs)] on a free name, then [DROP TABLE name]
    (letter case apart): both succeed and the catalog is again what it
    was before the two. *)
Theorem create_then_drop env env' (cat : gmap string OracleTable)
    sql sql' name name' defs :
  prepare sql = "CREATE TABLE " +:+ name +:+ " (" +:+ defs +:+ ")" →
  prepare sql' = "DROP TABLE " +:+ name' →
  isIdentifier name = true →
  isIdentifier name' = true →
  Js.toUpperCase name' = Js.toUpperCase name →
  oneLine defs = true →
  cat !! Js.toUpperCase name = None →
  let created := parseSQL env cat sql in
  let dropped := parseSQL env' (fst created) sql' in
  success (snd created) = true
  ∧ snd dropped
    = withExecutionTime
        (done_with ("Table " +:+ Js.toUpperCase name +:+ " dropped.") 0)
        (elapsed env')
  ∧ fst dropped = cat.
Proof.
  intros Hp Hp' Hid Hid' Hname Hdefs Ht created dropped.
  subst dropped created. rewrite (parseSQL_create env cat sql name defs) by done.
  cbn [fst snd]. split; [reflexivity|].
  match goal with |- context [parseSQL env' ?c sql'] => set (cat1 := c) end.
  assert (parseSQL env' cat1 sql'
          = (delete (Js.toUpperCase name) cat1,
             withExecutionTime
               (done_with ("Table " +:+ Js.toUpperCase name +:+ " dropped.") 0)
               (elapsed env'))) as ->.
  { apply parseSQL_returned. unfold dispatch. rewrite Hp'.
    kind KDropTable classify_drop. rewrite executeDropTable_name by done.
    rewrite Hname. subst cat1. by rewrite lookup_insert_eq. }
  cbn [fst snd]. split; [reflexivity|].
  subst cat1. by apply delete_insert_id.
Qed.

(** X17: after [DROP TABLE name] on a table of the catalog the table is
    gone: the statement succeeds, and [SELECT * FROM name] is then
    answered ORA-00942 with the name as the SELECT wrote it. *)
Theorem drop_then_select env env' (cat : gmap string OracleTable)
    sql sql' name name' w :
  prepare sql = "DROP TABLE " +:+ name →
  prepare sql' = "SELECT * FROM " +:+ name' +:+ wherePart w →
  isIdentifier name = true →
  isIdentifier name' = true →
  Js.toUpperCase name' = Js.toUpperCase name →
  (∀ w', w = Some w' → isClause w' = true) →
  is_Some (cat !! Js.toUpperCase name) →
  let dropped := parseSQL env cat sql in
  dropped
  = (delete (Js.toUpperCase name) cat,
     withExecutionTime
       (done_with ("Table " +:+ Js.toUpperCase name +:+ " dropped.") 0)
       (elapsed env))
  ∧ parseSQL env' (fst dropped) sql'
    = (fst dropped,
       withExecutionTime
         (failed ("ORA-00942: table or view does not exist: " +:+ name'))
         (elapsed env')).
Proof.
  intros Hp Hp' Hid Hid' Hname Hw [t Ht] dropped.
  assert (dropped
          = (delete (Js.toUpperCase name) cat,
             withExecutionTime
               (done_with ("Table " +:+ Js.toUpperCase name +:+ " dropped.") 0)
               (elapsed env))) as Hd.
  { apply parseSQL_returned. unfold dispatch. rewrite Hp.
    kind KDropTable classify_drop. rewrite executeDropTable_name by done.
    by rewrite Ht. }
  rewrite Hd. split; [reflexivity|]. cbn [fst].
  apply parseSQL_returned. unfold dispatch. rewrite Hp'.
  kind KSelect classify_select.
  apply executeSelect_missing; [done..|].
  rewrite Hname. apply lookup_delete_eq.
Qed.

(** *** SELECT with a column list *)

Lemma word_not_space x : Js.isWord x = true → Js.isSpace x = false.
Proof.
  intros Hx. destruct (Js.isSpace x) eqn:Hs; [|reflexivity].
  by rewrite (space_not_word x Hs) in Hx.
Qed.

Lemma word_not_comma x : Js.isWord x = true → Ascii.eqb x "," = false.
Proof.
  intros Hx. destruct (Ascii.eqb_spec x ",") as [->|]; [|reflexivity].
  by vm_compute in Hx.
Qed.

Lemma isIdentifier_chars (p : ascii → bool) c :
  (∀ x, Js.isWord x = true → p x = true) →
  isIdentifier c = true → allChars p c = true.
Proof.
  intros Hp Hc. destruct c as [|x c]; [done|].
  change (allChars Js.isWord (String x c) = true) in Hc.
  revert Hc. by apply allChars_impl.
Qed.

Lemma allChars_join p sep xs :
  allChars p sep = true →
  Forall (fun x => allChars p x = true) xs →
  allChars p (Js.join sep xs) = true.
Proof.
  intros Hsep. induction 1 as [|x xs Hx Hxs IH]; [reflexivity|].
  destruct xs as [|y xs]; [exact Hx|].
  change (Js.join sep (x :: y :: xs)) with (x +:+ sep +:+ Js.join sep (y :: xs)).
  by rewrite !allChars_app, Hx, Hsep, IH.
Qed.

Lemma inherited_elem_of key :
  inherited key = bool_decide (key ∈ objectPrototype).
Proof.
  unfold inherited. generalize objectPrototype. intros names.
  induction names as [|name names IH]; [reflexivity|].
  cbn [existsb]. rewrite IH.
  destruct (String.eqb_spec key name) as [->|Hne].
  - symmetry. apply bool_decide_eq_true. apply list_elem_of_here.
  - cbn [orb]. apply bool_decide_ext. rewrite elem_of_cons.
    split; [by right|by intros [?|?]].
Qed.

(** [trim] leaves a text without white space as it is. *)
Lemma trim_compact s :
  allChars (fun c => negb (Js.isSpace c)) s = true → Js.trim s = s.
Proof.
  intros Hs.
  assert (∀ t, allChars (fun c => negb (Js.isSpace c)) t = true →
               stopsAt Js.isSpace t = true) as Hstop.
  { intros [|x t]; [done|]. cbn [allChars stopsAt]. by intros [? _]%andb_true_iff. }
  rewrite <- (append_empty_r s) at 1.
  apply (trim_around "" s ""); [done|done|by apply Hstop|].
  apply Hstop. by rewrite allChars_rev.
Qed.

(** The row of a projection holds the requested columns, but for
    [__proto__], and no other. *)
Lemma projectRow_lookup cols (row : gmap string value) key :
  projectRow cols row !! key
  = if decide (key ∈ cols ∧ key ≠ "__proto__")
    then Some (rowGet row key) else None.
Proof.
  unfold projectRow.
  enough (∀ acc : gmap string value,
    foldl (fun newRow col => rowSet newRow col (rowGet row col)) acc cols !! key
    = if decide (key ∈ cols ∧ key ≠ "__proto__")
      then Some (rowGet row key) else acc !! key) as Hacc.
  { rewrite Hacc. by rewrite lookup_empty. }
  induction cols as [|col cols IH]; intros acc.
  - cbn [foldl]. rewrite decide_False; [done|].
    intros [Hin _]. by apply not_elem_of_nil in Hin.
  - cbn [foldl]. rewrite IH.
    destruct (decide (key ∈ cols ∧ key ≠ "__proto__")) as [[Hin Hkey]|Hnot].
    + rewrite decide_True; [done|]. split; [by apply list_elem_of_further|done].
    + destruct (decide (key = col)) as [->|Hne].
      * destruct (decide (col = "__proto__")) as [->|Hkey].
        -- rewrite rowSet_proto. rewrite decide_False; [done|]. by intros [_ ?].
        -- rewrite rowSet_eq by done. rewrite decide_True; [done|].
           split; [apply list_elem_of_here|done].
      * rewrite rowSet_other by done.
        rewrite decide_False; [done|].
        intros [[?|?]%elem_of_cons ?]; [done|]. by apply Hnot.
Qed.

(** X18: a statement that reaches the dispatcher as [SELECT c1,...,cn FROM
    name], with a WHERE clause or without: the rows the clause holds
    for, each cut down to the requested columns, which come back named
    as the dispatched text has them.  A returned row holds under each of
    these names but [__proto__] what the stored row reads under that
    very name, letter case included: its own value, else the member it
    inherits from [Object.prototype], else [undefined]; it holds nothing
    under [__proto__] and nothing under any other name. *)
Theorem select_columns_projects env (cat : gmap string OracleTable)
    sql cols name w t :
  prepare sql
  = "SELECT " +:+ Js.join "," cols +:+ " FROM " +:+ name +:+ wherePart w →
  cols ≠ [] →
  Forall (fun col => isIdentifier col = true) cols →
  isIdentifier name = true →
  (∀ w', w = Some w' → isClause w' = true) →
  cat !! Js.toUpperCase name = Some t →
  let result := snd (parseSQL env cat sql) in
  success result = true
  ∧ columns result = Some cols
  ∧ data result = Some (map (projectRow cols) (rowsWhere w (tbl_data t)))
  ∧ rowCount result = Some (length (rowsWhere w (tbl_data t)))
  ∧ (∀ row key,
       projectRow cols row !! key
       = if decide (key ∈ cols ∧ key ≠ "__proto__")
         then Some (rowGet row key) else None)
  ∧ (∀ (row : gmap string value) key v, row !! key = Some v → rowGet row key = v)
  ∧ (∀ (row : gmap string value) key, row !! key = None →
       rowGet row key = if bool_decide (key ∈ objectPrototype)
                        then VMember key else VUndefined).
Proof.
  intros Hp Hne Hcols Hid Hw Ht result.
  assert (allChars (fun c => negb (Js.isSpace c)) (Js.join "," cols) = true)
    as Hcompact.
  { apply allChars_join; [reflexivity|].
    eapply Forall_impl; [exact Hcols|]. intros col Hcol.
    apply isIdentifier_chars; [|exact Hcol].
    intros x Hx. by rewrite (word_not_space x Hx). }
  assert (∃ x rest, Js.join "," cols = String x rest ∧ Js.isWord x = true)
    as (x & rest & Hjoin & Hx).
  { destruct cols as [|col cols]; [done|].
    apply Forall_cons in Hcols as [Hcol _].
    destruct col as [|x col]; [done|].
    cbn [isIdentifier] in Hcol. apply andb_true_iff in Hcol as [Hx _].
    destruct cols; [by eexists _, _|].
    change (Js.join "," (String x col :: s :: cols))
      with (String x col +:+ "," +:+ Js.join "," (s :: cols)).
    rewrite append_cons. by eexists _, _. }
  assert (isCompact (Js.join "," cols) = true) as Hcomp.
  { unfold isCompact. by rewrite Hjoin, <- Hjoin. }
  pose proof (reSelect_shape (Js.join "," cols) name w Hcomp Hid Hw) as Hm.
  assert (String.eqb (Js.trim (Js.join "," cols)) "*" = false) as Hstar.
  { rewrite trim_compact by done. rewrite Hjoin. cbn [String.eqb].
    destruct (Ascii.eqb_spec x "*") as [->|]; [|reflexivity].
    by vm_compute in Hx. }
  assert (map Js.trim (Js.splitOn "," (Js.join "," cols)) = cols) as Hsplit.
  { rewrite splitOn_join; [|done|].
    - rewrite <- (map_id cols) at 2. apply map_ext_Forall.
      eapply Forall_impl; [exact Hcols|]. intros col Hcol.
      apply trim_compact. apply isIdentifier_chars; [|exact Hcol].
      intros y Hy. by rewrite (word_not_space y Hy).
    - eapply Forall_impl; [exact Hcols|]. intros col Hcol.
      apply isIdentifier_chars; [|exact Hcol].
      intros y Hy. by rewrite (word_not_comma y Hy). }
  assert (parseSQL env cat sql
          = (cat, withExecutionTime
               {| success := true;
                  data := Some (map (projectRow cols) (rowsWhere w (tbl_data t)));
                  columns := Some cols;
                  rowCount :=
                    Some (length (map (projectRow cols) (rowsWhere w (tbl_data t))));
                  executionTime := None;
                  executionPlan :=
                    Some (generateExecutionPlan "SELECT" name
                            (Z.of_nat (length (rowsWhere w (tbl_data t)))));
                  message := None; error := None |} (elapsed env))) as Hrun.
  { apply parseSQL_returned. unfold dispatch. rewrite Hp.
    kind KSelect classify_select.
    unfold executeSelect. rewrite Hm, Ht, Hstar, Hsplit.
    rewrite (isClause_truthy w (fun _ => True) Hw). by destruct w. }
  subst result. rewrite Hrun. cbn [snd withExecutionTime success columns data rowCount].
  rewrite length_map. repeat split.
  - intros row key. apply projectRow_lookup.
  - intros row key v Hv. unfold rowGet. by rewrite Hv.
  - intros row key Hv. unfold rowGet. rewrite Hv. by rewrite inherited_elem_of.
Qed.

(** *** CREATE INDEX *)

Lemma classify_index rest : classify ("CREATE INDEX " +:+ rest) = KCreateIndex.
Proof. classify_literal. Qed.

(** X19: a statement that reaches the dispatcher as [CREATE INDEX ix ON
    name (cols)], on a table of the catalog, adds one index at the end of
    the indexes of the table and touches nothing else of it.  The index
    has the name [ix] in upper case and the pieces of [cols] cut at every
    comma as columns, both as the dispatched text has them, after the
    dialect rewrite; it is marked unique exactly when the word UNIQUE
    occurs somewhere in the dispatched text, letter case apart. *)
Theorem create_index_appends env (cat : gmap string OracleTable)
    sql ix name cols t :
  prepare sql
  = "CREATE INDEX " +:+ ix +:+ " ON " +:+ name +:+ " (" +:+ cols +:+ ")" →
  isIdentifier ix = true →
  isIdentifier name = true →
  allChars (fun c => negb (Js.isLineTerminator c) && negb (Ascii.eqb c ")"))
    cols = true →
  cat !! Js.toUpperCase name = Some t →
  let index :=
    {| idx_name := Js.toUpperCase ix;
       idx_columns := map Js.trim (Js.splitOn "," cols);
       idx_unique := Js.includes (Js.toUpperCase (prepare sql)) "UNIQUE";
       idx_type := BTREE |} in
  parseSQL env cat sql
  = (<[Js.toUpperCase name := withIndexes t (tbl_indexes t ++ [index])]> cat,
     withExecutionTime (done_with ("Index " +:+ ix +:+ " created.") 0)
       (elapsed env))
  ∧ tbl_data (withIndexes t (tbl_indexes t ++ [index])) = tbl_data t
  ∧ tbl_columns (withIndexes t (tbl_indexes t ++ [index])) = tbl_columns t.
Proof.
  intros Hp Hix Hid Hcols Ht index. split; [|done].
  pose proof (reCreateIndex_shape ix name cols Hix Hid Hcols) as Hm.
  apply parseSQL_returned. unfold dispatch. subst index. rewrite Hp.
  kind KCreateIndex classify_index.
  unfold executeCreateIndex. by rewrite Hm, Ht.
Qed.
End Statements.

(** ** The UPDATE executor, called on any statement *)

Section UpdateExecutor.
Context `{JsRuntime}.
Import Re.

Ltac norm_append := rewrite ?append_cons, ?append_nil.

(** A pattern hands to its continuation the captures it received, but
    for its own groups. *)
Lemma run_frame {R} ci r : ∀ (k : @cont R) i s c x,
  run ci r k i s c = Some x →
  ∃ i' s' c',
    k i' s' c' = Some x
    ∧ length c' = length c
    ∧ ∀ n, n ∉ groupsOf r → c' !! n = c !! n.
Proof.
  induction r as [|cl|g cl|r1 IH1 r2 IH2|r1 IH1 r2 IH2|r1 IH1|n r1 IH1| |];
    intros k i s c x Hrun; cbn [run groupsOf] in *.
  - by eexists _, _, _.
  - destruct s as [|a s]; [done|]. destruct (accepts ci cl a); [|done].
    by eexists _, _, _.
  - apply star_result in Hrun as (pre & rest & _ & _ & Hk). by eexists _, _, _.
  - apply IH1 in Hrun as (i1 & s1 & c1 & Hrun & Hlen1 & Hc1).
    apply IH2 in Hrun as (i2 & s2 & c2 & Hk & Hlen2 & Hc2).
    exists i2, s2, c2. split; [exact Hk|]. split; [congruence|].
    intros n Hn. rewrite not_elem_of_app in Hn. destruct Hn as [Hn1 Hn2].
    rewrite (Hc2 n Hn2). by apply Hc1.
  - destruct (run ci r1 k i s c) eqn:Hr1.
    + injection Hrun as ->.
      apply IH1 in Hr1 as (i1 & s1 & c1 & Hk & Hlen1 & Hc1).
      exists i1, s1, c1. split; [exact Hk|]. split; [exact Hlen1|].
      intros n Hn. rewrite not_elem_of_app in Hn. apply Hc1, Hn.
    + apply IH2 in Hrun as (i2 & s2 & c2 & Hk & Hlen2 & Hc2).
      exists i2, s2, c2. split; [exact Hk|]. split; [exact Hlen2|].
      intros n Hn. rewrite not_elem_of_app in Hn. apply Hc2, Hn.
  - destruct (run ci r1 k i s c) eqn:Hr1.
    + injection Hrun as ->. by apply IH1 in Hr1.
    + by eexists _, _, _.
  - apply IH1 in Hrun as (i1 & s1 & c1 & Hk & Hlen1 & Hc1).
    eexists _, _, _. split; [exact Hk|].
    split; [etrans; [apply length_insert|exact Hlen1]|].
    intros m Hm. rewrite not_elem_of_cons in Hm. destruct Hm as [Hne Hm].
    etrans; [by apply list_lookup_insert_ne|by apply Hc1].
  - destruct (i =? 0); [|done]. by eexists _, _, _.
  - destruct s; [|done]. by eexists _, _, _.
Qed.

(** A text is a run of white space and a rest that does not start with
    white space. *)
Lemma span_space ci s :
  ∃ pre rest, s = pre +:+ rest
    ∧ allChars (accepts ci Space) pre = true
    ∧ stopsAt (accepts ci Space) rest = true.
Proof.
  induction s as [|a s (pre & rest & -> & Hpre & Hrest)].
  - by exists "", "".
  - destruct (accepts ci Space a) eqn:Ha.
    + exists (String a pre), rest. cbn [allChars]. by rewrite Ha.
    + exists "", (String a (pre +:+ rest)). cbn [stopsAt]. by rewrite Ha.
Qed.

(** The end of [reUpdate], after the white space that follows SET: the
    lazy group stops at once, the clause that may follow cannot start,
    so the SET clause is empty and there is no WHERE clause. *)
Lemma reUpdate_end ci i rest c :
  stopsAt (accepts ci Space) rest = true →
  run ci (Seq (Group 2 (Star false Dot)) (optWhere 3)) final i rest c
  = Some (i, <[2 := Some ""]> c).
Proof.
  intros Hstop. cbn [run].
  assert (run ci (optWhere 3) final i rest
            (<[2 := Some (String.substring 0 (i - i) rest)]> c)
          = Some (i, <[2 := Some ""]> c)) as Hk.
  { unfold optWhere. rewrite run_Opt_none.
    - unfold final. by rewrite Nat.sub_diag, substring_0_0.
    - rewrite run_Cat. by apply run_Plus_none. }
  destruct rest; cbn [star]; by rewrite Hk.
Qed.

Lemma run_Plus_cons {R} ci cl (k : @cont R) a i s c :
  run ci (Plus cl) k i (String a s) c
  = if accepts ci cl a then star ci true cl k (S i) s c else None.
Proof. reflexivity. Qed.

Lemma search_result re s : ∀ i b e c,
  search re i s = Some (b, e, c) → ∃ s', matchHere re b s' = Some (e, c).
Proof.
  induction s as [|a s IH]; intros i b e c Hs; cbn [search] in Hs.
  - destruct (matchHere re i "") as [[e' c']|] eqn:Hm; [|done].
    injection Hs as <- <- <-. by eexists.
  - destruct (matchHere re i (String a s)) as [[e' c']|] eqn:Hm.
    + injection Hs as <- <- <-. by eexists.
    + by apply IH in Hs.
Qed.

(** Whatever the statement, [reUpdate] captures an empty SET clause and
    no WHERE clause. *)
Lemma reUpdate_captures sql m :
  match_ sql reUpdate = Some m →
  ∃ whole name, m = [whole; name; Some ""; None].
Proof.
  unfold match_. destruct (search reUpdate 0 sql) as [[[b e] c]|] eqn:Hs; [|done].
  intros [= <-]. apply search_result in Hs as [s Hm].
  unfold matchHere in Hm.
  cbn [reUpdate rx source ignoreCase groups replicate] in Hm.
  rewrite run_Cat in Hm.
  apply run_frame in Hm as (i1 & s1 & c1 & Hm & Hl1 & Hc1).
  rewrite run_Cat in Hm.
  apply run_frame in Hm as (i2 & s2 & c2 & Hm & Hl2 & Hc2).
  rewrite run_Cat in Hm.
  apply run_frame in Hm as (i3 & s3 & c3 & Hm & Hl3 & Hc3).
  rewrite run_Cat in Hm.
  apply run_frame in Hm as (i4 & s4 & c4 & Hm & Hl4 & Hc4).
  rewrite run_Cat in Hm.
  apply run_frame in Hm as (i5 & s5 & c5 & Hm & Hl5 & Hc5).
  assert (length c5 = 4) as Hlen by (rewrite Hl5, Hl4, Hl3, Hl2, Hl1; reflexivity).
  assert (c5 !! 3 = Some None) as Hthree.
  { rewrite Hc5, Hc4, Hc3, Hc2, Hc1; [reflexivity|..];
      cbn [groupsOf Plus Str app]; rewrite ?elem_of_cons, ?elem_of_nil;
      try (intros [?|?]; done); by intros []. }
  rewrite run_Cat in Hm. cbn [Cat] in Hm.
  destruct s5 as [|a s5]; [done|]. rewrite run_Plus_cons in Hm.
  destruct (accepts true Space a); [|done].
  destruct (span_space true s5) as (pre & rest & -> & Hpre & Hrest).
  pose proof (reUpdate_end true (S i5 + String.length pre) rest c5 Hrest) as Hend.
  apply (star_greedy_run true Space _ pre rest (S i5) c5 _ Hpre Hrest) in Hend.
  assert (Some (e, c) = Some (S i5 + String.length pre, <[2 := Some ""]> c5))
    as [= -> ->] by (rewrite <- Hm; exact Hend).
  destruct c5 as [|g0 [|g1 [|g2 [|g3 [|]]]]]; try done.
  injection Hthree as ->. by eexists _, _.
Qed.

Lemma updateRows_empty (rows : list (gmap string value)) :
  updateRows "" None rows
  = match rows with
    | [] => ([], 0, None)
    | _ :: _ => (rows, 0, Some (cannotRead "replace"))
    end.
Proof. by destruct rows. Qed.

Lemma withData_same (t : OracleTable) : withData t (tbl_data t) = t.
Proof. by destruct t. Qed.

(** X20: the UPDATE executor, on any statement and any catalog, changes no
    row: its pattern always hands it an empty SET clause and no WHERE
    clause, so on a table with rows the first assignment raises the
    TypeError, and on a table without rows it reports "0 rows updated.";
    the catalog is after the call what it was before. *)
Theorem executeUpdate_never_updates (cat : gmap string OracleTable) sql :
  fst (executeUpdate cat sql) = cat
  ∧ (∀ r, snd (executeUpdate cat sql) = Returned r → success r = true →
       r = done_with "0 rows updated." 0)
  ∧ (∀ whole name rest t,
       match_ sql reUpdate = Some (whole :: Some name :: rest) →
       cat !! Js.toUpperCase name = Some t →
       tbl_data t ≠ [] →
       snd (executeUpdate cat sql) = Thrown (cannotRead "replace")).
Proof.
  unfold executeUpdate.
  destruct (match_ sql reUpdate) as [m|] eqn:Hm; cbn [fst snd].
  2: { split; [reflexivity|]. split; [|done]. by intros r [= <-]. }
  destruct (reUpdate_captures sql m Hm) as (whole & name & ->).
  destruct name as [name|]; cbn [fst snd].
  2: { split; [reflexivity|]. split; [done|].
       intros ???? Heq. discriminate Heq. }
  destruct (cat !! Js.toUpperCase name) as [t|] eqn:Ht; cbn [fst snd].
  2: { split; [reflexivity|]. split; [by intros r [= <-]|].
       intros ? ? ? t' [= <- <- <-] Ht'. congruence. }
  rewrite updateRows_empty.
  assert (<[Js.toUpperCase name := withData t (tbl_data t)]> cat = cat) as Hsame.
  { rewrite withData_same. by apply insert_id. }
  destruct (tbl_data t) as [|row rows] eqn:Hrows; cbn [fst snd].
  - split; [exact Hsame|]. split; [by intros r [= <-]|].
    intros ? ? ? t' [= <- <- <-] Ht'. congruence.
  - split; [exact Hsame|]. split; done.
Qed.
End UpdateExecutor.

(** ** Statements the dialect rewrite leaves alone *)

Section PlainStatements.
Import Re.

Ltac norm_append := rewrite ?append_cons, ?append_nil.

Lemma folded_cons ci c s :
  folded ci (String c s)
  = String (if ci then Js.upperChar c else c) (folded ci s).
Proof. by destruct ci. Qed.

(** A keyword fails on a text that does not start with it. *)
Lemma run_Str_fail {R} ci kw : ∀ (k : @cont R) i s c,
  folded ci kw = kw →
  Js.startsWith (folded ci s) kw = false →
  run ci (Str kw) k i s c = None.
Proof.
  induction kw as [|a kw IH]; intros k i s c Hkw Hs.
  - by destruct (folded ci s).
  - rewrite folded_cons in Hkw. injection Hkw as Ha Hkw.
    assert (∀ k' : @cont R,
      run ci (Seq (Chr (Lit a)) (Str kw)) k' i s c = None
      ∧ (kw = "" → run ci (Chr (Lit a)) k' i s c = None)) as Hrun.
    { intros k'. destruct s as [|b s]; [done|].
      rewrite folded_cons in Hs. cbn [Js.startsWith] in Hs.
      cbn [run accepts].
      assert ((if ci then Ascii.eqb (Js.upperChar a) (Js.upperChar b)
               else Ascii.eqb a b)
              = Ascii.eqb a (if ci then Js.upperChar b else b)) as ->.
      { destruct ci; [by rewrite Ha|reflexivity]. }
      destruct (Ascii.eqb a (if ci then Js.upperChar b else b)); [|done].
      cbn [andb] in Hs. split; [apply IH; [exact Hkw|exact Hs]|].
      intros ->. by destruct (folded ci s). }
    destruct (Hrun k) as [Hseq Hchr].
    destruct kw as [|b kw]; cbn [Str]; [by apply Hchr|exact Hseq].
Qed.

(** A pattern that starts with a keyword matches nowhere in a text that
    does not hold the keyword. *)
Lemma search_keyword re kw rest s : ∀ i,
  source re = Cat (Str kw :: rest) →
  folded (ignoreCase re) kw = kw →
  Js.includes (folded (ignoreCase re) s) kw = false →
  search re i s = None.
Proof.
  intros i Hre Hkw. revert i.
  assert (∀ i s, Js.startsWith (folded (ignoreCase re) s) kw = false →
                 matchHere re i s = None) as Hhere.
  { intros i s0 Hs. unfold matchHere. rewrite Hre, run_Cat.
    by apply run_Str_fail. }
  induction s as [|c s IH]; intros i Hs.
  - cbn [search]. rewrite Hhere; [reflexivity|].
    destruct (ignoreCase re); cbn [folded Js.toUpperCase Js.includes] in Hs |- *;
      by apply orb_false_iff in Hs as [-> _].
  - rewrite folded_cons in Hs. cbn [Js.includes] in Hs.
    apply orb_false_iff in Hs as [Hstart Hs].
    cbn [search]. rewrite Hhere by (by rewrite folded_cons).
    by apply IH.
Qed.

(** [replace] gives the text back when the pattern matches nowhere. *)
Lemma replaceFrom_unmatched re tpl s : ∀ i,
  search re i s = None → replaceFrom re tpl false 0 i s = s.
Proof.
  induction s as [|c s IH]; intros i Hs; cbn [search] in Hs;
    cbn [replaceFrom].
  - by destruct (matchHere re i "") as [[??]|].
  - destruct (matchHere re i (String c s)) as [[??]|]; [done|].
    by rewrite IH.
Qed.

Lemma replace_keyword re kw rest tpl s :
  source re = Cat (Str kw :: rest) →
  folded (ignoreCase re) kw = kw →
  Js.includes (folded (ignoreCase re) s) kw = false →
  replace s re tpl = s.
Proof.
  intros Hre Hkw Hs. apply replaceFrom_unmatched.
  by apply (search_keyword re kw rest).
Qed.

Lemma startsWith_includes s p :
  Js.startsWith s p = true → Js.includes s p = true.
Proof. intros Hs. destruct s; cbn [Js.includes]; by rewrite Hs. Qed.

(** A text that holds a word holds the word without its first letter. *)
Lemma includes_tail s : ∀ a p,
  Js.includes s (String a p) = true → Js.includes s p = true.
Proof.
  induction s as [|c s IH]; intros a p Hs; [done|].
  cbn [Js.includes] in Hs. apply orb_true_iff in Hs as [Hs|Hs].
  - cbn [Js.startsWith] in Hs. apply andb_true_iff in Hs as [_ Hs].
    cbn [Js.includes]. rewrite (startsWith_includes s p Hs). apply orb_true_r.
  - cbn [Js.includes]. rewrite (IH a p Hs). apply orb_true_r.
Qed.

Lemma includes_tail_false s a p :
  Js.includes s p = false → Js.includes s (String a p) = false.
Proof.
  intros Hs. destruct (Js.includes s (String a p)) eqn:Hin; [|reflexivity].
  by rewrite (includes_tail s a p Hin) in Hs.
Qed.

(** The dialect rewrite changes nothing in a text that holds none of its
    words. *)
Lemma normalizeOracleSQL_plain s :
  plain s = true → normalizeOracleSQL s = s.
Proof.
  unfold plain. cbv zeta. intros Hp.
  repeat (apply andb_true_iff in Hp as [Hp ?]).
  repeat match goal with
    | Hc : negb _ = true |- _ => apply negb_true_iff in Hc
    end.
  unfold normalizeOracleSQL. cbv zeta.
  rewrite (replace_keyword reVarchar2 "VARCHAR2" _ _ s) by done.
  rewrite (replace_keyword reNumberPS "NUMBER" _ _ s) by done.
  rewrite (replace_keyword reNumberP "NUMBER" _ _ s) by done.
  rewrite (replace_keyword reNumber "NUMBER" [] _ s) by done.
  rewrite (replace_keyword reDate "DATE" [] _ s) by done.
  rewrite (replace_keyword reSysdate "SYSDATE" [] _ s)
    by (try done; by do 3 apply includes_tail_false).
  rewrite (replace_keyword reSystimestamp "SYSTIMESTAMP" [] _ s) by done.
  rewrite (replace_keyword reNvl "NVL(" [] _ s) by done.
  by rewrite (replace_keyword reConcat "||" [] _ s).
Qed.

(** The final semicolon is taken off, and only it. *)
Lemma terminator_removed s : replace (s +:+ ";") reTerminator [] = s.
Proof.
  unfold replace.
  enough (∀ i, replaceFrom reTerminator [] false 0 i (s +:+ ";") = s) as Hi
    by apply Hi.
  induction s as [|c s IH]; intros i.
  - norm_append. cbn [replaceFrom]. unfold matchHere.
    cbn [reTerminator rx source ignoreCase groups global Cat run accepts].
    rewrite Ascii.eqb_refl. cbn [expand negb].
    rewrite (proj2 (Nat.eqb_neq (S i) i)) by lia. by destruct (S i - i - 1).
  - rewrite append_cons. cbn [replaceFrom].
    assert (matchHere reTerminator i (String c (s +:+ ";")) = None) as ->.
    { unfold matchHere.
      cbn [reTerminator rx source ignoreCase groups global Cat run accepts].
      destruct (Ascii.eqb ";" c); [|reflexivity]. by destruct s. }
    by rewrite IH.
Qed.

(** X21: a statement that holds none of the words of the dialect rewrite
    reaches the executors as it was written, without the white space
    around it and without its final semicolon. *)
Theorem prepare_plain ws s ws' :
  allChars Js.isSpace ws = true →
  allChars Js.isSpace ws' = true →
  stopsAt Js.isSpace s = true →
  plain s = true →
  prepare (ws +:+ (s +:+ ";") +:+ ws') = s.
Proof.
  intros Hws Hws' Hs Hplain. unfold prepare.
  rewrite trim_around; [|done|done| |].
  - rewrite terminator_removed. by apply normalizeOracleSQL_plain.
  - destruct s; [reflexivity|by rewrite append_cons].
  - rewrite rev_app. reflexivity.
Qed.
End PlainStatements.

(** ** Statements no executor is reached with *)

Section Unreached.
Context `{JsRuntime}.
Import Re.

Ltac norm_append := rewrite ?append_cons, ?append_nil.

(** [replace] keeps the first character of a text where its pattern,
    which starts with a keyword, cannot start. *)
Lemma replace_head re kw rest tpl c s :
  source re = Cat (Str kw :: rest) →
  folded (ignoreCase re) kw = kw →
  Js.startsWith (folded (ignoreCase re) (String c s)) kw = false →
  replace (String c s) re tpl = String c (replaceFrom re tpl false 0 1 s).
Proof.
  intros Hre Hkw Hc. unfold replace. cbn [replaceFrom].
  assert (matchHere re 0 (String c s) = None) as ->; [|reflexivity].
  unfold matchHere. rewrite Hre, run_Cat. by apply run_Str_fail.
Qed.

(** The dialect rewrite leaves a first letter U where it is. *)
Lemma normalizeOracleSQL_head c s :
  Js.upperChar c = "U"%char →
  ∃ s', normalizeOracleSQL (String c s) = String c s'.
Proof.
  intros Hc. unfold normalizeOracleSQL. cbv zeta.
  assert (∀ kw t, kw ≠ "U"%char →
    Js.startsWith (folded true (String c t)) (String kw "") = false
    ∧ ∀ kw', Js.startsWith (folded true (String c t)) (String kw kw') = false)
    as Hup.
  { intros kw t Hkw. cbn [folded Js.toUpperCase Js.startsWith]. rewrite Hc.
    destruct (Ascii.eqb_spec kw "U"); [done|]. by split. }
  assert (c ≠ "|"%char) as Hbar by (by intros ->).
  rewrite (replace_head reVarchar2 "VARCHAR2" _ _ c s) by first [done|by apply Hup].
  rewrite (replace_head reNumberPS "NUMBER" _ _ c) by first [done|by apply Hup].
  rewrite (replace_head reNumberP "NUMBER" _ _ c) by first [done|by apply Hup].
  rewrite (replace_head reNumber "NUMBER" [] _ c) by first [done|by apply Hup].
  rewrite (replace_head reDate "DATE" [] _ c) by first [done|by apply Hup].
  rewrite (replace_head reSysdate "SYSDATE" [] _ c) by first [done|by apply Hup].
  rewrite (replace_head reSystimestamp "SYSTIMESTAMP" [] _ c)
    by first [done|by apply Hup].
  rewrite (replace_head reNvl "NVL(" [] _ c) by first [done|by apply Hup].
  rewrite (replace_head reConcat "||" [] _ c); [by eexists|done|done|].
  cbn [folded ignoreCase reConcat rx Js.startsWith].
  destruct (Ascii.eqb_spec "|" c); [by subst|done].
Qed.

Lemma prepare_head sql c s :
  Js.trim sql = String c s →
  Js.upperChar c = "U"%char →
  ∃ s', prepare sql = String c s'.
Proof.
  intros Htrim Hc. unfold prepare. rewrite Htrim.
  assert (replace (String c s) reTerminator []
          = String c (replaceFrom reTerminator [] false 0 1 s)) as ->.
  { unfold replace. cbn [replaceFrom].
    assert (matchHere reTerminator 0 (String c s) = None) as ->; [|reflexivity].
    unfold matchHere.
    cbn [reTerminator rx source ignoreCase groups Cat run accepts].
    destruct (Ascii.eqb_spec ";" c); [by subst|reflexivity]. }
  by apply normalizeOracleSQL_head.
Qed.

(** X22: a statement that begins with UPDATE, letter case apart, reaches
    no executor that writes: the catalog is after it what it was before,
    and unless the statement holds the word DUAL the answer is
    ORA-00900. *)
Theorem update_statements_rejected env (cat : gmap string OracleTable) sql :
  Js.startsWith (Js.toUpperCase (Js.trim sql)) "UPDATE" = true →
  fst (parseSQL env cat sql) = cat
  ∧ (classify (prepare sql) = KDual ∨ classify (prepare sql) = KInvalid)
  ∧ (Js.includes (Js.toUpperCase (prepare sql)) "DUAL" = false →
     snd (parseSQL env cat sql)
     = withExecutionTime (failed "ORA-00900: invalid SQL statement")
         (elapsed env)).
Proof.
  intros Hstart.
  destruct (Js.trim sql) as [|c s] eqn:Htrim; [done|].
  cbn [Js.toUpperCase Js.startsWith] in Hstart.
  apply andb_true_iff in Hstart as [Hc _].
  apply Ascii.eqb_eq in Hc. symmetry in Hc.
  destruct (prepare_head sql c s Htrim Hc) as [s' Hp].
  pose proof (classify_not_update sql) as Hnot.
  assert (classify (prepare sql)
          = if Js.startsWith (Js.toUpperCase (prepare sql)) "UPDATE" then KUpdate
            else if Js.includes (Js.toUpperCase (prepare sql)) "DUAL" then KDual
            else KInvalid) as Hk.
  { unfold classify. rewrite Hp. cbn [Js.toUpperCase Js.startsWith]. rewrite Hc.
    reflexivity. }
  destruct (Js.startsWith (Js.toUpperCase (prepare sql)) "UPDATE");
    [done|].
  assert (fst (parseSQL env cat sql) = cat) as Hcat.
  { destruct (parseSQL_effect env cat sql) as [[_ Hsame]|[_ Heff]]; [done|].
    rewrite Hk in Heff.
    by destruct (Js.includes (Js.toUpperCase (prepare sql)) "DUAL"). }
  split; [exact Hcat|]. split.
  - rewrite Hk. destruct (Js.includes _ _); [by left|by right].
  - intros Hdual. rewrite Hdual in Hk.
    unfold parseSQL, dispatch. by rewrite Hk.
Qed.

Lemma startsWith_app s p :
  Js.startsWith s p = true → ∃ rest, s = p +:+ rest.
Proof.
  revert s. induction p as [|a p IH]; intros s Hs; [by exists s|].
  destruct s as [|b s]; [done|]. cbn [Js.startsWith] in Hs.
  apply andb_true_iff in Hs as [Hab Hs]. apply Ascii.eqb_eq in Hab as ->.
  destruct (IH s Hs) as [rest ->]. by exists rest.
Qed.

(** X23: a statement that reaches the dispatcher beginning with CREATE
    UNIQUE creates no index: the dispatcher looks for CREATE INDEX at the
    start, so the statement goes to no executor that writes, and unless
    it holds the word DUAL the answer is ORA-00900. *)
Theorem create_unique_index_rejected env (cat : gmap string OracleTable) sql :
  Js.startsWith (Js.toUpperCase (prepare sql)) "CREATE UNIQUE" = true →
  fst (parseSQL env cat sql) = cat
  ∧ classify (prepare sql) ≠ KCreateIndex
  ∧ (Js.includes (Js.toUpperCase (prepare sql)) "DUAL" = false →
     snd (parseSQL env cat sql)
     = withExecutionTime (failed "ORA-00900: invalid SQL statement")
         (elapsed env)).
Proof.
  intros Hstart.
  assert (classify (prepare sql)
          = if Js.includes (Js.toUpperCase (prepare sql)) "DUAL" then KDual
            else KInvalid) as Hk.
  { unfold classify. destruct (startsWith_app _ _ Hstart) as [rest ->].
    norm_append. reflexivity. }
  assert (fst (parseSQL env cat sql) = cat) as Hcat.
  { destruct (parseSQL_effect env cat sql) as [[_ Hsame]|[_ Heff]]; [done|].
    rewrite Hk in Heff.
    by destruct (Js.includes (Js.toUpperCase (prepare sql)) "DUAL"). }
  split; [exact Hcat|]. split.
  - rewrite Hk. by destruct (Js.includes _ _).
  - intros Hdual. rewrite Hdual in Hk.
    unfold parseSQL, dispatch. by rewrite Hk.
Qed.
End Unreached.

(** ** The session *)

Section SessionProperties.
Context `{JsRuntime} (parseInt : string → number).
Import Session.

Ltac norm_append := rewrite ?append_cons, ?append_nil.
Tactic Notation "norm_append" "in" hyp(H) :=
  rewrite ?append_cons, ?append_nil in H.

Lemma trimStart_stops s : stopsAt Js.isSpace (Js.trimStart s) = true.
Proof.
  induction s as [|c s IH]; [reflexivity|]. cbn [Js.trimStart].
  destruct (Js.isSpace c) eqn:Hc; [exact IH|]. cbn [stopsAt]. by rewrite Hc.
Qed.

(** A trimmed text does not end with white space. *)
Lemma trim_last s : stopsAt Js.isSpace (Js.rev (Js.trim s)) = true.
Proof.
  unfold Js.trim, Js.trimEnd. rewrite rev_rev. apply trimStart_stops.
Qed.

Lemma isSpace_upperChar c : Js.isSpace (Js.upperChar c) = Js.isSpace c.
Proof. destruct c as [[] [] [] [] [] [] [] []]; reflexivity. Qed.

Lemma toUpperCase_list s :
  String.list_ascii_of_string (Js.toUpperCase s)
  = map Js.upperChar (String.list_ascii_of_string s).
Proof. induction s as [|c s IH]; [reflexivity|]. simpl. by rewrite IH. Qed.

Lemma toUpperCase_of_list l :
  Js.toUpperCase (String.string_of_list_ascii l)
  = String.string_of_list_ascii (map Js.upperChar l).
Proof. induction l as [|c l IH]; [reflexivity|]. simpl. by rewrite IH. Qed.

Lemma rev_toUpperCase s : Js.rev (Js.toUpperCase s) = Js.toUpperCase (Js.rev s).
Proof.
  unfold Js.rev. by rewrite toUpperCase_list, toUpperCase_of_list, map_rev.
Qed.

Lemma stopsAt_toUpperCase s :
  stopsAt Js.isSpace (Js.toUpperCase s) = stopsAt Js.isSpace s.
Proof. destruct s; [reflexivity|]. cbn [Js.toUpperCase stopsAt]. by rewrite isSpace_upperChar. Qed.

(** The command as the manager compares it ends with no white space. *)
Lemma command_last command :
  stopsAt Js.isSpace (Js.rev (Js.toUpperCase (Js.trim command))) = true.
Proof. by rewrite rev_toUpperCase, stopsAt_toUpperCase, trim_last. Qed.

Lemma substringFrom_app p rest :
  substringFrom (String.length p) (p +:+ rest) = rest.
Proof.
  unfold substringFrom. rewrite length_append.
  replace (String.length p + String.length rest - String.length p)
    with (String.length rest) by lia.
  induction p as [|c p IH]; [apply substring_whole|].
  rewrite append_cons. exact IH.
Qed.

(** The name of a savepoint is not empty and is in upper case. *)
Lemma savepoint_name command :
  Js.startsWith (Js.toUpperCase (Js.trim command)) "SAVEPOINT " = true →
  substringFrom 10 (Js.toUpperCase (Js.trim command)) ≠ ""
  ∧ Js.toUpperCase (substringFrom 10 (Js.toUpperCase (Js.trim command)))
    = substringFrom 10 (Js.toUpperCase (Js.trim command)).
Proof.
  intros Hstart. pose proof (command_last command) as Hlast.
  pose proof (toUpperCase_idem (Js.trim command)) as Hup.
  destruct (startsWith_app _ _ Hstart) as [rest Hcmd].
  rewrite Hcmd in Hlast, Hup |- *.
  pose proof (substringFrom_app "SAVEPOINT " rest) as Hsub.
  change (String.length "SAVEPOINT ") with 10 in Hsub. rewrite Hsub. split.
  - intros ->. by vm_compute in Hlast.
  - rewrite toUpperCase_app in Hup.
    change (Js.toUpperCase "SAVEPOINT ") with "SAVEPOINT " in Hup.
    norm_append in Hup. by simplify_eq.
Qed.

Lemma executeSessionCommand_settled st command :
  settled st → settled (fst (executeSessionCommand parseInt st command)).
Proof.
  intros [Htx Hnames]. unfold executeSessionCommand. cbv zeta.
  repeat case_match; cbn [fst]; try (by split); try (split; [done|constructor]).
  split; [done|]. cbn [savepoints pushSavepoint].
  apply Forall_app. split; [exact Hnames|].
  apply Forall_singleton. by apply savepoint_name.
Qed.

Lemma executeSessionCommand_frame st command :
  let st' := fst (executeSessionCommand parseInt st command) in
  currentSchema st' = currentSchema st
  ∧ dateFormat st' = dateFormat st
  ∧ numWidth st' = numWidth st
  ∧ privileges st' = privileges st.
Proof. unfold executeSessionCommand. cbv zeta. by repeat case_match. Qed.

Lemma runCommands_settled commands : ∀ st,
  settled st →
  settled (runCommands parseInt st commands)
  ∧ currentSchema (runCommands parseInt st commands) = currentSchema st
  ∧ dateFormat (runCommands parseInt st commands) = dateFormat st
  ∧ numWidth (runCommands parseInt st commands) = numWidth st
  ∧ privileges (runCommands parseInt st commands) = privileges st.
Proof.
  unfold runCommands.
  induction commands as [|command commands IH]; intros st Hst; [done|].
  cbn [foldl].
  destruct (executeSessionCommand_frame st command) as (H1 & H2 & H3 & H4).
  destruct (IH _ (executeSessionCommand_settled st command Hst))
    as (Hs & Hc & Hd & Hn & Hp).
  split; [exact Hs|]. by rewrite Hc, Hd, Hn, Hp.
Qed.

(** X24: whatever the commands of a session that starts fresh, savepoints
    exist only while a transaction is active, each has a name that is
    not empty and is in upper case, and the schema, the date format, the
    number width and the privileges are those of the start; so SHOW USER
    always answers with the schema ORACLE_SIM. *)
Theorem session_invariant commands :
  let st := runCommands parseInt freshSession commands in
  settled st
  ∧ currentSchema st = "ORACLE_SIM"
  ∧ dateFormat st = "DD-MON-YY"
  ∧ numWidth st = ofInt 10
  ∧ privileges st = privileges freshSession
  ∧ ∀ command,
      Js.toUpperCase (Js.trim command) = "SHOW USER" →
      executeSessionCommand parseInt st command
      = (st, "USER is " +:+ doubleQuote +:+ "ORACLE_SIM" +:+ doubleQuote).
Proof.
  intros st.
  destruct (runCommands_settled commands freshSession)
    as (Hs & Hc & Hd & Hn & Hp); [split; [done|constructor]|].
  fold st in Hs, Hc, Hd, Hn, Hp.
  repeat (split; [done|]).
  intros command Hcmd. unfold executeSessionCommand. rewrite Hcmd, Hc.
  reflexivity.
Qed.
End SessionProperties.

(** ** What the dialect rewrite leaves of its words *)

Section RewrittenWords.
Import Re.

Ltac norm_append := rewrite ?append_cons, ?append_nil.

(** A keyword matches the text that starts with it, letter case apart
    under the flag i. *)
Lemma run_Str_start {R} ci kw : ∀ (k : @cont R) i s c,
  kw ≠ "" →
  folded ci kw = kw →
  Js.startsWith (folded ci s) kw = true →
  ∃ s', run ci (Str kw) k i s c = k (i + String.length kw) s' c.
Proof.
  induction kw as [|a kw IH]; intros k i s c Hne Hkw Hs; [done|].
  rewrite folded_cons in Hkw. injection Hkw as Ha Hkw.
  destruct s as [|b s]; [by destruct ci|].
  rewrite folded_cons in Hs. cbn [Js.startsWith] in Hs.
  apply andb_true_iff in Hs as [Hab Hs].
  assert (accepts ci (Lit a) b = true) as Hacc.
  { cbn [accepts]. destruct ci; [by rewrite Ha|exact Hab]. }
  destruct kw as [|a' kw].
  - exists s. cbn [Str run]. rewrite Hacc. f_equal. simpl. lia.
  - destruct (IH k (S i) s c) as [s' Hrun]; [done|done|done|].
    exists s'. cbn [Str run]. rewrite Hacc.
    change (run ci (Str (String a' kw)) k (S i) s c
            = k (i + String.length (String a (String a' kw))) s' c).
    rewrite Hrun. f_equal. simpl. lia.
Qed.

Lemma apart_includes txt word : ∀ g,
  apart txt word = true →
  Js.includes (Js.toUpperCase (txt +:+ g)) word
  = Js.includes (Js.toUpperCase g) word.
Proof.
  induction txt as [|x txt IH]; intros g Hap; [reflexivity|].
  cbn [apart] in Hap. apply andb_true_iff in Hap as [Hmis Hap].
  rewrite (append_cons x txt g) at 1.
  change (Js.toUpperCase (String x (txt +:+ g)))
    with (String (Js.upperChar x) (Js.toUpperCase (txt +:+ g))).
  cbn [Js.includes].
  change (String (Js.upperChar x) (Js.toUpperCase (txt +:+ g)))
    with (Js.toUpperCase (String x txt +:+ g)).
  rewrite (mismatch_startsWith (String x txt) g word Hmis). cbn [orb].
  by apply IH.
Qed.

Lemma heads_tail (P : string → Prop) c s : heads P (String c s) → heads P s.
Proof. by intros [_ ?]. Qed.

Section Pass.
Variables (re : RegExp) (kw txt : string) (w0 : ascii) (word' : string).
Hypothesis Hsrc : source re = Str kw.
Hypothesis Hkw : kw ≠ "".
Hypothesis Hfold : folded (ignoreCase re) kw = kw.
Hypothesis Hglobal : global re = true.
Hypothesis Hapart : apart txt (String w0 word') = true.
Hypothesis Hclash : clashes txt word' = true.

(** A match of the pattern takes the keyword. *)
Lemma matchHere_Str i s :
  matchHere re i s
  = if Js.startsWith (folded (ignoreCase re) s) kw
    then Some (i + String.length kw, replicate (S (groups re)) None)
    else None.
Proof.
  unfold matchHere. rewrite Hsrc.
  destruct (Js.startsWith (folded (ignoreCase re) s) kw) eqn:Hs.
  - by destruct (run_Str_start (ignoreCase re) kw
                   (fun e _ c => Some (e, c)) i s
                   (replicate (S (groups re)) None) Hkw Hfold Hs) as [s' ->].
  - by apply run_Str_fail.
Qed.

(** One pass of the rewrite leaves no occurrence of a word, when none is
    left where the pattern does not match. *)
Lemma pass_clean s : ∀ skip i,
  heads (fun t => Js.startsWith (folded (ignoreCase re) t) kw = false →
                  Js.startsWith (Js.toUpperCase t) (String w0 word') = false) s →
  Js.includes
    (Js.toUpperCase (replaceFrom re [TText txt] false skip i s))
    (String w0 word') = false.
Proof.
  assert (Js.includes (Js.toUpperCase (txt +:+ "")) (String w0 word') = false)
    as Hend by (by rewrite apart_includes).
  induction s as [|c s IH]; intros skip i Hs.
  - destruct skip; cbn [replaceFrom]; [|reflexivity].
    rewrite matchHere_Str.
    destruct (Js.startsWith (folded (ignoreCase re) "") kw); [|reflexivity].
    cbn [expand]. rewrite append_empty_r.
    destruct (i + String.length kw =? i); by rewrite apart_includes.
  - destruct skip as [|skip]; cbn [replaceFrom];
      [|by apply IH, (heads_tail _ c)].
    rewrite matchHere_Str. destruct Hs as [Hhere Hs].
    destruct (Js.startsWith (folded (ignoreCase re) (String c s)) kw) eqn:Hm.
    + cbn [expand]. rewrite append_empty_r, Hglobal. cbn [negb].
      assert ((i + String.length kw =? i) = false) as ->.
      { apply Nat.eqb_neq. destruct kw; [done|]. simpl. lia. }
      rewrite apart_includes by done. by apply IH.
    + specialize (Hhere eq_refl).
      change (Js.toUpperCase (String c (replaceFrom re [TText txt] false 0 (S i) s)))
        with (String (Js.upperChar c)
                (Js.toUpperCase (replaceFrom re [TText txt] false 0 (S i) s))).
      cbn [Js.includes]. rewrite (IH 0 (S i) Hs), orb_false_r.
      cbn [Js.startsWith].
      destruct (Ascii.eqb w0 (Js.upperChar c)) eqn:Hc; [|reflexivity].
      cbn [andb].
      destruct (Js.startsWith _ word') eqn:Hstart; [|reflexivity].
      apply replaceFrom_prefix in Hstart as [Hstart _]; [|exact Hclash].
      cbn [Js.toUpperCase Js.startsWith] in Hhere.
      by rewrite Hc, Hstart in Hhere.
Qed.
End Pass.

Lemma includes_heads s word :
  Js.includes (Js.toUpperCase s) word = false →
  heads (fun t => Js.startsWith (Js.toUpperCase t) word = false) s.
Proof.
  induction s as [|c s IH]; cbn [Js.toUpperCase Js.includes heads];
    intros [Hhere Hrest]%orb_false_iff; [done|].
  split; [exact Hhere|by apply IH].
Qed.

Lemma heads_impl (P Q : string → Prop) s :
  (∀ t, P t → Q t) → heads P s → heads Q s.
Proof.
  intros HPQ. induction s as [|c s IH]; cbn [heads]; intros [Hhere Hrest].
  - split; [by apply HPQ|done].
  - split; [by apply HPQ|by apply IH].
Qed.

(** A pass leaves no occurrence of a word its input did not hold. *)
Lemma pass_keeps re kw txt w0 word' s :
  source re = Str kw → kw ≠ "" → folded (ignoreCase re) kw = kw →
  global re = true →
  apart txt (String w0 word') = true →
  clashes txt word' = true →
  Js.includes (Js.toUpperCase s) (String w0 word') = false →
  Js.includes (Js.toUpperCase (replace s re [TText txt])) (String w0 word')
  = false.
Proof.
  intros Hsrc Hkw Hfold Hglobal Hapart Hclash Hs.
  apply (pass_clean re kw txt w0 word'); try done.
  eapply heads_impl; [|by apply includes_heads]. by intros t Ht _.
Qed.

(** The pass of a word leaves no occurrence of it. *)
Lemma pass_removes re word txt w0 word' s :
  word = String w0 word' →
  source re = Str word → ignoreCase re = true → Js.toUpperCase word = word →
  global re = true →
  apart txt word = true →
  clashes txt word' = true →
  Js.includes (Js.toUpperCase (replace s re [TText txt])) word = false.
Proof.
  intros -> Hsrc Hci Hfold Hglobal Hapart Hclash.
  apply (pass_clean re (String w0 word') txt w0 word'); try done.
  { by rewrite Hci. }
  rewrite Hci. clear. induction s as [|c s IH]; cbn [heads]; by split.
Qed.

Lemma upperChar_bar c : Ascii.eqb "|" (Js.upperChar c) = Ascii.eqb "|" c.
Proof. destruct c as [[] [] [] [] [] [] [] []]; reflexivity. Qed.

Lemma startsWith_bars s :
  Js.startsWith (Js.toUpperCase s) "||" = Js.startsWith s "||".
Proof.
  destruct s as [|a [|b [|c s]]]; cbn [Js.toUpperCase Js.startsWith];
    by rewrite ?upperChar_bar.
Qed.

Lemma includes_bars s :
  Js.includes (Js.toUpperCase s) "||" = Js.includes s "||".
Proof.
  induction s as [|c s IH]; [reflexivity|].
  change (Js.toUpperCase (String c s))
    with (String (Js.upperChar c) (Js.toUpperCase s)).
  cbn [Js.includes]. rewrite <- IH. f_equal.
  apply (startsWith_bars (String c s)).
Qed.

(** What the dialect rewrite leaves of its own words: none. *)
Lemma normalizeOracleSQL_clean s :
  let upper := Js.toUpperCase (normalizeOracleSQL s) in
  Js.includes upper "NUMBER" = false
  ∧ Js.includes upper "DATE" = false
  ∧ Js.includes upper "SYSTIMESTAMP" = false
  ∧ Js.includes upper "NVL(" = false
  ∧ Js.includes (normalizeOracleSQL s) "||" = false.
Proof.
  unfold normalizeOracleSQL. cbv zeta.
  set (s3 := replace (replace (replace s _ _) _ _) _ _).
  repeat split.
  - do 5 (eapply pass_keeps; [reflexivity|done|reflexivity..|]).
    by eapply pass_removes.
  - do 4 (eapply pass_keeps; [reflexivity|done|reflexivity..|]).
    by eapply pass_removes.
  - do 2 (eapply pass_keeps; [reflexivity|done|reflexivity..|]).
    by eapply pass_removes.
  - do 1 (eapply pass_keeps; [reflexivity|done|reflexivity..|]).
    by eapply pass_removes.
  - rewrite <- includes_bars.
    apply (pass_clean reConcat "||" "+" "|" "|"); try done.
    generalize (replace
      (replace (replace (replace (replace s3 reNumber [TText "DECIMAL(38,10)"])
         reDate [TText "TIMESTAMP"]) reSysdate [TText "CURRENT_TIMESTAMP"])
         reSystimestamp [TText "CURRENT_TIMESTAMP"]) reNvl [TText "COALESCE("]).
    intros t. induction t as [|c t IH]; cbn [heads]; split; try done;
      intros Hb; by rewrite startsWith_bars.
Qed.

(** X25: whatever the statement, what reaches the executors holds none
    of the words NUMBER, DATE, SYSDATE, SYSTIMESTAMP and NVL(, letter
    case apart, and no ||: the dialect rewrite leaves no occurrence of
    the words it replaces, also where a replacement joins the text
    around it. *)
Theorem prepared_statement_clean sql :
  let upper := Js.toUpperCase (prepare sql) in
  Js.includes upper "NUMBER" = false
  ∧ Js.includes upper "DATE" = false
  ∧ Js.includes upper "SYSDATE" = false
  ∧ Js.includes upper "SYSTIMESTAMP" = false
  ∧ Js.includes upper "NVL(" = false
  ∧ Js.includes (prepare sql) "||" = false.
Proof.
  intros upper. subst upper. unfold prepare.
  destruct (normalizeOracleSQL_clean (replace (Js.trim sql) reTerminator []))
    as (Hnumber & Hdate & Hstamp & Hnvl & Hbars).
  repeat split; try done. by do 3 apply includes_tail_false.
Qed.
End RewrittenWords.

(** ** The clock *)

Section Clock.
Context `{JsRuntime}.
Import Re.

Ltac norm_append := rewrite ?append_cons, ?append_nil.
Tactic Notation "norm_append" "in" hyp(H) :=
  rewrite ?append_cons, ?append_nil in H.

Lemma within_refl s : within s s.
Proof. exists "", "". by rewrite append_empty_r. Qed.

Lemma within_trans a b c : within a b → within b c → within a c.
Proof.
  intros (x & y & ->) (x' & y' & ->). exists (x' +:+ x), (y +:+ y').
  by rewrite !append_assoc.
Qed.

Lemma within_suffix e a s : within e s → within e (a +:+ s).
Proof.
  intros (x & y & ->). exists (a +:+ x), y. by rewrite !append_assoc.
Qed.

Lemma substring_0_prefix m : ∀ s, ∃ b, s = String.substring 0 m s +:+ b.
Proof.
  induction m as [|m IH]; intros s.
  - rewrite substring_0_0. by exists s.
  - destruct s as [|c s]; [by exists ""|]. cbn [String.substring].
    destruct (IH s) as [b Hs]. exists b. by rewrite append_cons, <- Hs.
Qed.

Lemma substring_0_within m s : within (String.substring 0 m s) s.
Proof. destruct (substring_0_prefix m s) as [b Hs]. by exists "", b. Qed.

(** What a pattern captures stands in the text it runs on. *)
Lemma run_within {R} ci r : ∀ (k : @cont R) i s c x,
  run ci r k i s c = Some x →
  ∃ i' s' c',
    k i' s' c' = Some x
    ∧ (∃ a, s = a +:+ s')
    ∧ ∀ n e, c' !! n = Some (Some e) → c !! n = Some (Some e) ∨ within e s.
Proof.
  induction r as [|cl|g cl|r1 IH1 r2 IH2|r1 IH1 r2 IH2|r1 IH1|n r1 IH1| |];
    intros k i s c x Hrun; cbn [run] in *.
  - exists i, s, c. split; [done|]. split; [by exists ""|by left].
  - destruct s as [|a s]; [done|]. destruct (accepts ci cl a); [|done].
    exists (S i), s, c. split; [done|]. split; [by exists (String a "")|by left].
  - apply star_result in Hrun as (pre & rest & -> & _ & Hk).
    eexists _, rest, c. split; [exact Hk|]. split; [by exists pre|by left].
  - apply IH1 in Hrun as (i1 & s1 & c1 & Hrun & [a1 ->] & Hc1).
    apply IH2 in Hrun as (i2 & s2 & c2 & Hk & [a2 ->] & Hc2).
    exists i2, s2, c2. split; [exact Hk|].
    split; [exists (a1 +:+ a2); by rewrite append_assoc|].
    intros n e Hn. destruct (Hc2 n e Hn) as [Hn1|Hin].
    + apply Hc1, Hn1.
    + right. by apply within_suffix.
  - destruct (run ci r1 k i s c) eqn:Hr1.
    + injection Hrun as ->. by apply IH1 in Hr1.
    + by apply IH2 in Hrun.
  - destruct (run ci r1 k i s c) eqn:Hr1.
    + injection Hrun as ->. by apply IH1 in Hr1.
    + exists i, s, c. split; [done|]. split; [by exists ""|by left].
  - apply IH1 in Hrun as (i1 & s1 & c1 & Hk & Hs1 & Hc1).
    eexists _, _, _. split; [exact Hk|]. split; [exact Hs1|].
    intros m e Hm. apply list_lookup_insert_Some in Hm as [(-> & He & _)|[_ Hm]].
    + right. injection He as <-. apply substring_0_within.
    + by apply Hc1.
  - destruct (i =? 0); [|done].
    exists i, s, c. split; [done|]. split; [by exists ""|by left].
  - destruct s; [|done].
    exists i, "", c. split; [done|]. split; [by exists ""|by left].
Qed.

Lemma search_within re s : ∀ i b e c,
  search re i s = Some (b, e, c) →
  ∃ a s', s = a +:+ s' ∧ matchHere re b s' = Some (e, c).
Proof.
  induction s as [|x s IH]; intros i b e c Hs; cbn [search] in Hs.
  - destruct (matchHere re i "") as [[e' c']|] eqn:Hm; [|done].
    injection Hs as <- <- <-. by exists "", "".
  - destruct (matchHere re i (String x s)) as [[e' c']|] eqn:Hm.
    + injection Hs as <- <- <-. by exists "", (String x s).
    + apply IH in Hs as (a & s' & -> & Hm'). by exists (String x a), s'.
Qed.

(** Every group [match] returns stands in the text matched. *)
Lemma match_within str re m n e :
  match_ str re = Some m →
  m !! S n = Some (Some e) →
  within e str.
Proof.
  unfold match_.
  destruct (search re 0 str) as [[[b e'] c]|] eqn:Hs; [|done].
  intros [= <-] Hn. apply search_within in Hs as (a & s' & -> & Hm).
  unfold matchHere in Hm.
  apply run_within in Hm as (i' & s'' & c' & [= -> ->] & _ & Hc).
  cbn [lookup list_lookup] in Hn.
  assert (c !! S n = Some (Some e)) as Hn'.
  { rewrite <- Hn. by destruct c. }
  apply within_suffix. destruct (Hc _ _ Hn') as [Hnone|Hin]; [|exact Hin].
  apply lookup_replicate in Hnone as [Hnone _]. discriminate Hnone.
Qed.

Lemma trimStart_split s : ∃ ws, s = ws +:+ Js.trimStart s.
Proof.
  induction s as [|c s [ws Hs]]; [by exists ""|]. cbn [Js.trimStart].
  destruct (Js.isSpace c); [|by exists ""].
  exists (String c ws). by rewrite append_cons, <- Hs.
Qed.

Lemma trim_within s : within (Js.trim s) s.
Proof.
  unfold Js.trim, Js.trimEnd.
  destruct (trimStart_split s) as [ws Hs].
  destruct (trimStart_split (Js.rev (Js.trimStart s))) as [ws' Hs'].
  apply (f_equal Js.rev) in Hs'. rewrite rev_rev, rev_app in Hs'.
  exists ws, (Js.rev ws'). by rewrite <- Hs'.
Qed.

Lemma startsWith_self p r : Js.startsWith (p +:+ r) p = true.
Proof.
  induction p as [|a p IH]; [by destruct r|].
  rewrite append_cons. cbn [Js.startsWith]. by rewrite Ascii.eqb_refl, IH.
Qed.

Lemma within_includes e s :
  within e s → Js.includes (Js.toUpperCase s) (Js.toUpperCase e) = true.
Proof.
  intros (a & b & ->). rewrite !toUpperCase_app.
  induction (Js.toUpperCase a) as [|x a' IH].
  - norm_append. apply startsWith_includes, startsWith_self.
  - rewrite append_cons. cbn [Js.includes]. rewrite IH. apply orb_true_r.
Qed.

(** The expression a DUAL query evaluates is neither SYSDATE nor
    SYSTIMESTAMP: the dialect rewrite has left neither word. *)
Lemma dual_expression sql m e :
  match_ (prepare sql) reDual = Some m →
  m !! 1 = Some (Some e) →
  String.eqb (Js.toUpperCase (Js.trim e)) "SYSDATE" = false
  ∧ String.eqb (Js.toUpperCase (Js.trim e)) "SYSTIMESTAMP" = false.
Proof.
  intros Hm He.
  pose proof (within_includes _ _
    (within_trans _ _ _ (trim_within e) (match_within _ _ _ 0 _ Hm He))) as Hin.
  destruct (normalizeOracleSQL_clean (replace (Js.trim sql) reTerminator []))
    as (_ & Hdate & Hstamp & _).
  fold (prepare sql) in Hdate, Hstamp.
  split; apply String.eqb_neq; intros Heq; rewrite Heq in Hin.
  - do 3 apply includes_tail in Hin. by rewrite Hin in Hdate.
  - by rewrite Hin in Hstamp.
Qed.

Lemma executeDualQuery_clock env env' (cat : gmap string OracleTable) sql :
  executeDualQuery env cat (prepare sql) = executeDualQuery env' cat (prepare sql).
Proof.
  unfold executeDualQuery.
  destruct (match_ (prepare sql) reDual) as [m|] eqn:Hm; [|reflexivity].
  destruct m as [|whole [|[e|] [|]]]; try reflexivity.
  destruct (dual_expression sql _ e Hm eq_refl) as [-> ->]. reflexivity.
Qed.

(** X26: no answer depends on the clock: the result of a statement is
    the same at any time (the elapsed time apart), so no statement
    returns the current date; only CREATE TABLE reads the clock, to
    stamp the table it stores. *)
Theorem answers_ignore_clock env env' (cat : gmap string OracleTable) sql :
  elapsed env = elapsed env' →
  snd (parseSQL env cat sql) = snd (parseSQL env' cat sql)
  ∧ (classify (prepare sql) ≠ KCreateTable →
     fst (parseSQL env cat sql) = fst (parseSQL env' cat sql)).
Proof.
  intros Helapsed. unfold parseSQL, dispatch. rewrite Helapsed.
  destruct (classify (prepare sql)); try (split; reflexivity).
  - split; [|done]. unfold executeCreateTable.
    destruct (match_ (prepare sql) reCreateTable) as [m|]; [|reflexivity].
    destruct m as [|? [|[tableName|] [|[columnDefs|] [|]]]]; try reflexivity.
    by destruct (cat !! Js.toUpperCase tableName).
  - by rewrite (executeDualQuery_clock env env').
Qed.
End Clock.

(** ** The table of a result *)

Section TableOfResult.
Context `{JsRuntime}.
Import Terminal.

Lemma length_repeatChar c n : String.length (repeatChar c n) = n.
Proof. induction n as [|n IH]; [reflexivity|]. simpl. by rewrite IH. Qed.

Lemma length_padEnd s width :
  String.length (padEnd s width) = Nat.max (String.length s) width.
Proof. unfold padEnd. rewrite length_append, length_repeatChar. lia. Qed.

Lemma mathMax_ge xs x : x ∈ xs → x ≤ default 0 (mathMax xs).
Proof.
  induction xs as [|y xs IH]; [by intros ?%elem_of_nil|].
  intros [->|Hin]%elem_of_cons; cbn [mathMax];
    change (default 0 (Some ?n)) with n; [lia|].
  specialize (IH Hin). lia.
Qed.

(** A cell is never wider than its column: a value that counts for the
    width shows as it was measured, and one that does not is short. *)
Lemma cell_fits (data_ : list (gmap string value)) row col :
  (∀ n, numberTruthy n = false → String.length (numberToString n) ≤ 10) →
  row ∈ data_ →
  String.length (cellText row col) ≤ columnWidth data_ col.
Proof.
  intros Hfalsy Hrow. unfold columnWidth. cbv zeta.
  assert (String.length (measuredText row col)
          ≤ default 0 (mathMax (map (fun row => String.length (measuredText row col))
                                  data_))) as Hmeasured.
  { apply mathMax_ge.
    apply (list_elem_of_fmap_2 (fun row => String.length (measuredText row col))).
    exact Hrow. }
  revert Hmeasured. unfold measuredText, cellText.
  destruct (rowGet row col) as [|s|n|name]; cbn [valueTruthy toText].
  - simpl. lia.
  - destruct s; simpl; lia.
  - destruct (numberTruthy n) eqn:Hn; [lia|].
    specialize (Hfalsy n Hn). lia.
  - lia.
Qed.

Lemma length_join_map (f g : string → string) sep cols :
  (∀ col, col ∈ cols → String.length (f col) = String.length (g col)) →
  String.length (Js.join sep (map f cols))
  = String.length (Js.join sep (map g cols)).
Proof.
  induction cols as [|col cols IH]; intros Hlen; [reflexivity|].
  assert (String.length (f col) = String.length (g col)) as Hcol
    by apply Hlen, list_elem_of_here.
  assert (String.length (Js.join sep (map f cols))
          = String.length (Js.join sep (map g cols))) as Hrest.
  { apply IH. intros c Hc. by apply Hlen, list_elem_of_further. }
  destruct cols as [|col' cols]; [exact Hcol|].
  change (String.length (f col +:+ sep +:+ Js.join sep (map f (col' :: cols)))
          = String.length (g col +:+ sep +:+ Js.join sep (map g (col' :: cols)))).
  rewrite !length_append. by rewrite Hcol, Hrest.
Qed.

(** X27: the table the terminal shows for a result is aligned: each cell
    of a row of the result has exactly the width of its column, so every
    data line is as long as the header line and the line of dashes, as
    long as the text of a number that counts as false (0, NaN) has ten
    characters at most. *)
Theorem table_lines_aligned (data_ : list (gmap string value)) cols row :
  (∀ n, numberTruthy n = false → String.length (numberToString n) ≤ 10) →
  row ∈ data_ →
  String.length (dataLine data_ cols row) = String.length (headerLine data_ cols)
  ∧ String.length (separatorLine data_ cols)
    = String.length (headerLine data_ cols)
  ∧ ∀ col,
      String.length (padEnd (cellText row col) (columnWidth data_ col))
      = columnWidth data_ col.
Proof.
  intros Hfalsy Hrow.
  assert (∀ col,
    String.length (padEnd (cellText row col) (columnWidth data_ col))
    = columnWidth data_ col) as Hcell.
  { intros col. rewrite length_padEnd.
    pose proof (cell_fits data_ row col Hfalsy Hrow). lia. }
  assert (∀ col,
    String.length (padEnd col (columnWidth data_ col)) = columnWidth data_ col)
    as Hhead.
  { intros col. rewrite length_padEnd. unfold columnWidth. lia. }
  split; [|split; [|exact Hcell]].
  - apply length_join_map. intros col _. by rewrite Hcell, Hhead.
  - apply length_join_map. intros col _. by rewrite length_repeatChar, Hhead.
Qed.
End TableOfResult.

(** ** One comparison of a WHERE clause *)

Section Comparisons.
Context `{JsRuntime}.
Import Re.

Ltac norm_append := rewrite ?append_cons, ?append_nil.

(** [value.replace(/'/g, '')] drops every single quote and nothing else. *)
Lemma replace_reQuote s : replace s reQuote [] = withoutQuotes s.
Proof.
  unfold replace.
  enough (∀ i, replaceFrom reQuote [] false 0 i s = withoutQuotes s) by done.
  induction s as [|a s IH]; intros i; [reflexivity|].
  cbn [replaceFrom withoutQuotes]. unfold matchHere.
  cbn [reQuote rx source ignoreCase groups global run accepts].
  destruct (Ascii.eqb "'" a).
  - cbn [expand negb]. rewrite append_nil.
    rewrite (proj2 (Nat.eqb_neq (S i) i)) by lia.
    replace (S i - i - 1) with 0 by lia. apply IH.
  - by rewrite IH.
Qed.

(** The end of [reCondition]: white space, then the rest of the line. *)
Lemma conditionTail_exact ws v i c :
  allChars Js.isSpace ws = true →
  stopsAt Js.isSpace v = true →
  v ≠ "" →
  oneLine v = true →
  run false conditionTail final i (ws +:+ v) c
  = Some (i + String.length ws + String.length v, <[3 := Some v]> c).
Proof.
  intros Hws Hstop Hne Hline. unfold conditionTail.
  change (run false (Seq (Star true Space) (Group 3 (Plus Dot))) final i
            (ws +:+ v) c)
    with (star false true Space
            (fun i' s' c' => run false (Group 3 (Plus Dot)) final i' s' c')
            i (ws +:+ v) c).
  apply star_greedy_run; [exact Hws|exact Hstop|].
  replace (run false (Group 3 (Plus Dot)) final (i + String.length ws) v c)
    with (run false (Group 3 (Plus Dot)) final (i + String.length ws)
            (v +:+ "") c) by (by rewrite append_empty_r).
  apply run_group_plus; [exact Hne|exact Hline|reflexivity|reflexivity].
Qed.

Lemma operator_exact op ws2 v i c :
  op ∈ operators →
  allChars Js.isSpace ws2 = true →
  isValueText v = true →
  oneLine (ws2 +:+ v) = true →
  ∃ e,
    run false (Seq conditionOperator conditionTail) final i
        (op +:+ ws2 +:+ v) c
    = Some (e, <[3 := Some (comparedText op ws2 v)]>
                 (<[2 := Some (capturedOperator op)]> c)).
Proof.
  intros Hop Hws Hv Hline.
  destruct v as [|y v]; [done|].
  cbn [isValueText] in Hv. apply andb_true_iff in Hv as [Hy Hyop].
  apply negb_true_iff in Hy, Hyop.
  assert (stopsAt (Ascii.eqb ">") (ws2 +:+ String y v) = true) as Hstop.
  { destruct ws2 as [|w ws2]; norm_append; cbn [stopsAt].
    - unfold isOperatorChar in Hyop. cbn [existsb] in Hyop.
      rewrite !orb_false_iff in Hyop. destruct Hyop as (_ & _ & _ & Hgt & _).
      by rewrite Ascii.eqb_sym, Hgt.
    - cbn [allChars] in Hws. apply andb_true_iff in Hws as [Hw _].
      destruct (Ascii.eqb_spec ">" w) as [<-|]; [|done]. by vm_compute in Hw. }
  cbn [run].
  assert (∃ e,
    run false conditionTail final (i + String.length (capturedOperator op))
        (afterOperator op +:+ ws2 +:+ String y v)
        (<[2 := Some (capturedOperator op)]> c)
    = Some (e, <[3 := Some (comparedText op ws2 (String y v))]>
                 (<[2 := Some (capturedOperator op)]> c)))
    as (e & Htail).
  { unfold comparedText, afterOperator.
    destruct (String.eqb op "<=" || String.eqb op ">=").
    - change (String.eqb "=" "") with false. cbv iota.
      eexists. rewrite <- (append_nil ("=" +:+ ws2 +:+ String y v)) at 1.
      apply conditionTail_exact; [reflexivity|reflexivity|done|].
      by norm_append.
    - change (String.eqb "" "") with true. cbv iota. norm_append.
      eexists. apply conditionTail_exact; [exact Hws|by cbn; rewrite Hy|done|].
      unfold oneLine in Hline. rewrite allChars_app in Hline. by apply andb_true_iff in Hline as [_ ?]. }
  exists e. by apply operator_captured.
Qed.

(** A comparison written [column op value], with any white space around
    the operator, on one line: the groups of [reCondition] are the
    column, the operator as the alternation takes it, and the text
    behind it to the end. *)
Lemma condition_exact column ws1 op ws2 v :
  isIdentifier column = true →
  allChars Js.isSpace ws1 = true →
  allChars Js.isSpace ws2 = true →
  op ∈ operators →
  isValueText v = true →
  oneLine (ws2 +:+ v) = true →
  ∃ whole,
    match_ (column +:+ ws1 +:+ op +:+ ws2 +:+ v) reCondition
    = Some [Some whole; Some column; Some (capturedOperator op);
            Some (comparedText op ws2 v)].
Proof.
  intros Hid Hws1 Hws2 Hop Hv Hline.
  destruct column as [|x col]; [done|].
  pose proof Hid as Hid'.
  cbn [isIdentifier] in Hid. apply andb_true_iff in Hid as [Hx Hcol].
  set (s := String x col +:+ ws1 +:+ op +:+ ws2 +:+ v).
  set (c1 := <[1 := Some (String x col)]> (replicate 4 None : captures)).
  destruct (operator_exact op ws2 v
              (String.length (String x col) + String.length ws1) c1
              Hop Hws2 Hv Hline) as (e & Hrest).
  assert (matchHere reCondition 0 s
          = Some (e, <[3 := Some (comparedText op ws2 v)]>
                       (<[2 := Some (capturedOperator op)]> c1)))
    as Hhere.
  { unfold matchHere.
    change (source reCondition) with
      (Seq (Group 1 (Plus Word))
           (Seq (Star true Space) (Seq conditionOperator conditionTail))).
    cbn [reCondition rx ignoreCase groups]. subst s.
    change (run false (Seq ?a ?b) ?k ?i ?t ?c)
      with (run false a (fun i' s' c' => run false b k i' s' c') i t c).
    apply run_group_plus; [done| |..].
    { cbn [allChars accepts]. by rewrite Hx. }
    { destruct ws1 as [|w ws1]; norm_append.
      - by apply operator_head.
      - cbn [allChars] in Hws1. apply andb_true_iff in Hws1 as [Hw _].
        cbn [stopsAt accepts]. by rewrite (space_not_word w Hw). }
    apply star_greedy_run; [exact Hws1|by apply operator_head|].
    exact Hrest. }
  apply search_here in Hhere. unfold match_. rewrite Hhere.
  eexists. reflexivity.
Qed.

Lemma evaluateCondition_exact (row : gmap string value) column ws1 op ws2 v :
  isIdentifier column = true →
  allChars Js.isSpace ws1 = true →
  allChars Js.isSpace ws2 = true →
  op ∈ operators →
  isValueText v = true →
  oneLine (ws2 +:+ v) = true →
  evaluateCondition row (column +:+ ws1 +:+ op +:+ ws2 +:+ v)
  = Some (compare (capturedOperator op) (rowGet row (Js.toUpperCase column))
            (withoutQuotes (comparedText op ws2 v))).
Proof.
  intros Hid Hws1 Hws2 Hop Hv Hline. unfold evaluateCondition.
  destruct (condition_exact column ws1 op ws2 v Hid Hws1 Hws2 Hop Hv Hline)
    as [whole ->].
  by rewrite replace_reQuote.
Qed.

(** A text the pattern of [split] finds no separator in is left whole. *)
Lemma splitFrom_unmatched re s : ∀ piece i,
  search re i s = None →
  splitFrom re piece 0 i s
  = [Some (String.string_of_list_ascii (List.rev piece) +:+ s)].
Proof.
  induction s as [|a s IH]; intros piece i Hnone.
  - cbn [splitFrom]. by rewrite append_empty_r.
  - cbn [search] in Hnone. cbn [splitFrom].
    destruct (matchHere re i (String a s)) as [[e c]|]; [done|].
    rewrite IH by exact Hnone. cbn [List.rev].
    rewrite string_of_list_app. cbn [String.string_of_list_ascii].
    by rewrite append_assoc, append_cons, append_nil.
Qed.

Lemma split_unmatched re s :
  s ≠ "" → test re s = false → split s re = [Some s].
Proof.
  intros Hne Htest. unfold test in Htest.
  destruct (search re 0 s) eqn:Hsearch; [done|].
  destruct s as [|a s]; [done|]. unfold split.
  by rewrite (splitFrom_unmatched re _ [] 0 Hsearch), append_nil.
Qed.

(** A clause without separator is its one condition. *)
Lemma where_unsplit (row : gmap string value) cond :
  cond ≠ "" → Js.trim cond = cond → test reAndOr cond = false →
  evaluateWhereClause row cond = passes row cond.
Proof.
  intros Hne Htrim Htest. unfold evaluateWhereClause.
  rewrite (split_unmatched reAndOr cond Hne Htest).
  cbn [whereLoop default id]. rewrite Htrim. unfold passes.
  by destruct (evaluateCondition row cond) as [[]|].
Qed.

(** The one comparison of a clause without separator. *)
Lemma where_one_comparison (row : gmap string value) column ws1 op ws2 v :
  isIdentifier column = true →
  allChars Js.isSpace ws1 = true →
  allChars Js.isSpace ws2 = true →
  op ∈ operators →
  isValueText v = true →
  stopsAt Js.isSpace (Js.rev v) = true →
  oneLine (ws2 +:+ v) = true →
  test reAndOr (column +:+ ws1 +:+ op +:+ ws2 +:+ v) = false →
  evaluateWhereClause row (column +:+ ws1 +:+ op +:+ ws2 +:+ v)
  = compare (capturedOperator op) (rowGet row (Js.toUpperCase column))
      (withoutQuotes (comparedText op ws2 v)).
Proof.
  intros Hid Hws1 Hws2 Hop Hv Hend Hline Htest.
  set (cond := column +:+ ws1 +:+ op +:+ ws2 +:+ v).
  assert (cond ≠ "") as Hne.
  { subst cond. destruct column as [|x column]; [done|]. by rewrite append_cons. }
  assert (Js.trim cond = cond) as Htrim.
  { rewrite <- (append_empty_r cond) at 1.
    apply (trim_around "" cond ""); [done|done| |].
    - subst cond. destruct column as [|x column]; [done|].
      cbn [isIdentifier] in Hid. apply andb_true_iff in Hid as [Hx _].
      rewrite append_cons. cbn [stopsAt]. by rewrite (word_not_space x Hx).
    - subst cond. rewrite !rev_app, !append_assoc.
      apply stopsAt_app; [|exact Hend].
      destruct v as [|y v]; [done|]. unfold Js.rev.
      cbn [String.list_ascii_of_string List.rev].
      intros Hnil. apply (f_equal String.list_ascii_of_string) in Hnil.
      rewrite String.list_ascii_of_string_of_list_ascii in Hnil.
      by destruct (List.rev (String.list_ascii_of_string v)). }
  rewrite (where_unsplit row cond Hne Htrim Htest). unfold passes. subst cond.
  by rewrite evaluateCondition_exact.
Qed.

Lemma isTrue_decide (r : option bool) : isTrue r = bool_decide (r = Some true).
Proof. by destruct r as [[]|]. Qed.

(** X28: a WHERE clause that is one comparison [column op value], with any
    white space around the operator and no word AND or OR set off by
    white space inside, is evaluated on what the row has under the
    upper-cased column name, its own property or [undefined], against
    the text of the value without its single quotes.  A stored string
    is compared with the text by code units, a stored number with the
    text converted to a number, and [undefined] passes [!=] and [<>]
    only.  Written with [<=] or [>=] the comparison is the one of [<] or
    [>], and the text compared with starts with the [=]. *)
Theorem where_comparison (row : gmap string value) column ws1 op ws2 v :
  isIdentifier column = true →
  allChars Js.isSpace ws1 = true →
  allChars Js.isSpace ws2 = true →
  op ∈ operators →
  isValueText v = true →
  stopsAt Js.isSpace (Js.rev v) = true →
  oneLine (ws2 +:+ v) = true →
  test reAndOr (column +:+ ws1 +:+ op +:+ ws2 +:+ v) = false →
  let stored := default VUndefined (row !! Js.toUpperCase column) in
  let text := withoutQuotes (comparedText op ws2 v) in
  let holds := evaluateWhereClause row (column +:+ ws1 +:+ op +:+ ws2 +:+ v) in
  (∀ s, stored = VString s →
     (op = "=" → holds = String.eqb s text)
     ∧ (op = "!=" ∨ op = "<>" → holds = negb (String.eqb s text))
     ∧ (op = "<" ∨ op = "<=" → holds = String.ltb s text)
     ∧ (op = ">" ∨ op = ">=" → holds = String.ltb text s))
  ∧ (∀ n, stored = VNumber n →
       (op = "=" → holds = numberEq n (Number text))
       ∧ (op = "!=" ∨ op = "<>" → holds = negb (numberEq n (Number text)))
       ∧ (op = "<" ∨ op = "<=" →
          holds = bool_decide (numberLt n (Number text) = Some true))
       ∧ (op = ">" ∨ op = ">=" →
          holds = bool_decide (numberLt (Number text) n = Some true)))
  ∧ (stored = VUndefined → holds = bool_decide (op = "!=" ∨ op = "<>"))
  ∧ (op ≠ "<=" → op ≠ ">=" → text = withoutQuotes v)
  ∧ (op = "<=" ∨ op = ">=" → text = withoutQuotes ("=" +:+ ws2 +:+ v)).
Proof.
  intros Hid Hws1 Hws2 Hop Hv Hend Hline Htest stored text holds.
  assert (holds = compare (capturedOperator op) stored text) as Hholds.
  { subst holds stored text. rewrite where_one_comparison by done.
    by rewrite rowGet_upper. }
  clearbody stored holds. subst text.
  unfold operators in Hop.
  repeat (apply elem_of_cons in Hop as [-> | Hop]); [..|by apply elem_of_nil in Hop].
  all: cbn [capturedOperator comparedText afterOperator String.eqb Ascii.eqb
            Bool.eqb orb] in *.
  all: repeat split.
  all: try (by intros [?|?]).
  all: try (intros ? -> ?; subst holds; cbn; try apply isTrue_decide;
            by rewrite ?isTrue_decide).
  all: try (intros ? -> [?|?]; try done; subst holds; cbn;
            try apply isTrue_decide; try reflexivity).
  all: try (intros ->; subst holds; cbn; symmetry;
            first [by apply bool_decide_eq_true; auto
                  |by apply bool_decide_eq_false; intros [?|?]]).
  all: try done.
  all: intros _; subst; cbn -[isTrue]; try reflexivity;
    first [by destruct (String.ltb _ _)|by rewrite isTrue_decide].
Qed.

(** C5 on the code: the pattern of a condition tries [<] before [<=], so
    a comparison written with [<=] is made with [<], against a text that
    starts with the [=] left over.  A row whose NAME is A, for which
    NAME = 'A' holds, fails NAME <= 'A', and it passes NAME >= 'B'; a
    row whose ID is a number passes ID >= 1 when the number is greater
    than what the text "= 1" converts to. *)
Theorem less_or_equal_misread :
  let row : gmap string value := {[ "NAME" := VString "A" ]} in
  match_ "NAME <= 'A'" reCondition
  = Some [Some "NAME <= 'A'"; Some "NAME"; Some "<"; Some "= 'A'"]
  ∧ evaluateWhereClause row "NAME = 'A'" = true
  ∧ evaluateWhereClause row "NAME <= 'A'" = false
  ∧ evaluateWhereClause row "NAME >= 'B'" = true
  ∧ ∀ n, evaluateWhereClause {[ "ID" := VNumber n ]} "ID >= 1"
         = bool_decide (numberLt (Number "= 1") n = Some true).
Proof.
  intros row.
  assert (rowGet row (Js.toUpperCase "NAME") = VString "A") as Hget.
  { change (Js.toUpperCase "NAME") with "NAME". unfold rowGet, row.
    by rewrite lookup_singleton_eq. }
  assert (∀ op : string, op ∈ ["="; "<="; ">="] → op ∈ operators) as Hops.
  { intros op Hop. unfold operators.
    repeat (apply elem_of_cons in Hop as [-> | Hop]);
      [..|by apply elem_of_nil in Hop];
      repeat first [apply list_elem_of_here | apply list_elem_of_further]. }
  split; [by vm_compute|].
  split; [|split; [|split]].
  4: { intros n.
       etrans; [apply (where_one_comparison {[ "ID" := VNumber n ]}
                         "ID" " " ">=" " " "1");
                first [reflexivity
                      |apply Hops, list_elem_of_further, list_elem_of_further,
                         list_elem_of_here]|].
       change (Js.toUpperCase "ID") with "ID". unfold rowGet.
       rewrite lookup_singleton_eq. apply isTrue_decide. }
  - etrans; [apply (where_one_comparison row "NAME" " " "=" " " "'A'");
             first [reflexivity|apply Hops, list_elem_of_here]|].
    by rewrite Hget.
  - etrans; [apply (where_one_comparison row "NAME" " " "<=" " " "'A'");
             first [reflexivity
                   |apply Hops, list_elem_of_further, list_elem_of_here]|].
    by rewrite Hget.
  - etrans; [apply (where_one_comparison row "NAME" " " ">=" " " "'B'");
             first [reflexivity
                   |apply Hops, list_elem_of_further, list_elem_of_further,
                      list_elem_of_here]|].
    by rewrite Hget.
Qed.

(** X29: a WHERE clause made of conditions separated by the keywords AND
    and OR, in any letter case and with any white space around them,
    holds of a row exactly when each of its conditions, taken as a clause
    of its own, holds of the row; the clause written with other keywords
    between the same conditions evaluates alike, so OR behaves as AND. *)
Theorem where_keywords_ignored (row : gmap string value) first more :
  isAtom first = true →
  wellFormed more →
  evaluateWhereClause row (clause first more)
  = forallb (evaluateWhereClause row) (first :: map snd more)
  ∧ ∀ more', wellFormed more' → map snd more' = map snd more →
      evaluateWhereClause row (clause first more')
      = evaluateWhereClause row (clause first more).
Proof.
  intros Hf Hm.
  assert (∀ a, isAtom a = true → evaluateWhereClause row a = passes row a) as Hone.
  { intros a Ha. rewrite evaluateWhereClause_forallb.
    pose proof (conditionsOf_clause a [] Ha (Forall_nil_2 _)) as Hc.
    cbn [clause map] in Hc. rewrite Hc. cbn [forallb]. apply andb_true_r. }
  split.
  - rewrite evaluateWhereClause_forallb, conditionsOf_clause by done.
    cbn [forallb]. rewrite (Hone first Hf). f_equal.
    induction more as [|[sp a] more IH]; [reflexivity|].
    apply Forall_cons in Hm as [[_ Ha] Hm]. cbn [snd] in Ha.
    cbn [map snd forallb]. by rewrite (Hone a Ha), IH.
  - intros more' Hm' Heq. apply evaluateWhereClause_same_conditions.
    rewrite !conditionsOf_clause by done. by rewrite Heq.
Qed.
End Comparisons.

(** * The properties at work on examples *)

Section Witnesses.
Import Re IntRuntime Examples.

Lemma generateExecutionPlan_formula_witness :
  (0 ≤ 250)%Z
  ∧ operation (generateExecutionPlan "select" "emp" 250) = "SELECT STATEMENT"
  ∧ bytes (generateExecutionPlan "select" "emp" 250) = 25000%Z.
Proof.
  assert (0 ≤ 250)%Z as Hn by discriminate.
  destruct (generateExecutionPlan_formula "select" "emp" 250 Hn)
    as (Hop & _ & _ & _ & Hbytes & _).
  exact (conj Hn (conj Hop Hbytes)).
Defined.

Lemma sampleCatalog_upperKeys : upperKeys sampleCatalog.
Proof.
  unfold upperKeys, sampleCatalog. apply map_Forall_singleton. reflexivity.
Defined.

Lemma executeCreateTable_duplicate_witness :
  upperKeys sampleCatalog
  ∧ is_Some (sampleCatalog !! "T")
  ∧ Js.toUpperCase "T" = Js.toUpperCase "t"
  ∧ match_ "create table t (x INT)" reCreateTable
    = Some [Some "create table t (x INT)"; Some "t"; Some "x INT"]
  ∧ ∃ err,
      executeCreateTable env sampleCatalog "create table t (x INT)"
      = (sampleCatalog, Returned (failed err))
      ∧ err = "ORA-00955: name is already used by an existing object: t"
      ∧ success (failed err) = false
      ∧ Js.startsWith err "ORA-00955" = true.
Proof.
  assert (is_Some (sampleCatalog !! "T")) as Hin
    by (exists sampleTable; apply lookup_singleton_eq).
  assert (match_ "create table t (x INT)" reCreateTable
          = Some [Some "create table t (x INT)"; Some "t"; Some "x INT"]) as Hm
    by (vm_compute; reflexivity).
  exact (conj sampleCatalog_upperKeys (conj Hin (conj eq_refl (conj Hm
    (executeCreateTable_duplicate env sampleCatalog _ _ "t" _ "T"
       sampleCatalog_upperKeys Hin eq_refl Hm))))).
Defined.

Lemma select_describe_frame_witness :
  (classify (prepare "SELECT * FROM T;") = KSelect
   ∨ classify (prepare "SELECT * FROM T;") = KDescribe)
  ∧ fst (parseSQL env sampleCatalog "SELECT * FROM T;") = sampleCatalog.
Proof.
  assert (classify (prepare "SELECT * FROM T;") = KSelect) as Hk
    by (vm_compute; reflexivity).
  destruct (select_describe_frame env sampleCatalog "SELECT * FROM T;")
    as (_ & _ & Hframe).
  exact (conj (or_introl Hk) (Hframe (or_introl Hk))).
Defined.

Lemma executeInsert_positional_witness :
  match_ "INSERT INTO t (ID, NAME) VALUES (7)" reInsert
  = Some [Some "INSERT INTO t (ID, NAME) VALUES (7)"; Some "t";
          Some "ID, NAME"; Some "7"]
  ∧ sampleCatalog !! Js.toUpperCase "t" = Some sampleTable
  ∧ ∃ newRow : gmap string value,
      executeInsert sampleCatalog "INSERT INTO t (ID, NAME) VALUES (7)"
      = (<[Js.toUpperCase "t" :=
             withData sampleTable (tbl_data sampleTable ++ [newRow])]> sampleCatalog,
         Returned (done_with "1 row created." 1))
      ∧ rowGet newRow "ID" = VNumber (Some 7%Z)
      ∧ rowGet newRow "NAME" = VUndefined.
Proof.
  assert (match_ "INSERT INTO t (ID, NAME) VALUES (7)" reInsert
          = Some [Some "INSERT INTO t (ID, NAME) VALUES (7)"; Some "t";
                  Some "ID, NAME"; Some "7"]) as Hm
    by (vm_compute; reflexivity).
  assert (sampleCatalog !! Js.toUpperCase "t" = Some sampleTable) as Ht
    by apply lookup_singleton_eq.
  destruct (executeInsert_positional sampleCatalog _ _ _ _ _ _ Hm Ht)
    as (newRow & Hrun & Hpos & _ & _).
  refine (conj Hm (conj Ht (ex_intro _ newRow (conj Hrun (conj _ _))))).
  - apply (Hpos 0 "ID"); [reflexivity| |discriminate].
    intros Hin. apply list_elem_of_singleton in Hin. discriminate Hin.
  - apply (Hpos 1 "NAME"); [reflexivity|apply not_elem_of_nil|discriminate].
Defined.

(** C6 as stated fails: the value listed for a column called
    [__proto__] is assigned to nothing.  The new row has no property at
    all and reads its prototype under that name, not the 5. *)
Lemma insert_under_proto_stores_nothing :
  ∃ newRow : gmap string value,
    fst (parseSQL env sampleCatalog "INSERT INTO t (__proto__) VALUES (5)") !! "T"
    = Some (withData sampleTable (tbl_data sampleTable ++ [newRow]))
    ∧ parseValues "5" = [VNumber (Some 5%Z)]
    ∧ newRow = ∅
    ∧ rowGet newRow "__proto__" ≠ VNumber (Some 5%Z).
Proof.
  exists ∅. split; [reflexivity|]. split; [reflexivity|]. split; [reflexivity|].
  discriminate.
Defined.

Lemma evaluateCondition_absent_column_witness :
  isIdentifier "age" = true
  ∧ sampleRow !! Js.toUpperCase "age" = None
  ∧ evaluateCondition sampleRow "age <= 30" = Some false
  ∧ evaluateCondition sampleRow "age <> 30" = Some true.
Proof.
  assert (isIdentifier "age" = true) as Hid by reflexivity.
  assert (allChars Js.isSpace " " = true) as Hws by reflexivity.
  assert (Js.isSpace "3" = false) as Hv by reflexivity.
  assert (isOperatorChar "3" = false) as Hvop by reflexivity.
  assert (sampleRow !! Js.toUpperCase "age" = None) as Hrow by reflexivity.
  assert ("<=" ∈ ["="; "<"; ">"; "<="; ">="]) as Hle
    by (repeat first [apply list_elem_of_here | apply list_elem_of_further]).
  assert ("<>" ∈ ["!="; "<>"]) as Hne
    by (repeat first [apply list_elem_of_here | apply list_elem_of_further]).
  exact (conj Hid (conj Hrow (conj
    (proj1 (evaluateCondition_absent_column sampleRow "age" " " "<=" " " "3" "0"
              Hid Hws Hws Hv Hvop Hrow) Hle)
    (proj2 (evaluateCondition_absent_column sampleRow "age" " " "<>" " " "3" "0"
              Hid Hws Hws Hv Hvop Hrow) Hne)))).
Defined.


Lemma create_then_describe_witness :
  classify (prepare "CREATE TABLE T (ID NUMBER, NAME VARCHAR2(50))") = KCreateTable
  ∧ match_ (prepare "CREATE TABLE T (ID NUMBER, NAME VARCHAR2(50))") reCreateTable
    = Some [Some "CREATE TABLE T (ID DECIMAL(38,10), NAME VARCHAR(50))";
            Some "T"; Some "ID DECIMAL(38,10), NAME VARCHAR(50)"]
  ∧ (∅ : gmap string OracleTable) !! Js.toUpperCase "T" = None
  ∧ classify (prepare "DESCRIBE t") = KDescribe
  ∧ match_ (prepare "DESCRIBE t") reDescribe = Some [Some "DESCRIBE t"; Some "t"]
  ∧ data (snd (parseSQL env
                 (fst (parseSQL env ∅
                         "CREATE TABLE T (ID NUMBER, NAME VARCHAR2(50))"))
                 "DESCRIBE t"))
    = Some [declaredRow "ID" "DECIMAL(38" true;
            declaredRow "10)" "VARCHAR2(255)" true;
            declaredRow "NAME" "VARCHAR(50)" true].
Proof.
  assert (classify (prepare "CREATE TABLE T (ID NUMBER, NAME VARCHAR2(50))")
          = KCreateTable) as Hk by (vm_compute; reflexivity).
  assert (match_ (prepare "CREATE TABLE T (ID NUMBER, NAME VARCHAR2(50))")
                 reCreateTable
          = Some [Some "CREATE TABLE T (ID DECIMAL(38,10), NAME VARCHAR(50))";
                  Some "T"; Some "ID DECIMAL(38,10), NAME VARCHAR(50)"])
    as Hm by (vm_compute; reflexivity).
  assert ((∅ : gmap string OracleTable) !! Js.toUpperCase "T" = None) as Hfresh
    by apply lookup_empty.
  assert (classify (prepare "DESCRIBE t") = KDescribe) as Hk'
    by (vm_compute; reflexivity).
  assert (match_ (prepare "DESCRIBE t") reDescribe
          = Some [Some "DESCRIBE t"; Some "t"]) as Hm'
    by (vm_compute; reflexivity).
  assert (Js.toUpperCase "t" = Js.toUpperCase "T") as Hn by reflexivity.
  destruct (create_then_describe env env ∅ _ _ _ _ _ _ _
              Hk Hm Hfresh Hk' Hm' Hn) as (_ & Hdesc & _).
  refine (conj Hk (conj Hm (conj Hfresh (conj Hk' (conj Hm' _))))).
  rewrite Hdesc. reflexivity.
Defined.

(** C3 as stated fails: the type DESCRIBE shows is not the type as
    declared. *)
Lemma describe_shows_rewritten_type :
  ∃ rows,
    data (snd (parseSQL env
                 (fst (parseSQL env ∅ "CREATE TABLE T (NAME VARCHAR2(50))"))
                 "DESCRIBE T")) = Some rows
    ∧ rows ≠ [declaredRow "NAME" "VARCHAR2(50)" true]
    ∧ rows = [declaredRow "NAME" "VARCHAR(50)" true].
Proof.
  exists [declaredRow "NAME" "VARCHAR(50)" true].
  split; [reflexivity|]. split; [|reflexivity].
  intros Heq.
  apply (f_equal (fun rows => rows !! 0 ≫= (.!! "Type"))) in Heq.
  discriminate Heq.
Defined.
End Witnesses.

(** * The further properties at work on examples *)

Section FurtherWitnesses.
Import Re IntRuntime Examples MoreExamples Terminal.

Lemma sampleCatalog_ok : catalogOk sampleCatalog.
Proof.
  unfold catalogOk, sampleCatalog. apply map_Forall_singleton. by repeat split.
Defined.

Lemma sampleCatalog_T name :
  Js.toUpperCase name = "T" → sampleCatalog !! Js.toUpperCase name = Some sampleTable.
Proof. intros ->. apply lookup_singleton_eq. Defined.

Lemma failed_statement_no_effect_witness :
  success (snd (parseSQL env sampleCatalog "DROP TABLE NOPE;")) = false
  ∧ fst (parseSQL env sampleCatalog "DROP TABLE NOPE;") = sampleCatalog.
Proof.
  assert (success (snd (parseSQL env sampleCatalog "DROP TABLE NOPE;")) = false)
    as Hfail by (vm_compute; reflexivity).
  exact (conj Hfail
           (failed_statement_no_effect env sampleCatalog "DROP TABLE NOPE;" Hfail)).
Defined.

Lemma table_schema_kept_witness :
  sampleCatalog !! "T" = Some sampleTable
  ∧ fst (parseSQL env sampleCatalog "CREATE INDEX ix ON t (ID);") !! "T"
    = Some indexedTable
  ∧ tbl_columns indexedTable = tbl_columns sampleTable
  ∧ ∃ added, tbl_indexes indexedTable = tbl_indexes sampleTable ++ added.
Proof.
  assert (sampleCatalog !! "T" = Some sampleTable) as Ht
    by apply lookup_singleton_eq.
  assert (fst (parseSQL env sampleCatalog "CREATE INDEX ix ON t (ID);") !! "T"
          = Some indexedTable) as Ht' by reflexivity.
  destruct (table_schema_kept env sampleCatalog _ "T" _ _ Ht Ht')
    as (_ & Hcols & _ & _ & Hix).
  exact (conj Ht (conj Ht' (conj Hcols Hix))).
Defined.

Lemma table_rows_kept_witness :
  sampleCatalog !! "T" = Some sampleTable
  ∧ fst (parseSQL env sampleCatalog "INSERT INTO t VALUES (3,'C');") !! "T"
    = Some grownTable
  ∧ ((∃ row, tbl_data grownTable = tbl_data sampleTable ++ [row])
     ∨ tbl_data grownTable `sublist_of` tbl_data sampleTable).
Proof.
  assert (sampleCatalog !! "T" = Some sampleTable) as Ht
    by apply lookup_singleton_eq.
  assert (fst (parseSQL env sampleCatalog "INSERT INTO t VALUES (3,'C');") !! "T"
          = Some grownTable) as Ht' by reflexivity.
  exact (conj Ht (conj Ht' (table_rows_kept env sampleCatalog _ "T" _ _ Ht Ht'))).
Defined.

Lemma catalogOk_kept_witness :
  catalogOk sampleCatalog
  ∧ catalogOk (fst (parseSQL env sampleCatalog "CREATE TABLE dept (id INT);")).
Proof.
  exact (conj sampleCatalog_ok
           (catalogOk_kept env sampleCatalog "CREATE TABLE dept (id INT);"
              sampleCatalog_ok)).
Defined.

Lemma failure_has_ora_code_witness :
  success (snd (parseSQL env sampleCatalog "SELECT * FROM dept;")) = false
  ∧ ∃ e, error (snd (parseSQL env sampleCatalog "SELECT * FROM dept;")) = Some e
         ∧ Js.startsWith e "ORA-" = true.
Proof.
  assert (success (snd (parseSQL env sampleCatalog "SELECT * FROM dept;")) = false)
    as Hfail by (vm_compute; reflexivity).
  exact (conj Hfail
           (proj1 (failure_has_ora_code env sampleCatalog "SELECT * FROM dept;"
                     Hfail))).
Defined.

Lemma success_has_rows_or_message_witness :
  success (snd (parseSQL env sampleCatalog "DESC t")) = true
  ∧ error (snd (parseSQL env sampleCatalog "DESC t")) = None.
Proof.
  assert (success (snd (parseSQL env sampleCatalog "DESC t")) = true)
    as Hok by (vm_compute; reflexivity).
  exact (conj Hok
           (proj1 (success_has_rows_or_message env sampleCatalog "DESC t" Hok))).
Defined.

Lemma select_star_returns_rows_witness :
  prepare "  SELECT * FROM t WHERE ID = 1;" = "SELECT * FROM t" +:+ wherePart (Some "ID = 1")
  ∧ isIdentifier "t" = true
  ∧ (∀ w', Some "ID = 1" = Some w' → isClause w' = true)
  ∧ sampleCatalog !! Js.toUpperCase "t" = Some sampleTable
  ∧ rowsWhere (Some "ID = 1") (tbl_data sampleTable)
    `sublist_of` tbl_data sampleTable.
Proof.
  assert (prepare "  SELECT * FROM t WHERE ID = 1;"
          = "SELECT * FROM " +:+ "t" +:+ wherePart (Some "ID = 1")) as Hp
    by (vm_compute; reflexivity).
  assert (∀ w', Some "ID = 1" = Some w' → isClause w' = true) as Hw
    by (by intros w' [= <-]).
  assert (sampleCatalog !! Js.toUpperCase "t" = Some sampleTable) as Ht
    by apply lookup_singleton_eq.
  destruct (select_star_returns_rows env sampleCatalog _ "t" _ _
              Hp eq_refl Hw Ht) as (_ & Hsub & _).
  exact (conj Hp (conj eq_refl (conj Hw (conj Ht Hsub)))).
Defined.

Lemma insert_then_select_witness :
  prepare "INSERT INTO t VALUES (3,'C');" = "INSERT INTO t VALUES (3,'C')"
  ∧ prepare "SELECT * FROM T;" = "SELECT * FROM T"
  ∧ sampleCatalog !! Js.toUpperCase "t" = Some sampleTable
  ∧ rowCount (snd (parseSQL env
                     (fst (parseSQL env sampleCatalog
                             "INSERT INTO t VALUES (3,'C');"))
                     "SELECT * FROM T;"))
    = Some 3.
Proof.
  assert (prepare "INSERT INTO t VALUES (3,'C');"
          = "INSERT INTO " +:+ "t" +:+ " VALUES (" +:+ "3,'C'" +:+ ")") as Hp
    by (vm_compute; reflexivity).
  assert (prepare "SELECT * FROM T;" = "SELECT * FROM " +:+ "T") as Hp'
    by (vm_compute; reflexivity).
  assert (sampleCatalog !! Js.toUpperCase "t" = Some sampleTable) as Ht
    by apply lookup_singleton_eq.
  destruct (insert_then_select env env sampleCatalog _ _ "t" "T" "3,'C'" _
              Hp Hp' eq_refl eq_refl eq_refl eq_refl Ht)
    as (_ & _ & _ & _ & Hcount).
  exact (conj Hp (conj Hp' (conj Ht Hcount))).
Defined.

Lemma delete_reports_selected_witness :
  prepare "DELETE FROM T WHERE ID = 1;" = "DELETE FROM T WHERE ID = 1"
  ∧ prepare "SELECT * FROM T WHERE ID = 1;" = "SELECT * FROM T WHERE ID = 1"
  ∧ (∀ w', Some "ID = 1" = Some w' → isClause w' = true)
  ∧ sampleCatalog !! Js.toUpperCase "T" = Some sampleTable
  ∧ length (rowsWhere (Some "ID = 1") (tbl_data sampleTable))
    + length (rowsLeft (Some "ID = 1") (tbl_data sampleTable))
    = length (tbl_data sampleTable).
Proof.
  assert (prepare "DELETE FROM T WHERE ID = 1;"
          = "DELETE FROM " +:+ "T" +:+ wherePart (Some "ID = 1")) as Hp
    by (vm_compute; reflexivity).
  assert (prepare "SELECT * FROM T WHERE ID = 1;"
          = "SELECT * FROM " +:+ "T" +:+ wherePart (Some "ID = 1")) as Hp'
    by (vm_compute; reflexivity).
  assert (∀ w', Some "ID = 1" = Some w' → isClause w' = true) as Hw
    by (by intros w' [= <-]).
  assert (sampleCatalog !! Js.toUpperCase "T" = Some sampleTable) as Ht
    by apply lookup_singleton_eq.
  destruct (delete_reports_selected env env sampleCatalog _ _ "T" _ _
              Hp Hp' eq_refl Hw Ht) as (_ & _ & Hsum & _).
  exact (conj Hp (conj Hp' (conj Hw (conj Ht Hsum)))).
Defined.

Lemma delete_then_select_witness :
  prepare "DELETE FROM T WHERE ID = 1;" = "DELETE FROM T WHERE ID = 1"
  ∧ prepare "SELECT * FROM T WHERE ID = 1;" = "SELECT * FROM T WHERE ID = 1"
  ∧ prepare "SELECT * FROM T;" = "SELECT * FROM T"
  ∧ isClause "ID = 1" = true
  ∧ sampleCatalog !! Js.toUpperCase "T" = Some sampleTable
  ∧ data (snd (parseSQL env
                 (fst (parseSQL env sampleCatalog "DELETE FROM T WHERE ID = 1;"))
                 "SELECT * FROM T WHERE ID = 1;"))
    = Some [].
Proof.
  assert (prepare "DELETE FROM T WHERE ID = 1;"
          = "DELETE FROM " +:+ "T" +:+ " WHERE " +:+ "ID = 1") as Hp
    by (vm_compute; reflexivity).
  assert (prepare "SELECT * FROM T WHERE ID = 1;"
          = "SELECT * FROM " +:+ "T" +:+ " WHERE " +:+ "ID = 1") as Hp1
    by (vm_compute; reflexivity).
  assert (prepare "SELECT * FROM T;" = "SELECT * FROM " +:+ "T") as Hp2
    by (vm_compute; reflexivity).
  assert (sampleCatalog !! Js.toUpperCase "T" = Some sampleTable) as Ht
    by apply lookup_singleton_eq.
  destruct (delete_then_select env env env sampleCatalog _ _ _ "T" "ID = 1" _
              Hp Hp1 Hp2 eq_refl eq_refl Ht) as (Hnone & _).
  exact (conj Hp (conj Hp1 (conj Hp2 (conj eq_refl (conj Ht Hnone))))).
Defined.

Lemma create_then_select_witness :
  prepare "CREATE TABLE dept (id INT, name TEXT);"
  = "CREATE TABLE dept (id INT, name TEXT)"
  ∧ prepare "SELECT * FROM DEPT;" = "SELECT * FROM DEPT"
  ∧ sampleCatalog !! Js.toUpperCase "dept" = None
  ∧ columns (snd (parseSQL env
                    (fst (parseSQL env sampleCatalog
                            "CREATE TABLE dept (id INT, name TEXT);"))
                    "SELECT * FROM DEPT;"))
    = Some ["ID"; "NAME"].
Proof.
  assert (prepare "CREATE TABLE dept (id INT, name TEXT);"
          = "CREATE TABLE " +:+ "dept" +:+ " (" +:+ "id INT, name TEXT" +:+ ")")
    as Hp by (vm_compute; reflexivity).
  assert (prepare "SELECT * FROM DEPT;" = "SELECT * FROM " +:+ "DEPT") as Hp'
    by (vm_compute; reflexivity).
  assert (sampleCatalog !! Js.toUpperCase "dept" = None) as Ht
    by (by apply lookup_singleton_ne).
  destruct (create_then_select env env sampleCatalog _ _ "dept" "DEPT"
              "id INT, name TEXT" Hp Hp' eq_refl eq_refl eq_refl eq_refl Ht)
    as (_ & _ & _ & _ & Hcols).
  refine (conj Hp (conj Hp' (conj Ht _))).
  rewrite Hcols. vm_compute. reflexivity.
Defined.

Lemma create_then_drop_witness :
  prepare "CREATE TABLE dept (id INT, name TEXT);"
  = "CREATE TABLE dept (id INT, name TEXT)"
  ∧ prepare "DROP TABLE Dept;" = "DROP TABLE Dept"
  ∧ sampleCatalog !! Js.toUpperCase "dept" = None
  ∧ fst (parseSQL env
           (fst (parseSQL env sampleCatalog
                   "CREATE TABLE dept (id INT, name TEXT);"))
           "DROP TABLE Dept;")
    = sampleCatalog.
Proof.
  assert (prepare "CREATE TABLE dept (id INT, name TEXT);"
          = "CREATE TABLE " +:+ "dept" +:+ " (" +:+ "id INT, name TEXT" +:+ ")")
    as Hp by (vm_compute; reflexivity).
  assert (prepare "DROP TABLE Dept;" = "DROP TABLE " +:+ "Dept") as Hp'
    by (vm_compute; reflexivity).
  assert (sampleCatalog !! Js.toUpperCase "dept" = None) as Ht
    by (by apply lookup_singleton_ne).
  destruct (create_then_drop env env sampleCatalog _ _ "dept" "Dept"
              "id INT, name TEXT" Hp Hp' eq_refl eq_refl eq_refl eq_refl Ht)
    as (_ & _ & Hback).
  exact (conj Hp (conj Hp' (conj Ht Hback))).
Defined.

Lemma drop_then_select_witness :
  prepare "DROP TABLE t;" = "DROP TABLE t"
  ∧ prepare "SELECT * FROM T;" = "SELECT * FROM T"
  ∧ is_Some (sampleCatalog !! Js.toUpperCase "t")
  ∧ error (snd (parseSQL env (fst (parseSQL env sampleCatalog "DROP TABLE t;"))
                  "SELECT * FROM T;"))
    = Some "ORA-00942: table or view does not exist: T".
Proof.
  assert (prepare "DROP TABLE t;" = "DROP TABLE " +:+ "t") as Hp
    by (vm_compute; reflexivity).
  assert (prepare "SELECT * FROM T;" = "SELECT * FROM " +:+ "T" +:+ wherePart None)
    as Hp' by (vm_compute; reflexivity).
  assert (is_Some (sampleCatalog !! Js.toUpperCase "t")) as Ht
    by (exists sampleTable; apply lookup_singleton_eq).
  assert (∀ w', (None : option string) = Some w' → isClause w' = true) as Hw
    by (intros w' Hnone; discriminate Hnone).
  destruct (drop_then_select env env sampleCatalog _ _ "t" "T" None
              Hp Hp' eq_refl eq_refl eq_refl Hw Ht) as (_ & Hsel).
  refine (conj Hp (conj Hp' (conj Ht _))).
  rewrite Hsel. reflexivity.
Defined.

Lemma select_columns_projects_witness :
  prepare "SELECT NAME,id,toString,__proto__ FROM t;"
  = "SELECT NAME,id,toString,__proto__ FROM t"
  ∧ Forall (fun col => isIdentifier col = true)
      ["NAME"; "id"; "toString"; "__proto__"]
  ∧ sampleCatalog !! Js.toUpperCase "t" = Some sampleTable
  ∧ columns (snd (parseSQL env sampleCatalog
                    "SELECT NAME,id,toString,__proto__ FROM t;"))
    = Some ["NAME"; "id"; "toString"; "__proto__"]
  ∧ projectRow ["NAME"; "id"; "toString"; "__proto__"] sampleRow
    = {[ "NAME" := VString "A"; "id" := VUndefined;
         "toString" := VMember "toString" ]}.
Proof.
  assert (prepare "SELECT NAME,id,toString,__proto__ FROM t;"
          = "SELECT " +:+ Js.join "," ["NAME"; "id"; "toString"; "__proto__"]
            +:+ " FROM " +:+ "t" +:+ wherePart None) as Hp
    by (vm_compute; reflexivity).
  assert (["NAME"; "id"; "toString"; "__proto__"] ≠ ([] : list string)) as Hne
    by discriminate.
  assert (Forall (fun col => isIdentifier col = true)
            ["NAME"; "id"; "toString"; "__proto__"]) as Hcols
    by (repeat (apply Forall_cons; split; [reflexivity|]); apply Forall_nil_2).
  assert (∀ w', (None : option string) = Some w' → isClause w' = true) as Hw
    by (intros w' Hnone; discriminate Hnone).
  assert (sampleCatalog !! Js.toUpperCase "t" = Some sampleTable) as Ht
    by apply lookup_singleton_eq.
  destruct (select_columns_projects env sampleCatalog _ _ "t" None _
              Hp Hne Hcols eq_refl Hw Ht) as (_ & Hnames & _).
  exact (conj Hp (conj Hcols (conj Ht (conj Hnames eq_refl)))).
Defined.

Lemma create_index_appends_witness :
  prepare "CREATE INDEX ix ON t (ID);" = "CREATE INDEX ix ON t (ID)"
  ∧ sampleCatalog !! Js.toUpperCase "t" = Some sampleTable
  ∧ fst (parseSQL env sampleCatalog "CREATE INDEX ix ON t (ID);") !! "T"
    = Some indexedTable.
Proof.
  assert (prepare "CREATE INDEX ix ON t (ID);"
          = "CREATE INDEX " +:+ "ix" +:+ " ON " +:+ "t" +:+ " (" +:+ "ID" +:+ ")")
    as Hp by (vm_compute; reflexivity).
  assert (sampleCatalog !! Js.toUpperCase "t" = Some sampleTable) as Ht
    by apply lookup_singleton_eq.
  destruct (create_index_appends env sampleCatalog _ "ix" "t" "ID" _
              Hp eq_refl eq_refl eq_refl Ht) as (Hrun & _).
  refine (conj Hp (conj Ht _)).
  rewrite Hrun. reflexivity.
Defined.

Lemma parseValues_quoted_witness :
  commaFree "4 2" = true
  ∧ allChars Js.isSpace " " = true
  ∧ parseValues "1, '4 2' ,x" = [VNumber (Some 1%Z); VString "4 2"; VString "x"].
Proof.
  exact (conj eq_refl (conj eq_refl
           (proj2 (proj2 (proj2
              (parseValues_quoted "1" " " "4 2" " " "x"
                 eq_refl eq_refl eq_refl)))))).
Defined.

Lemma prepare_plain_witness :
  allChars Js.isSpace "  " = true
  ∧ stopsAt Js.isSpace "select * from emp" = true
  ∧ plain "select * from emp" = true
  ∧ prepare "  select * from emp;" = "select * from emp".
Proof.
  exact (conj eq_refl (conj eq_refl (conj eq_refl
           (prepare_plain "  " "select * from emp" "" eq_refl eq_refl eq_refl
              eq_refl)))).
Defined.

Lemma update_statements_rejected_witness :
  Js.startsWith (Js.toUpperCase (Js.trim " update t set name = 'x';")) "UPDATE"
  = true
  ∧ fst (parseSQL env sampleCatalog " update t set name = 'x';") = sampleCatalog.
Proof.
  assert (Js.startsWith (Js.toUpperCase (Js.trim " update t set name = 'x';"))
            "UPDATE" = true) as Hstart by (vm_compute; reflexivity).
  exact (conj Hstart
           (proj1 (update_statements_rejected env sampleCatalog _ Hstart))).
Defined.

Lemma create_unique_index_rejected_witness :
  Js.startsWith (Js.toUpperCase (prepare "CREATE UNIQUE INDEX ix ON t (ID);"))
    "CREATE UNIQUE" = true
  ∧ fst (parseSQL env sampleCatalog "CREATE UNIQUE INDEX ix ON t (ID);")
    = sampleCatalog.
Proof.
  assert (Js.startsWith
            (Js.toUpperCase (prepare "CREATE UNIQUE INDEX ix ON t (ID);"))
            "CREATE UNIQUE" = true) as Hstart by (vm_compute; reflexivity).
  exact (conj Hstart
           (proj1 (create_unique_index_rejected env sampleCatalog _ Hstart))).
Defined.

Lemma answers_ignore_clock_witness :
  elapsed env = elapsed laterEnv
  ∧ snd (parseSQL env sampleCatalog "(SELECT SYSDATE FROM DUAL);")
    = snd (parseSQL laterEnv sampleCatalog "(SELECT SYSDATE FROM DUAL);").
Proof.
  exact (conj eq_refl
           (proj1 (answers_ignore_clock env laterEnv sampleCatalog
                     "(SELECT SYSDATE FROM DUAL);" eq_refl))).
Defined.

Lemma falsy_number_short (n : option Z) :
  numberTruthy n = false → String.length (numberToString n) ≤ 10.
Proof.
  destruct n as [x|]; cbn [numberTruthy numberToString runtime].
  - intros Hx%negb_false_iff%Z.eqb_eq. subst x.
    change (String.length "0" ≤ 10). simpl. lia.
  - intros _. simpl. lia.
Defined.

Lemma table_lines_aligned_witness :
  (∀ n : option Z, numberTruthy n = false →
                   String.length (numberToString n) ≤ 10)
  ∧ sampleRow ∈ tbl_data sampleTable
  ∧ String.length (dataLine (tbl_data sampleTable) ["ID"; "NAME"] sampleRow)
    = String.length (headerLine (tbl_data sampleTable) ["ID"; "NAME"]).
Proof.
  assert (sampleRow ∈ tbl_data sampleTable) as Hrow by apply list_elem_of_here.
  exact (conj falsy_number_short (conj Hrow
           (proj1 (table_lines_aligned (tbl_data sampleTable) ["ID"; "NAME"]
                     sampleRow falsy_number_short Hrow)))).
Defined.

Lemma where_comparison_witness :
  isIdentifier "name" = true
  ∧ "<=" ∈ operators
  ∧ isValueText "'A'" = true
  ∧ test reAndOr "name <= 'A'" = false
  ∧ evaluateWhereClause sampleRow "name <= 'A'" = String.ltb "A" "= A"
  ∧ String.ltb "A" "= A" = false.
Proof.
  assert ("<=" ∈ operators) as Hop
    by (unfold operators; repeat first [apply list_elem_of_here
                                       |apply list_elem_of_further]).
  destruct (where_comparison sampleRow "name" " " "<=" " " "'A'"
              eq_refl eq_refl eq_refl Hop eq_refl eq_refl eq_refl eq_refl)
    as (Htext & _).
  destruct (Htext "A" eq_refl) as (_ & _ & Hless & _).
  exact (conj eq_refl (conj Hop (conj eq_refl (conj eq_refl
           (conj (Hless (or_intror eq_refl)) eq_refl))))).
Defined.

Lemma where_keywords_ignored_witness :
  isAtom "ID = 1" = true
  ∧ wellFormed [(orSeparator, "NAME = 'John Adams'")]
  ∧ clause "ID = 1" [(orSeparator, "NAME = 'John Adams'")]
    = "ID = 1 OR NAME = 'John Adams'"
  ∧ evaluateWhereClause sampleRow "ID = 1" = true
  ∧ evaluateWhereClause sampleRow "NAME = 'John Adams'" = false
  ∧ evaluateWhereClause sampleRow "ID = 1 OR NAME = 'John Adams'" = false.
Proof.
  assert (isAtom "ID = 1" = true) as Ha by reflexivity.
  assert (wellFormed [(orSeparator, "NAME = 'John Adams'")]) as Hw
    by (apply Forall_cons; split; [split; reflexivity|apply Forall_nil_2]).
  assert (evaluateWhereClause sampleRow "ID = 1" = true) as H1
    by (vm_compute; reflexivity).
  assert (evaluateWhereClause sampleRow "NAME = 'John Adams'" = false) as H2
    by (vm_compute; reflexivity).
  destruct (where_keywords_ignored sampleRow "ID = 1"
              [(orSeparator, "NAME = 'John Adams'")] Ha Hw) as [Hall _].
  refine (conj Ha (conj Hw (conj eq_refl (conj H1 (conj H2 _))))).
  etrans; [exact Hall|]. cbn [map snd forallb]. by rewrite H1, H2.
Defined.
End FurtherWitnesses.
